(** * Goofy's Jargon: the word-pattern core of [src/App.js]

    A shallow embedding of the pure parts of the React component [App]
    (the affix index, the pattern aggregation, the rarity classes, the
    drill set) and of its learn-mode event handlers, seen as transitions
    on the component state.

    Conventions.
    - A JavaScript string is a [string]: a sequence of code units in the
      range 0..255 (the Latin-1 part of UTF-16).  [toLowerCase] and [trim]
      are the ECMAScript functions restricted to that range.
    - A [Map] that is only read with [get] is a [gmap]; the [Map] whose
      [values()] are iterated is an insertion-ordered association list.
    - A [Set] is a [gset].
    - An event handler is a function from the state of one render to the
      state of the next one: the setters called by the handler are applied
      in one batch.
    - A counter is a [nat].  The percentage of the score line is computed
      as the code computes it, on binary64 Numbers (the [spec_float] of
      the standard library), which hold every counter below [2 ^ 53]. *)

From Stdlib Require Import ZArith QArith Qround Qpower Lqa Ascii SpecFloat.
From stdpp Require Import gmap strings list sorting.

(** ** JavaScript strings *)

Module Js.

Definition lowerChar (c : ascii) : ascii :=
  let n := nat_of_ascii c in
  if (65 <=? n) && (n <=? 90)
     || (192 <=? n) && (n <=? 222) && negb (n =? 215)
  then ascii_of_nat (n + 32) else c.

(** [s.toLowerCase()] *)
Fixpoint toLowerCase (s : string) : string :=
  match s with
  | EmptyString => EmptyString
  | String c r => String (lowerChar c) (toLowerCase r)
  end.

(** White space and line terminators below code unit 256. *)
Definition isWhiteSpace (c : ascii) : bool :=
  let n := nat_of_ascii c in
  (9 <=? n) && (n <=? 13) || (n =? 32) || (n =? 160).

Fixpoint trimStart (s : string) : string :=
  match s with
  | EmptyString => EmptyString
  | String c r => if isWhiteSpace c then trimStart r else s
  end.

Fixpoint trimEnd (s : string) : string :=
  match s with
  | EmptyString => EmptyString
  | String c r =>
      match trimEnd r with
      | EmptyString => if isWhiteSpace c then EmptyString else String c EmptyString
      | r' => String c r'
      end
  end.

(** [s.trim()] *)
Definition trim (s : string) : string := trimEnd (trimStart s).

Fixpoint take (n : nat) (s : string) : string :=
  match n, s with
  | S n', String c r => String c (take n' r)
  | _, _ => EmptyString
  end.

Fixpoint drop (n : nat) (s : string) : string :=
  match n, s with
  | S n', String _ r => drop n' r
  | _, _ => s
  end.

(** The clamping of a relative index done by [slice]: a negative index
    counts from the end. *)
Definition clampIndex (len : nat) (i : Z) : nat :=
  Z.to_nat (if (i <? 0)%Z then Z.max (Z.of_nat len + i) 0
            else Z.min i (Z.of_nat len)).

(** [s.slice(start, end)] *)
Definition slice (start stop : Z) (s : string) : string :=
  let from := clampIndex (String.length s) start in
  let to := clampIndex (String.length s) stop in
  take (to - from) (drop from s).

(** [s.slice(start)] *)
Definition sliceFrom (start : Z) (s : string) : string :=
  drop (clampIndex (String.length s) start) s.

(** [s.startsWith(q)] *)
Definition startsWith (s q : string) : bool :=
  String.eqb (take (String.length q) s) q.

(** [s.endsWith(q)] *)
Definition endsWith (s q : string) : bool :=
  (String.length q <=? String.length s)
  && String.eqb (drop (String.length s - String.length q) s) q.

(** Truthiness of a string: only the empty string is falsy. *)
Definition truthy (s : string) : bool :=
  match s with EmptyString => false | _ => true end.

End Js.

(** ** The affix index ([wordIndices]) *)

(** [if (!m.has(k)) m.set(k, []); m.get(k).push(w)] *)
Definition ensureBucket (k : string) (m : gmap string (list string))
  : gmap string (list string) :=
  if bool_decide (is_Some (m !! k)) then m else <[k := []]> m.

Definition pushWord (k w : string) (m : gmap string (list string))
  : gmap string (list string) :=
  alter (λ bucket, bucket ++ [w]) k (ensureBucket k m).

(** The values taken by [len] in
    [for (let len = 2; len <= Math.min(8, n); len++)]. *)
Definition affixLengths (n : nat) : list nat := seq 2 (Nat.min 8 n - 1).

Definition ending (lowerWord : string) (len : nat) : string :=
  Js.sliceFrom (- Z.of_nat len) lowerWord.

Definition start (lowerWord : string) (len : nat) : string :=
  Js.slice 0 (Z.of_nat len) lowerWord.

Record WordIndices := {
  endsMap : gmap string (list string);
  startsMap : gmap string (list string)
}.

(** The body of [currentDictionary.forEach(word => ...)]. *)
Definition indexWord (idx : WordIndices) (word : string) : WordIndices :=
  let lowerWord := Js.toLowerCase word in
  let lens := affixLengths (String.length lowerWord) in
  {| endsMap :=
       foldl (λ m len, pushWord (ending lowerWord len) word m) (endsMap idx) lens;
     startsMap :=
       foldl (λ m len, pushWord (start lowerWord len) word m) (startsMap idx) lens |}.

Definition emptyIndices : WordIndices := {| endsMap := ∅; startsMap := ∅ |}.

(** [wordIndices]; [None] is a dictionary that is not loaded yet. *)
Definition wordIndices (currentDictionary : option (list string)) : WordIndices :=
  match currentDictionary with
  | None => emptyIndices
  | Some words => foldl indexWord emptyIndices words
  end.

(** The keys under which a word is filed in one of the two maps; [keyOf]
    is [ending] or [start]. *)
Definition keysOf (keyOf : string → nat → string) (word : string) : list string :=
  keyOf (Js.toLowerCase word)
    <$> affixLengths (String.length (Js.toLowerCase word)).

(** [m.get(k) || []] *)
Definition getOrEmpty (m : gmap string (list string)) (k : string) : list string :=
  default [] (m !! k).

(** ** The pattern aggregation ([patternsData]) *)

Module PatternRecord.
Record t := {
  pattern : string;
  length : Z;
  endsWords : list string;
  endsCount : nat;
  startsWords : list string;
  startsCount : nat;
  totalCount : nat
}.
End PatternRecord.

(** A [Map] in insertion order: [set] on a key that is present replaces
    the value and keeps the position of the key. *)
Definition mapSet {V} (k : string) (v : V) (m : list (string * V))
  : list (string * V) :=
  if bool_decide (k ∈ m.*1)
  then (λ kv, if bool_decide (kv.1 = k) then (k, v) else kv) <$> m
  else m ++ [(k, v)].

(** [Array.from(m.values())] *)
Definition mapValues {V} (m : list (string * V)) : list V := m.*2.

(** The body of [Object.entries(prefixCounts).forEach(([pattern, data]) => ...)];
    the second component of an entry is [data.length]. *)
Definition groupPattern (idx : WordIndices)
    (patternGroups : list (string * PatternRecord.t)) (entry : string * Z)
  : list (string * PatternRecord.t) :=
  let lowerPattern := Js.toLowerCase entry.1 in
  let wordsEndingWith := getOrEmpty (endsMap idx) lowerPattern in
  let wordsStartingWith := getOrEmpty (startsMap idx) lowerPattern in
  if (2 <=? length wordsEndingWith) || (2 <=? length wordsStartingWith)
  then mapSet lowerPattern
         {| PatternRecord.pattern := lowerPattern;
            PatternRecord.length := entry.2;
            PatternRecord.endsWords := wordsEndingWith;
            PatternRecord.endsCount := length wordsEndingWith;
            PatternRecord.startsWords := wordsStartingWith;
            PatternRecord.startsCount := length wordsStartingWith;
            PatternRecord.totalCount :=
              length wordsEndingWith + length wordsStartingWith |}
         patternGroups
  else patternGroups.

(** [Array.prototype.sort] with a comparator: the sort is stable, and for
    a consistent comparator its result is the one of a stable insertion
    sort. *)
Fixpoint sortInsert {A} (compareFn : A → A → Z) (x : A) (l : list A) : list A :=
  match l with
  | [] => [x]
  | y :: l' =>
      if (compareFn x y <=? 0)%Z then x :: l else y :: sortInsert compareFn x l'
  end.

Definition sort {A} (compareFn : A → A → Z) (l : list A) : list A :=
  foldr (sortInsert compareFn) [] l.

(** [(a, b) => a.totalCount - b.totalCount] *)
Definition byTotalCount (a b : PatternRecord.t) : Z :=
  Z.of_nat (PatternRecord.totalCount a) - Z.of_nat (PatternRecord.totalCount b).

(** The groups before sorting. *)
Definition patternGroups (idx : WordIndices) (entries : list (string * Z))
  : list (string * PatternRecord.t) :=
  foldl (groupPattern idx) [] entries.

(** [patternsData]; [prefixCounts] is given by its [Object.entries]. *)
Definition patternsData (currentDictionary : option (list string))
    (prefixCounts : option (list (string * Z))) : list PatternRecord.t :=
  match currentDictionary, prefixCounts with
  | Some _, Some entries =>
      sort byTotalCount
        (mapValues (patternGroups (wordIndices currentDictionary) entries))
  | _, _ => []
  end.

(** ** The rarity classes ([getRarityClass]) *)

Inductive RarityClass :=
  | UltraRare | Rare | Uncommon | Common | VeryCommon.

Definition getRarityClass (count : Z) : RarityClass :=
  if (count <=? 5)%Z then UltraRare
  else if (count <=? 10)%Z then Rare
  else if (count <=? 50)%Z then Uncommon
  else if (count <=? 200)%Z then Common
  else VeryCommon.

(** ** The drill set ([rarePatterns]) *)

Inductive PatternType := Ends | Starts.

Global Instance PatternType_eq_dec : EqDecision PatternType.
Proof. solve_decision. Defined.

(** The values of [patternTypeFilter]: ['all'], ['ends'], ['starts']. *)
Inductive TypeFilter := AllTypes | OnlyType (t : PatternType).

Module DrillablePattern.
Record t := {
  pattern : string;
  type : PatternType;
  length : Z;
  words : list string;
  count : nat
}.
End DrillablePattern.

(** The body of [patternsData.forEach(p => ...)]. *)
Definition splitPattern (patterns : list DrillablePattern.t) (p : PatternRecord.t)
  : list DrillablePattern.t :=
  let patterns1 :=
    if (2 <=? PatternRecord.endsCount p) && (PatternRecord.endsCount p <=? 15)
       && (3 <=? PatternRecord.length p)%Z
    then patterns ++
         [{| DrillablePattern.pattern := PatternRecord.pattern p;
             DrillablePattern.type := Ends;
             DrillablePattern.length := PatternRecord.length p;
             DrillablePattern.words := PatternRecord.endsWords p;
             DrillablePattern.count := PatternRecord.endsCount p |}]
    else patterns in
  if (2 <=? PatternRecord.startsCount p) && (PatternRecord.startsCount p <=? 15)
     && (3 <=? PatternRecord.length p)%Z
  then patterns1 ++
       [{| DrillablePattern.pattern := PatternRecord.pattern p;
           DrillablePattern.type := Starts;
           DrillablePattern.length := PatternRecord.length p;
           DrillablePattern.words := PatternRecord.startsWords p;
           DrillablePattern.count := PatternRecord.startsCount p |}]
  else patterns1.

(** The predicate of the filter by [customPatternInput]. *)
Definition matchesQuery (query : string) (p : DrillablePattern.t) : bool :=
  match DrillablePattern.type p with
  | Ends => Js.endsWith (DrillablePattern.pattern p) query
  | Starts => Js.startsWith (DrillablePattern.pattern p) query
  end.

Definition rarePatterns (patternsData : list PatternRecord.t)
    (customPatternInput : string) (patternTypeFilter : TypeFilter)
  : list DrillablePattern.t :=
  let patterns := foldl splitPattern [] patternsData in
  let patterns :=
    match patternTypeFilter with
    | AllTypes => patterns
    | OnlyType t =>
        filter (λ p, DrillablePattern.type p = t) patterns
    end in
  if Js.truthy (Js.trim customPatternInput)
  then
    let query := Js.trim (Js.toLowerCase customPatternInput) in
    filter (λ p, matchesQuery query p = true) patterns
  else patterns.

(** ** The learn-mode state and its handlers *)

Inductive LearnMode := Find | Repeat.

(** The [useState] cells read or written by the learn-mode handlers. *)
Record AppState := {
  learnMode : LearnMode;
  selectedPatterns : list string;
  customPatternInput : string;
  patternTypeFilter : TypeFilter;
  isStudying : bool;
  currentChallengeIndex : nat;
  userAnswer : string;
  showAnswer : bool;
  correctAnswers : nat;
  totalAttempts : nat;
  foundWords : gset string;
  attemptedWords : gset string;
  currentWordIndex : nat;
  repeatCount : nat;
  hideWord : bool
}.

(** The setters: [setX v] is the call [setX(v)]. *)
Definition setLearnMode (v : LearnMode) (s : AppState) : AppState :=
  {| learnMode := v;
     selectedPatterns := selectedPatterns s;
     customPatternInput := customPatternInput s;
     patternTypeFilter := patternTypeFilter s;
     isStudying := isStudying s;
     currentChallengeIndex := currentChallengeIndex s;
     userAnswer := userAnswer s;
     showAnswer := showAnswer s;
     correctAnswers := correctAnswers s;
     totalAttempts := totalAttempts s;
     foundWords := foundWords s;
     attemptedWords := attemptedWords s;
     currentWordIndex := currentWordIndex s;
     repeatCount := repeatCount s;
     hideWord := hideWord s |}.

Definition setSelectedPatterns (v : list string) (s : AppState) : AppState :=
  {| learnMode := learnMode s;
     selectedPatterns := v;
     customPatternInput := customPatternInput s;
     patternTypeFilter := patternTypeFilter s;
     isStudying := isStudying s;
     currentChallengeIndex := currentChallengeIndex s;
     userAnswer := userAnswer s;
     showAnswer := showAnswer s;
     correctAnswers := correctAnswers s;
     totalAttempts := totalAttempts s;
     foundWords := foundWords s;
     attemptedWords := attemptedWords s;
     currentWordIndex := currentWordIndex s;
     repeatCount := repeatCount s;
     hideWord := hideWord s |}.

Definition setIsStudying (v : bool) (s : AppState) : AppState :=
  {| learnMode := learnMode s;
     selectedPatterns := selectedPatterns s;
     customPatternInput := customPatternInput s;
     patternTypeFilter := patternTypeFilter s;
     isStudying := v;
     currentChallengeIndex := currentChallengeIndex s;
     userAnswer := userAnswer s;
     showAnswer := showAnswer s;
     correctAnswers := correctAnswers s;
     totalAttempts := totalAttempts s;
     foundWords := foundWords s;
     attemptedWords := attemptedWords s;
     currentWordIndex := currentWordIndex s;
     repeatCount := repeatCount s;
     hideWord := hideWord s |}.

Definition setCurrentChallengeIndex (v : nat) (s : AppState) : AppState :=
  {| learnMode := learnMode s;
     selectedPatterns := selectedPatterns s;
     customPatternInput := customPatternInput s;
     patternTypeFilter := patternTypeFilter s;
     isStudying := isStudying s;
     currentChallengeIndex := v;
     userAnswer := userAnswer s;
     showAnswer := showAnswer s;
     correctAnswers := correctAnswers s;
     totalAttempts := totalAttempts s;
     foundWords := foundWords s;
     attemptedWords := attemptedWords s;
     currentWordIndex := currentWordIndex s;
     repeatCount := repeatCount s;
     hideWord := hideWord s |}.

Definition setUserAnswer (v : string) (s : AppState) : AppState :=
  {| learnMode := learnMode s;
     selectedPatterns := selectedPatterns s;
     customPatternInput := customPatternInput s;
     patternTypeFilter := patternTypeFilter s;
     isStudying := isStudying s;
     currentChallengeIndex := currentChallengeIndex s;
     userAnswer := v;
     showAnswer := showAnswer s;
     correctAnswers := correctAnswers s;
     totalAttempts := totalAttempts s;
     foundWords := foundWords s;
     attemptedWords := attemptedWords s;
     currentWordIndex := currentWordIndex s;
     repeatCount := repeatCount s;
     hideWord := hideWord s |}.

Definition setShowAnswer (v : bool) (s : AppState) : AppState :=
  {| learnMode := learnMode s;
     selectedPatterns := selectedPatterns s;
     customPatternInput := customPatternInput s;
     patternTypeFilter := patternTypeFilter s;
     isStudying := isStudying s;
     currentChallengeIndex := currentChallengeIndex s;
     userAnswer := userAnswer s;
     showAnswer := v;
     correctAnswers := correctAnswers s;
     totalAttempts := totalAttempts s;
     foundWords := foundWords s;
     attemptedWords := attemptedWords s;
     currentWordIndex := currentWordIndex s;
     repeatCount := repeatCount s;
     hideWord := hideWord s |}.

Definition setCorrectAnswers (v : nat) (s : AppState) : AppState :=
  {| learnMode := learnMode s;
     selectedPatterns := selectedPatterns s;
     customPatternInput := customPatternInput s;
     patternTypeFilter := patternTypeFilter s;
     isStudying := isStudying s;
     currentChallengeIndex := currentChallengeIndex s;
     userAnswer := userAnswer s;
     showAnswer := showAnswer s;
     correctAnswers := v;
     totalAttempts := totalAttempts s;
     foundWords := foundWords s;
     attemptedWords := attemptedWords s;
     currentWordIndex := currentWordIndex s;
     repeatCount := repeatCount s;
     hideWord := hideWord s |}.

Definition setTotalAttempts (v : nat) (s : AppState) : AppState :=
  {| learnMode := learnMode s;
     selectedPatterns := selectedPatterns s;
     customPatternInput := customPatternInput s;
     patternTypeFilter := patternTypeFilter s;
     isStudying := isStudying s;
     currentChallengeIndex := currentChallengeIndex s;
     userAnswer := userAnswer s;
     showAnswer := showAnswer s;
     correctAnswers := correctAnswers s;
     totalAttempts := v;
     foundWords := foundWords s;
     attemptedWords := attemptedWords s;
     currentWordIndex := currentWordIndex s;
     repeatCount := repeatCount s;
     hideWord := hideWord s |}.

Definition setFoundWords (v : gset string) (s : AppState) : AppState :=
  {| learnMode := learnMode s;
     selectedPatterns := selectedPatterns s;
     customPatternInput := customPatternInput s;
     patternTypeFilter := patternTypeFilter s;
     isStudying := isStudying s;
     currentChallengeIndex := currentChallengeIndex s;
     userAnswer := userAnswer s;
     showAnswer := showAnswer s;
     correctAnswers := correctAnswers s;
     totalAttempts := totalAttempts s;
     foundWords := v;
     attemptedWords := attemptedWords s;
     currentWordIndex := currentWordIndex s;
     repeatCount := repeatCount s;
     hideWord := hideWord s |}.

Definition setAttemptedWords (v : gset string) (s : AppState) : AppState :=
  {| learnMode := learnMode s;
     selectedPatterns := selectedPatterns s;
     customPatternInput := customPatternInput s;
     patternTypeFilter := patternTypeFilter s;
     isStudying := isStudying s;
     currentChallengeIndex := currentChallengeIndex s;
     userAnswer := userAnswer s;
     showAnswer := showAnswer s;
     correctAnswers := correctAnswers s;
     totalAttempts := totalAttempts s;
     foundWords := foundWords s;
     attemptedWords := v;
     currentWordIndex := currentWordIndex s;
     repeatCount := repeatCount s;
     hideWord := hideWord s |}.

Definition setCurrentWordIndex (v : nat) (s : AppState) : AppState :=
  {| learnMode := learnMode s;
     selectedPatterns := selectedPatterns s;
     customPatternInput := customPatternInput s;
     patternTypeFilter := patternTypeFilter s;
     isStudying := isStudying s;
     currentChallengeIndex := currentChallengeIndex s;
     userAnswer := userAnswer s;
     showAnswer := showAnswer s;
     correctAnswers := correctAnswers s;
     totalAttempts := totalAttempts s;
     foundWords := foundWords s;
     attemptedWords := attemptedWords s;
     currentWordIndex := v;
     repeatCount := repeatCount s;
     hideWord := hideWord s |}.

Definition setRepeatCount (v : nat) (s : AppState) : AppState :=
  {| learnMode := learnMode s;
     selectedPatterns := selectedPatterns s;
     customPatternInput := customPatternInput s;
     patternTypeFilter := patternTypeFilter s;
     isStudying := isStudying s;
     currentChallengeIndex := currentChallengeIndex s;
     userAnswer := userAnswer s;
     showAnswer := showAnswer s;
     correctAnswers := correctAnswers s;
     totalAttempts := totalAttempts s;
     foundWords := foundWords s;
     attemptedWords := attemptedWords s;
     currentWordIndex := currentWordIndex s;
     repeatCount := v;
     hideWord := hideWord s |}.

Definition setHideWord (v : bool) (s : AppState) : AppState :=
  {| learnMode := learnMode s;
     selectedPatterns := selectedPatterns s;
     customPatternInput := customPatternInput s;
     patternTypeFilter := patternTypeFilter s;
     isStudying := isStudying s;
     currentChallengeIndex := currentChallengeIndex s;
     userAnswer := userAnswer s;
     showAnswer := showAnswer s;
     correctAnswers := correctAnswers s;
     totalAttempts := totalAttempts s;
     foundWords := foundWords s;
     attemptedWords := attemptedWords s;
     currentWordIndex := currentWordIndex s;
     repeatCount := repeatCount s;
     hideWord := v |}.

(** The functional form [setX(prev => f(prev))] of a setter. *)
Definition functional {V} (get : AppState → V) (set : V → AppState → AppState)
    (f : V → V) : AppState → AppState :=
  λ st, set (f (get st)) st.

(** The setters called by one run of a handler, applied in call order. *)
Definition batch (s : AppState) (calls : list (AppState → AppState)) : AppState :=
  foldl (λ st call, call st) s calls.

Definition typeName (t : PatternType) : string :=
  match t with Ends => "ends" | Starts => "starts" end.

(** [`${p.pattern}_${p.type}`] *)
Definition patternKey (p : DrillablePattern.t) : string :=
  DrillablePattern.pattern p +:+ "_" +:+ typeName (DrillablePattern.type p).

(** What a handler does: it returns, or it throws the [TypeError] of a
    method call on [undefined] (before any setter was called). *)
Inductive Outcome :=
  | Returns (s : AppState)
  | Throws.

Section Handlers.

Variable patternsData : list PatternRecord.t.

Definition currentChallenge (s : AppState) : option DrillablePattern.t :=
  if negb (isStudying s) || (length (selectedPatterns s) =? 0) then None
  else
    match selectedPatterns s
            !! (currentChallengeIndex s mod length (selectedPatterns s)) with
    | Some key =>
        List.find (λ p, bool_decide (patternKey p = key))
          (rarePatterns patternsData (customPatternInput s) (patternTypeFilter s))
    | None => None
    end.

(** [startStudy(mode)]: the new state and the text of the [alert], if any. *)
Definition startStudy (mode : LearnMode) (s : AppState) : AppState * option string :=
  if length (selectedPatterns s) =? 0
  then (s, Some "Please select at least one pattern to study!")
  else
    (batch s
       [ setLearnMode mode; setIsStudying true; setCurrentChallengeIndex 0;
         setCorrectAnswers 0; setTotalAttempts 0; setShowAnswer false;
         setUserAnswer ""; setFoundWords ∅; setAttemptedWords ∅;
         setCurrentWordIndex 0; setRepeatCount 0; setHideWord false ],
     None).

(** The word built from the typed fragment in [checkAnswer]. *)
Definition fullWordOf (challenge : DrillablePattern.t) (userAnswer : string) : string :=
  let userInput := Js.trim (Js.toLowerCase userAnswer) in
  let pattern := Js.toLowerCase (DrillablePattern.pattern challenge) in
  match DrillablePattern.type challenge with
  | Ends => userInput +:+ pattern
  | Starts => pattern +:+ userInput
  end.

Definition checkAnswer (s : AppState) : AppState :=
  match currentChallenge s with
  | None => s
  | Some challenge =>
      if negb (Js.truthy (Js.trim (userAnswer s))) then s
      else
        let fullWord := fullWordOf challenge (userAnswer s) in
        if bool_decide (fullWord ∈ attemptedWords s)
        then batch s [ setUserAnswer "" ]
        else
          let matchedWord :=
            List.find (λ dictWord, String.eqb (Js.toLowerCase dictWord) fullWord)
              (DrillablePattern.words challenge) in
          batch s
            ([ functional attemptedWords setAttemptedWords (λ prev, prev ∪ {[fullWord]}) ]
             ++ (if from_option Js.truthy false matchedWord
                    && negb (bool_decide (fullWord ∈ foundWords s))
                 then [ functional foundWords setFoundWords (λ prev, prev ∪ {[fullWord]});
                        functional correctAnswers setCorrectAnswers (λ prev, prev + 1) ]
                 else [])
             ++ [ functional totalAttempts setTotalAttempts (λ prev, prev + 1);
                  setUserAnswer "" ])
  end.

Definition showAllWords (s : AppState) : AppState :=
  batch s
    ([ setShowAnswer true ]
     ++ (if size (foundWords s) =? 0
         then [ functional totalAttempts setTotalAttempts (λ prev, prev + 1) ]
         else [])).

Definition checkRepeatWord (s : AppState) : Outcome :=
  match currentChallenge s with
  | None => Returns s
  | Some challenge =>
      if negb (Js.truthy (Js.trim (userAnswer s))) then Returns s
      else
        match DrillablePattern.words challenge !! currentWordIndex s with
        | None => Throws
        | Some currentWord =>
            let userWord := Js.toLowerCase (Js.trim (userAnswer s)) in
            let correctWord := Js.toLowerCase currentWord in
            Returns
              (batch s
                 ((if String.eqb userWord correctWord
                   then
                     if hideWord s
                     then [ functional currentWordIndex setCurrentWordIndex (λ prev, prev + 1);
                            setRepeatCount 0; setHideWord false;
                            functional correctAnswers setCorrectAnswers (λ prev, prev + 1) ]
                     else
                       let newRepeatCount := repeatCount s + 1 in
                       [ setRepeatCount newRepeatCount ]
                       ++ (if 3 <=? newRepeatCount
                           then [ setHideWord true; setRepeatCount 0 ]
                           else [])
                   else [])
                  ++ [ functional totalAttempts setTotalAttempts (λ prev, prev + 1);
                       setUserAnswer "" ]))
        end
  end.

Definition skipRepeatWord (s : AppState) : AppState :=
  batch s
    [ functional currentWordIndex setCurrentWordIndex (λ prev, prev + 1);
      setRepeatCount 0; setHideWord false; setUserAnswer "" ].

Definition nextChallenge (s : AppState) : AppState :=
  batch s
    [ functional currentChallengeIndex setCurrentChallengeIndex (λ prev, prev + 1);
      setUserAnswer ""; setShowAnswer false; setFoundWords ∅;
      setAttemptedWords ∅; setCurrentWordIndex 0; setRepeatCount 0;
      setHideWord false ].

Definition resetStudy (s : AppState) : AppState :=
  batch s
    [ setIsStudying false; setSelectedPatterns []; setCurrentChallengeIndex 0;
      setCorrectAnswers 0; setTotalAttempts 0; setShowAnswer false;
      setUserAnswer ""; setFoundWords ∅; setAttemptedWords ∅;
      setCurrentWordIndex 0; setRepeatCount 0; setHideWord false;
      setLearnMode Find ].

(** The session operations: the handlers above and the typing of a value
    into the answer field ([onChange]). *)
Inductive Operation :=
  | OpStart (mode : LearnMode)
  | OpType (value : string)
  | OpSubmitGuess
  | OpReveal
  | OpSubmitRepeat
  | OpSkip
  | OpAdvance
  | OpReset.

(** The state after an operation; a handler that throws leaves the state
    as it was. *)
Definition perform (op : Operation) (s : AppState) : AppState :=
  match op with
  | OpStart mode => (startStudy mode s).1
  | OpType value => setUserAnswer value s
  | OpSubmitGuess => checkAnswer s
  | OpReveal => showAllWords s
  | OpSubmitRepeat =>
      match checkRepeatWord s with Returns s' => s' | Throws => s end
  | OpSkip => skipRepeatWord s
  | OpAdvance => nextChallenge s
  | OpReset => resetStudy s
  end.

End Handlers.

(** The initial values of the [useState] cells. *)
Definition initialState : AppState :=
  {| learnMode := Find; selectedPatterns := []; customPatternInput := "";
     patternTypeFilter := AllTypes; isStudying := false;
     currentChallengeIndex := 0; userAnswer := ""; showAnswer := false;
     correctAnswers := 0; totalAttempts := 0; foundWords := ∅;
     attemptedWords := ∅; currentWordIndex := 0; repeatCount := 0;
     hideWord := false |}.

(** A submission: the value is typed into the answer field, then the
    handler of the mode runs. *)
Definition submitGuess (patternsData : list PatternRecord.t) (raw : string)
    (s : AppState) : AppState :=
  checkAnswer patternsData (setUserAnswer raw s).

Definition submitRepeat (patternsData : list PatternRecord.t) (raw : string)
    (s : AppState) : Outcome :=
  checkRepeatWord patternsData (setUserAnswer raw s).

(** The guard [userAnswer.trim()] of the two submit handlers. *)
Definition nonBlank (raw : string) : Prop := Js.truthy (Js.trim raw) = true.

(** The scoring invariant. *)
Definition scoringInvariant (s : AppState) : Prop :=
  correctAnswers s ≤ totalAttempts s ∧ foundWords s ⊆ attemptedWords s.

(** The Numbers of the score line.  A JavaScript Number is a binary64
    floating-point number of IEEE 754: a [spec_float] with 53 bits of
    precision and exponents below 1024, on which [/] and [*] round to
    nearest, ties to even. *)
Module Number.

Definition prec : Z := 53.
Definition emax : Z := 1024.

(** The Number of an integer. *)
Definition ofZ (n : Z) : spec_float := binary_normalize prec emax n 0 false.

(** [x / y] *)
Definition div : spec_float → spec_float → spec_float := SFdiv prec emax.

(** [x * y] *)
Definition mul : spec_float → spec_float → spec_float := SFmul prec emax.

(** The rational that a finite Number stands for. *)
Definition value (s : bool) (m : positive) (e : Z) : Q :=
  (inject_Z (cond_Zopp s (Zpos m)) * Qpower 2 e)%Q.

(** [Math.round(x)]: the integer nearest to [x], the larger one of two
    that are equally near; NaN and the infinities, which [Math.round]
    returns as they are, give [None]. *)
Definition round (x : spec_float) : option Z :=
  match x with
  | S754_zero _ => Some 0%Z
  | S754_finite s m e => Some (Qfloor (value s m e + (1 # 2)))
  | S754_infinity _ | S754_nan => None
  end.

End Number.

(** The percentage of the score line,
    [totalAttempts > 0 ? Math.round((correctAnswers / totalAttempts) * 100) : 0];
    [None] if it is not a number. *)
Definition scorePercent (s : AppState) : option Z :=
  if 0 <? totalAttempts s
  then Number.round
         (Number.mul
            (Number.div (Number.ofZ (Z.of_nat (correctAnswers s)))
               (Number.ofZ (Z.of_nat (totalAttempts s))))
            (Number.ofZ 100))
  else Some 0%Z.

(** A significand that was shifted to the right, with its round bit and
    its sticky bit, stands for the quotient [N / D]: the significand is
    the integer part, the round bit tells whether the rest is at least
    one half, the sticky bit whether anything is left beyond that. *)
Definition located (mrs : shr_record) (N D : Z) : Prop :=
  (0 ≤ shr_m mrs
   ∧ 0 ≤ 2 * N - (2 * shr_m mrs + (if shr_r mrs then 1 else 0)) * D < D
   ∧ (shr_s mrs = false
      ↔ 2 * N - (2 * shr_m mrs + (if shr_r mrs then 1 else 0)) * D = 0))%Z.

(** A typed value is correct for a word when it equals the word after
    trimming, letter case aside. *)
Definition correctFor (raw word : string) : Prop :=
  Js.toLowerCase (Js.trim raw) = Js.toLowerCase word.

(** Several submissions in a row; the first handler that throws ends the run. *)
Fixpoint submitRepeatAll (patternsData : list PatternRecord.t)
    (raws : list string) (s : AppState) : Outcome :=
  match raws with
  | [] => Returns s
  | raw :: rest =>
      match submitRepeat patternsData raw s with
      | Returns s' => submitRepeatAll patternsData rest s'
      | Throws => Throws
      end
  end.

(** Several guesses in a row. *)
Definition submitGuessAll (patternsData : list PatternRecord.t)
    (raws : list string) (s : AppState) : AppState :=
  foldl (λ st raw, submitGuess patternsData raw st) s raws.

(** A sample: the word list and the pattern of the specification's
    example, and a session on the words ending with the pattern. *)
Definition sampleDictionary : list string :=
  ["running"; "Jumping"; "swimming"; "walking"].

Definition samplePrefixCounts : list (string * Z) := [("ing", 3%Z)].

Definition samplePatterns : list PatternRecord.t :=
  patternsData (Some sampleDictionary) (Some samplePrefixCounts).

Definition sampleSession (mode : LearnMode) : AppState :=
  (startStudy mode (setSelectedPatterns ["ing_ends"] initialState)).1.

Definition sampleChallenge : DrillablePattern.t :=
  {| DrillablePattern.pattern := "ing";
     DrillablePattern.type := Ends;
     DrillablePattern.length := 3;
     DrillablePattern.words := sampleDictionary;
     DrillablePattern.count := 4 |}.

(** The sample session in repeat mode, after its last word. *)
Definition sampleSessionAtEnd : AppState :=
  setCurrentWordIndex 4 (sampleSession Repeat).

(** The drill set as the specification words it: per record, an ENDS
    entry then a STARTS entry, each under its count and length bounds, the
    side filter and the affix query. *)
Definition affixQuery (customPatternInput : string) : option string :=
  if Js.truthy (Js.trim customPatternInput)
  then Some (Js.trim (Js.toLowerCase customPatternInput))
  else None.

Definition withinDrillBounds (count : nat) (len : Z) : bool :=
  (2 <=? count) && (count <=? 15) && (3 <=? len)%Z.

Definition sideAllowed (sideFilter : TypeFilter) (side : PatternType) : bool :=
  match sideFilter with
  | AllTypes => true
  | OnlyType t => bool_decide (side = t)
  end.

Definition endsEntry (p : PatternRecord.t) : DrillablePattern.t :=
  {| DrillablePattern.pattern := PatternRecord.pattern p;
     DrillablePattern.type := Ends;
     DrillablePattern.length := PatternRecord.length p;
     DrillablePattern.words := PatternRecord.endsWords p;
     DrillablePattern.count := PatternRecord.endsCount p |}.

Definition startsEntry (p : PatternRecord.t) : DrillablePattern.t :=
  {| DrillablePattern.pattern := PatternRecord.pattern p;
     DrillablePattern.type := Starts;
     DrillablePattern.length := PatternRecord.length p;
     DrillablePattern.words := PatternRecord.startsWords p;
     DrillablePattern.count := PatternRecord.startsCount p |}.

Definition drillEntries (sideFilter : TypeFilter) (query : option string)
    (p : PatternRecord.t) : list DrillablePattern.t :=
  (if withinDrillBounds (PatternRecord.endsCount p) (PatternRecord.length p)
      && sideAllowed sideFilter Ends
      && from_option (Js.endsWith (PatternRecord.pattern p)) true query
   then [endsEntry p] else [])
  ++ (if withinDrillBounds (PatternRecord.startsCount p) (PatternRecord.length p)
         && sideAllowed sideFilter Starts
         && from_option (Js.startsWith (PatternRecord.pattern p)) true query
      then [startsEntry p] else []).

Definition buildDrillSet (records : list PatternRecord.t)
    (sideFilter : TypeFilter) (query : option string) : list DrillablePattern.t :=
  flat_map (drillEntries sideFilter query) records.

(** The list without its repetitions, each element at its first place. *)
Fixpoint firstOccurrences (l : list string) : list string :=
  match l with
  | [] => []
  | x :: l' => x :: filter (λ y, y ≠ x) (firstOccurrences l')
  end.

(** The retention test of [groupPattern], and the two counts of a pattern. *)
Definition endsCountOf (idx : WordIndices) (lowerPattern : string) : nat :=
  length (getOrEmpty (endsMap idx) lowerPattern).

Definition startsCountOf (idx : WordIndices) (lowerPattern : string) : nat :=
  length (getOrEmpty (startsMap idx) lowerPattern).

Definition retained (idx : WordIndices) (lowerPattern : string) : Prop :=
  2 ≤ endsCountOf idx lowerPattern ∨ 2 ≤ startsCountOf idx lowerPattern.

Global Instance retained_dec idx lowerPattern : Decision (retained idx lowerPattern).
Proof. unfold retained. apply _. Defined.

(** The record that [groupPattern] files under a lower-case pattern. *)
Definition recordOf (idx : WordIndices) (lowerPattern : string) (len : Z)
  : PatternRecord.t :=
  {| PatternRecord.pattern := lowerPattern;
     PatternRecord.length := len;
     PatternRecord.endsWords := getOrEmpty (endsMap idx) lowerPattern;
     PatternRecord.endsCount := endsCountOf idx lowerPattern;
     PatternRecord.startsWords := getOrEmpty (startsMap idx) lowerPattern;
     PatternRecord.startsCount := startsCountOf idx lowerPattern;
     PatternRecord.totalCount :=
       endsCountOf idx lowerPattern + startsCountOf idx lowerPattern |}.

(** The lower-case patterns of the vocabulary, in iteration order. *)
Definition lowerPatterns (entries : list (string * Z)) : list string :=
  Js.toLowerCase <$> entries.*1.

(** [precedes x y l]: [x] occurs in [l] and [y] occurs after it. *)
Fixpoint precedes {A} (x y : A) (l : list A) : Prop :=
  match l with
  | [] => False
  | z :: l' => (z = x ∧ y ∈ l') ∨ precedes x y l'
  end.

(** A sample with equal counts: "bc" and "cd" have two words each, "ef"
    three; "BC" and "bc" are one pattern. *)
Definition tiesDictionary : list string :=
  ["abc"; "xbc"; "cde"; "cdf"; "efa"; "efb"; "efc"].

Definition tiesPrefixCounts : list (string * Z) :=
  [("ef", 2%Z); ("BC", 2%Z); ("cd", 2%Z); ("bc", 7%Z)].

Definition tiesRecord (lowerPattern : string) (len : Z) : PatternRecord.t :=
  recordOf (wordIndices (Some tiesDictionary)) lowerPattern len.

(** ** The selection of patterns and the learn screen *)

(** The two setters of the selection step that no handler calls. *)
Definition setCustomPatternInput (v : string) (s : AppState) : AppState :=
  {| learnMode := learnMode s;
     selectedPatterns := selectedPatterns s;
     customPatternInput := v;
     patternTypeFilter := patternTypeFilter s;
     isStudying := isStudying s;
     currentChallengeIndex := currentChallengeIndex s;
     userAnswer := userAnswer s;
     showAnswer := showAnswer s;
     correctAnswers := correctAnswers s;
     totalAttempts := totalAttempts s;
     foundWords := foundWords s;
     attemptedWords := attemptedWords s;
     currentWordIndex := currentWordIndex s;
     repeatCount := repeatCount s;
     hideWord := hideWord s |}.

Definition setPatternTypeFilter (v : TypeFilter) (s : AppState) : AppState :=
  {| learnMode := learnMode s;
     selectedPatterns := selectedPatterns s;
     customPatternInput := customPatternInput s;
     patternTypeFilter := v;
     isStudying := isStudying s;
     currentChallengeIndex := currentChallengeIndex s;
     userAnswer := userAnswer s;
     showAnswer := showAnswer s;
     correctAnswers := correctAnswers s;
     totalAttempts := totalAttempts s;
     foundWords := foundWords s;
     attemptedWords := attemptedWords s;
     currentWordIndex := currentWordIndex s;
     repeatCount := repeatCount s;
     hideWord := hideWord s |}.

(** [togglePatternSelection(patternKey)] *)
Definition togglePatternSelection (key : string) (s : AppState) : AppState :=
  functional selectedPatterns setSelectedPatterns
    (λ prev, if bool_decide (key ∈ prev)
             then filter (λ p, p ≠ key) prev
             else prev ++ [key])
    s.

(** [selectAllRare] *)
Definition selectAllRare (patternsData : list PatternRecord.t) (s : AppState)
  : AppState :=
  let allRareKeys :=
    patternKey
      <$> rarePatterns patternsData (customPatternInput s) (patternTypeFilter s) in
  setSelectedPatterns allRareKeys s.

(** What the learn screen offers.  The selection step is rendered while
    [isStudying] is false, the challenge area while it is true; a control
    that is not rendered, or that is disabled, cannot be used. *)
Inductive LearnEvent :=
  | PickTypeFilter (f : TypeFilter)
  | PickLearnMode (m : LearnMode)
  | TypePatternFilter (v : string)
  | TickPattern (key : string)
  | ClickSelectAll
  | ClickStart
  | TypeIntoAnswer (v : string)
  | PressSubmit
  | ClickSkip
  | ClickShowWords
  | ClickNext
  | ClickEnd.

(** [currentWordIndex < (currentChallenge?.words.length || 0)] *)
Definition wordPending (patternsData : list PatternRecord.t) (s : AppState) : bool :=
  currentWordIndex s
  <? from_option (λ challenge, length (DrillablePattern.words challenge)) 0
       (currentChallenge patternsData s).

(** Whether the challenge area shows the answer field with its buttons:
    in repeat mode while a word is pending, in find mode until the words
    are shown; otherwise it shows the button to the next pattern. *)
Definition answering (patternsData : list PatternRecord.t) (s : AppState) : bool :=
  match learnMode s with
  | Repeat => wordPending patternsData s
  | Find => negb (showAnswer s)
  end.

(** The state after an event of the learn screen.  The check boxes are
    those of the entries of [rarePatterns]; any key is allowed here. *)
Definition learnStep (patternsData : list PatternRecord.t) (ev : LearnEvent)
    (s : AppState) : AppState :=
  if isStudying s
  then
    match ev with
    | TypeIntoAnswer v => if answering patternsData s then setUserAnswer v s else s
    | PressSubmit =>
        if answering patternsData s
        then
          match learnMode s with
          | Repeat => perform patternsData OpSubmitRepeat s
          | Find => checkAnswer patternsData s
          end
        else s
    | ClickSkip =>
        match learnMode s with
        | Repeat => if wordPending patternsData s then skipRepeatWord s else s
        | Find => s
        end
    | ClickShowWords =>
        match learnMode s with
        | Find => if showAnswer s then s else showAllWords s
        | Repeat => s
        end
    | ClickNext => if answering patternsData s then s else nextChallenge s
    | ClickEnd => resetStudy s
    | _ => s
    end
  else
    match ev with
    | PickTypeFilter f => setPatternTypeFilter f s
    | PickLearnMode m => setLearnMode m s
    | TypePatternFilter v => setCustomPatternInput v s
    | TickPattern key => togglePatternSelection key s
    | ClickSelectAll => selectAllRare patternsData s
    | ClickStart =>
        if length (selectedPatterns s) =? 0 then s
        else (startStudy (learnMode s) s).1
    | _ => s
    end.

(** The states the learn screen can reach. *)
Definition learnRun (patternsData : list PatternRecord.t) (events : list LearnEvent)
  : AppState :=
  foldl (λ s ev, learnStep patternsData ev s) initialState events.

(** ** The explore mode *)

Global Instance RarityClass_eq_dec : EqDecision RarityClass.
Proof. solve_decision. Defined.

(** The values of [lengthFilter]: ['all'], or a numeral, given by its
    [parseInt] (the [select] offers ['2'], ['3'] and ['4']). *)
Inductive LengthFilter := AllLengths | Letters (n : Z).

Global Instance LengthFilter_eq_dec : EqDecision LengthFilter.
Proof. solve_decision. Defined.

(** [filteredPatterns]; the rarity filter is ['all'] ([None]) or the name
    of a class. *)
Definition filteredPatterns (patternsData : list PatternRecord.t)
    (searchQuery : string) (lengthFilter : LengthFilter)
    (rarityFilter : option RarityClass) : list PatternRecord.t :=
  let filtered := patternsData in
  let filtered :=
    if Js.truthy (Js.trim searchQuery)
    then
      let query := Js.toLowerCase searchQuery in
      filter (λ p, Js.endsWith (PatternRecord.pattern p) query
                   || Js.startsWith (PatternRecord.pattern p) query = true)
        filtered
    else filtered in
  let filtered :=
    match lengthFilter with
    | AllLengths => filtered
    | Letters n => filter (λ p, PatternRecord.length p = n) filtered
    end in
  match rarityFilter with
  | None => filtered
  | Some class =>
      filter (λ p, getRarityClass (Z.of_nat (PatternRecord.totalCount p)) = class)
        filtered
  end.

Definition itemsPerPage : Z := 100.

(** [a.slice(start, end)] on an array. *)
Definition arraySlice {A} (start stop : Z) (a : list A) : list A :=
  let from := Js.clampIndex (length a) start in
  let to := Js.clampIndex (length a) stop in
  take (to - from) (drop from a).

(** [paginatedPatterns] *)
Definition paginatedPatterns (filtered : list PatternRecord.t) (currentPage : Z)
  : list PatternRecord.t :=
  let startIdx := ((currentPage - 1) * itemsPerPage)%Z in
  let endIdx := (startIdx + itemsPerPage)%Z in
  arraySlice startIdx endIdx filtered.

(** [totalPages]: [Math.ceil(filteredPatterns.length / itemsPerPage)], with
    an exact rational in place of the double. *)
Definition totalPages (filtered : list PatternRecord.t) : Z :=
  Qceiling (inject_Z (Z.of_nat (length filtered)) / inject_Z itemsPerPage)%Q.

(** The two numbers of the line "Showing a-b of n patterns". *)
Definition showingFirst (currentPage : Z) : Z :=
  ((currentPage - 1) * itemsPerPage + 1)%Z.

Definition showingLast (filtered : list PatternRecord.t) (currentPage : Z) : Z :=
  Z.min (currentPage * itemsPerPage) (Z.of_nat (length filtered)).

(** The [useState] cells of the explore mode. *)
Record ExploreState := {
  searchQuery : string;
  lengthFilter : LengthFilter;
  rarityFilter : option RarityClass;
  expandedPattern : option string;
  currentPage : Z
}.

Definition initialExplore : ExploreState :=
  {| searchQuery := ""; lengthFilter := AllLengths; rarityFilter := None;
     expandedPattern := None; currentPage := 1 |}.

(** [toggleExpand(pattern)] *)
Definition toggleExpand (pattern : string) (s : ExploreState) : ExploreState :=
  {| searchQuery := searchQuery s; lengthFilter := lengthFilter s;
     rarityFilter := rarityFilter s;
     expandedPattern :=
       if bool_decide (expandedPattern s = Some pattern) then None
       else Some pattern;
     currentPage := currentPage s |}.

(** [handlePageChange(direction)] *)
Definition handlePageChange (direction : Z) (s : ExploreState) : ExploreState :=
  {| searchQuery := searchQuery s; lengthFilter := lengthFilter s;
     rarityFilter := rarityFilter s; expandedPattern := expandedPattern s;
     currentPage := (currentPage s + direction)%Z |}.

(** A change of one of the three filters, followed by the effect that
    depends on them, [setCurrentPage(1)]; a filter set to the value it has
    causes no render and no effect. *)
Definition changeFilters (query : string) (len : LengthFilter)
    (rarity : option RarityClass) (s : ExploreState) : ExploreState :=
  if bool_decide (query = searchQuery s ∧ len = lengthFilter s
                  ∧ rarity = rarityFilter s)
  then s
  else {| searchQuery := query; lengthFilter := len; rarityFilter := rarity;
          expandedPattern := expandedPattern s; currentPage := 1 |}.

(** The list shown by the explore mode in a state. *)
Definition shownPatterns (patternsData : list PatternRecord.t) (s : ExploreState)
  : list PatternRecord.t :=
  filteredPatterns patternsData (searchQuery s) (lengthFilter s) (rarityFilter s).

(** What the explore mode offers: the three filter inputs, the pattern
    headers, and the two page buttons, which are rendered when there is
    more than one page and disabled on the first, respectively the last,
    page. *)
Inductive ExploreEvent :=
  | TypeSearch (v : string)
  | PickLength (f : LengthFilter)
  | PickRarity (r : option RarityClass)
  | ClickPattern (pattern : string)
  | ClickPrevious
  | ClickFollowing.

Definition exploreStep (patternsData : list PatternRecord.t) (ev : ExploreEvent)
    (s : ExploreState) : ExploreState :=
  match ev with
  | TypeSearch v => changeFilters v (lengthFilter s) (rarityFilter s) s
  | PickLength f => changeFilters (searchQuery s) f (rarityFilter s) s
  | PickRarity r => changeFilters (searchQuery s) (lengthFilter s) r s
  | ClickPattern pattern => toggleExpand pattern s
  | ClickPrevious =>
      if (1 <? totalPages (shownPatterns patternsData s))%Z
         && negb (currentPage s =? 1)%Z
      then handlePageChange (-1) s else s
  | ClickFollowing =>
      if (1 <? totalPages (shownPatterns patternsData s))%Z
         && negb (currentPage s =? totalPages (shownPatterns patternsData s))%Z
      then handlePageChange 1 s else s
  end.

Definition exploreRun (patternsData : list PatternRecord.t)
    (events : list ExploreEvent) : ExploreState :=
  foldl (λ s ev, exploreStep patternsData ev s) initialExplore events.

(** ** Invariants of the learn screen *)

(** The fields of the two protocols never mix, and the counters of the
    repeat protocol stay in range. *)
Definition modesConsistent (s : AppState) : Prop :=
  repeatCount s ≤ 2
  ∧ (hideWord s = true → repeatCount s = 0)
  ∧ (isStudying s = false →
     correctAnswers s = 0 ∧ totalAttempts s = 0
     ∧ foundWords s = ∅ ∧ attemptedWords s = ∅
     ∧ currentWordIndex s = 0 ∧ repeatCount s = 0
     ∧ hideWord s = false ∧ showAnswer s = false)
  ∧ (learnMode s = Find →
     currentWordIndex s = 0 ∧ repeatCount s = 0 ∧ hideWord s = false)
  ∧ (learnMode s = Repeat →
     foundWords s = ∅ ∧ attemptedWords s = ∅ ∧ showAnswer s = false
     ∧ 4 * correctAnswers s + (if hideWord s then 3 else repeatCount s)
       ≤ totalAttempts s).

(** The number of words of the current challenge, 0 if there is none. *)
Definition challengeSize (patternsData : list PatternRecord.t) (s : AppState) : nat :=
  from_option (λ challenge, length (DrillablePattern.words challenge)) 0
    (currentChallenge patternsData s).

(** The book-keeping of the found and attempted words. *)
Definition foundWordsKept (patternsData : list PatternRecord.t) (s : AppState) : Prop :=
  size (foundWords s) ≤ correctAnswers s
  ∧ size (attemptedWords s) ≤ totalAttempts s
  ∧ foundWords s ⊆ attemptedWords s
  ∧ (∀ f, f ∈ foundWords s →
       ∃ challenge w,
         currentChallenge patternsData s = Some challenge
         ∧ w ∈ DrillablePattern.words challenge
         ∧ Js.toLowerCase w = f)
  ∧ currentWordIndex s ≤ challengeSize patternsData s.

(** Two sample runs of the learn screen. *)
Definition sampleRepeatRun : list LearnEvent :=
  [TickPattern "ing_ends"; PickLearnMode Repeat; ClickStart;
   TypeIntoAnswer "running"; PressSubmit;
   TypeIntoAnswer "Running "; PressSubmit;
   TypeIntoAnswer "running"; PressSubmit;
   TypeIntoAnswer "running"; PressSubmit].

Definition sampleFindRun : list LearnEvent :=
  [TickPattern "ing_ends"; ClickStart;
   TypeIntoAnswer "runn"; PressSubmit;
   TypeIntoAnswer "talk"; PressSubmit].

(** A run of the repeat mode that skips every word of the sample
    challenge. *)
Definition sampleSkipRun : list LearnEvent :=
  [TickPattern "ing_ends"; PickLearnMode Repeat; ClickStart;
   ClickSkip; ClickSkip; ClickSkip; ClickSkip].

(** Whether a string holds a white-space code unit. *)
Fixpoint hasWhiteSpace (s : string) : bool :=
  match s with
  | EmptyString => false
  | String c r => Js.isWhiteSpace c || hasWhiteSpace r
  end.

(** A sample session of the find mode, without its start and its end. *)
Definition sampleSessionEvents : list LearnEvent :=
  [TypeIntoAnswer "runn"; PressSubmit; ClickShowWords; ClickNext;
   TypeIntoAnswer "x"; PressSubmit].

(** * Properties *)

Example ending_running : ending "running" 3 = "ing".
Proof. reflexivity. Qed.

Example start_running : start "running" 3 = "run".
Proof. reflexivity. Qed.

Example ends_ing :
  getOrEmpty (endsMap (wordIndices (Some ["running"; "Jumping"; "cat"; "swimming"]))) "ing"
  = ["running"; "Jumping"; "swimming"].
Proof. vm_compute. reflexivity. Qed.

Example trim_ex : Js.trim "  a b  " = "a b".
Proof. reflexivity. Qed.

(** ** Rarity classes *)

(** C7. [getRarityClass] maps every integer count to its class by
    inclusive upper bounds: at most 5 is ultra-rare, 6 to 10 rare, 11 to
    50 uncommon, 51 to 200 common, 201 and more very-common; the eight
    boundary counts fall as listed. *)
Theorem getRarityClass_thresholds (count : Z) :
  ((count ≤ 5)%Z → getRarityClass count = UltraRare)
  ∧ ((6 ≤ count ≤ 10)%Z → getRarityClass count = Rare)
  ∧ ((11 ≤ count ≤ 50)%Z → getRarityClass count = Uncommon)
  ∧ ((51 ≤ count ≤ 200)%Z → getRarityClass count = Common)
  ∧ ((201 ≤ count)%Z → getRarityClass count = VeryCommon)
  ∧ getRarityClass 5 = UltraRare ∧ getRarityClass 6 = Rare
  ∧ getRarityClass 10 = Rare ∧ getRarityClass 11 = Uncommon
  ∧ getRarityClass 50 = Uncommon ∧ getRarityClass 51 = Common
  ∧ getRarityClass 200 = Common ∧ getRarityClass 201 = VeryCommon.
Proof.
  unfold getRarityClass.
  repeat split; try reflexivity; intros Hcount;
    repeat (case_match; try reflexivity); lia.
Qed.

Lemma getRarityClass_thresholds_witness :
  getRarityClass (-3) = UltraRare ∧ getRarityClass 7 = Rare
  ∧ getRarityClass 30 = Uncommon ∧ getRarityClass 120 = Common
  ∧ getRarityClass 1000 = VeryCommon.
Proof.
  refine (conj _ (conj _ (conj _ (conj _ _)))).
  - destruct (getRarityClass_thresholds (-3)) as [Hultra _].
    apply Hultra. lia.
  - destruct (getRarityClass_thresholds 7) as (_ & Hrare & _).
    apply Hrare. lia.
  - destruct (getRarityClass_thresholds 30) as (_ & _ & Huncommon & _).
    apply Huncommon. lia.
  - destruct (getRarityClass_thresholds 120) as (_ & _ & _ & Hcommon & _).
    apply Hcommon. lia.
  - destruct (getRarityClass_thresholds 1000) as (_ & _ & _ & _ & Hvery & _).
    apply Hvery. lia.
Defined.

(** ** Starting a session *)

(** C8. With no selected pattern [startStudy] alerts and returns: the
    state is the one before the call, so a session that was not running
    is still not running. *)
Theorem startStudy_empty_selection
    (patternsData : list PatternRecord.t) (mode : LearnMode) (s : AppState) :
  selectedPatterns s = [] →
  (startStudy mode s).1 = s
  ∧ is_Some (startStudy mode s).2
  ∧ (isStudying s = false → isStudying (startStudy mode s).1 = false)
  ∧ currentChallenge patternsData (startStudy mode s).1 = None.
Proof.
  intros Hempty. unfold startStudy. rewrite Hempty. simpl.
  repeat split; [by eexists | done |].
  unfold currentChallenge. rewrite Hempty. simpl.
  by rewrite orb_true_r.
Qed.

Lemma startStudy_empty_selection_witness :
  selectedPatterns initialState = []
  ∧ (startStudy Repeat initialState).1 = initialState.
Proof.
  split; [reflexivity |].
  apply (startStudy_empty_selection [] Repeat initialState). reflexivity.
Defined.

(** ** Repeat after me *)

Example sample_challenge :
  DrillablePattern.words <$> currentChallenge samplePatterns (sampleSession Repeat)
  = Some ["running"; "Jumping"; "swimming"; "walking"].
Proof. vm_compute. reflexivity. Qed.

Lemma currentChallenge_setUserAnswer patternsData v s :
  currentChallenge patternsData (setUserAnswer v s) = currentChallenge patternsData s.
Proof. reflexivity. Qed.

(** C9. In the repeat-after-me protocol a skip at the end of the word
    list is a silent rejection without any effect.  [skipRepeatWord] is
    called by the button "Skip Word" only, and the challenge area shows
    that button only while [currentWordIndex] is below the length of the
    word list of the challenge.  Once the index has reached the length
    the skip leaves the state as it is, and with it [currentWordIndex],
    [repeatCount], [hideWord], [correctAnswers] and [totalAttempts];
    below the length it moves to the next word, resets [repeatCount] and
    [hideWord], scores nothing, and does not pass the length. *)
Theorem skipRepeatWord_at_end
    (patternsData : list PatternRecord.t) (s : AppState)
    (challenge : DrillablePattern.t) :
  isStudying s = true → learnMode s = Repeat →
  currentChallenge patternsData s = Some challenge →
  (length (DrillablePattern.words challenge) ≤ currentWordIndex s →
   learnStep patternsData ClickSkip s = s
   ∧ currentWordIndex (learnStep patternsData ClickSkip s) = currentWordIndex s
   ∧ repeatCount (learnStep patternsData ClickSkip s) = repeatCount s
   ∧ hideWord (learnStep patternsData ClickSkip s) = hideWord s
   ∧ correctAnswers (learnStep patternsData ClickSkip s) = correctAnswers s
   ∧ totalAttempts (learnStep patternsData ClickSkip s) = totalAttempts s)
  ∧ (currentWordIndex s < length (DrillablePattern.words challenge) →
     learnStep patternsData ClickSkip s = skipRepeatWord s
     ∧ currentWordIndex (learnStep patternsData ClickSkip s)
       = currentWordIndex s + 1
     ∧ repeatCount (learnStep patternsData ClickSkip s) = 0
     ∧ hideWord (learnStep patternsData ClickSkip s) = false
     ∧ correctAnswers (learnStep patternsData ClickSkip s) = correctAnswers s
     ∧ totalAttempts (learnStep patternsData ClickSkip s) = totalAttempts s
     ∧ currentWordIndex (learnStep patternsData ClickSkip s)
       ≤ length (DrillablePattern.words challenge)).
Proof.
  intros Hstudy Hmode Hchallenge.
  unfold learnStep, wordPending. rewrite Hstudy, Hmode, Hchallenge.
  cbn [from_option].
  split; intros Hindex.
  - rewrite (proj2 (Nat.ltb_ge _ _) Hindex). done.
  - rewrite (proj2 (Nat.ltb_lt _ _) Hindex).
    repeat split; try reflexivity. simpl. lia.
Qed.

Lemma sampleSkipRun_state :
  isStudying (learnRun samplePatterns sampleSkipRun) = true
  ∧ learnMode (learnRun samplePatterns sampleSkipRun) = Repeat
  ∧ currentChallenge samplePatterns (learnRun samplePatterns sampleSkipRun)
    = Some sampleChallenge
  ∧ length (DrillablePattern.words sampleChallenge)
    ≤ currentWordIndex (learnRun samplePatterns sampleSkipRun).
Proof. vm_compute. repeat split; lia. Qed.

Lemma skipRepeatWord_at_end_witness :
  length (DrillablePattern.words sampleChallenge)
  ≤ currentWordIndex (learnRun samplePatterns sampleSkipRun)
  ∧ learnStep samplePatterns ClickSkip (learnRun samplePatterns sampleSkipRun)
    = learnRun samplePatterns sampleSkipRun.
Proof.
  split; [exact (proj2 (proj2 (proj2 sampleSkipRun_state))) |].
  exact (proj1
           (proj1
              (skipRepeatWord_at_end samplePatterns
                 (learnRun samplePatterns sampleSkipRun) sampleChallenge
                 (proj1 sampleSkipRun_state)
                 (proj1 (proj2 sampleSkipRun_state))
                 (proj1 (proj2 (proj2 sampleSkipRun_state))))
              (proj2 (proj2 (proj2 sampleSkipRun_state))))).
Defined.

Lemma submitRepeat_unfold patternsData raw s challenge currentWord :
  currentChallenge patternsData s = Some challenge →
  DrillablePattern.words challenge !! currentWordIndex s = Some currentWord →
  nonBlank raw →
  submitRepeat patternsData raw s
  = Returns
      (if String.eqb (Js.toLowerCase (Js.trim raw)) (Js.toLowerCase currentWord)
       then
         if hideWord s
         then setUserAnswer ""
                (setTotalAttempts (totalAttempts s + 1)
                   (setCorrectAnswers (correctAnswers s + 1)
                      (setHideWord false
                         (setRepeatCount 0
                            (setCurrentWordIndex (currentWordIndex s + 1) s)))))
         else if 3 <=? repeatCount s + 1
         then setUserAnswer ""
                (setTotalAttempts (totalAttempts s + 1)
                   (setRepeatCount 0 (setHideWord true s)))
         else setUserAnswer ""
                (setTotalAttempts (totalAttempts s + 1)
                   (setRepeatCount (repeatCount s + 1) s))
       else setUserAnswer "" (setTotalAttempts (totalAttempts s + 1) s)).
Proof.
  intros Hchallenge Hword Hraw.
  unfold submitRepeat, checkRepeatWord.
  rewrite currentChallenge_setUserAnswer, Hchallenge. simpl.
  unfold nonBlank in Hraw. rewrite Hraw, Hword. simpl.
  repeat case_match; reflexivity.
Qed.

Lemma correctFor_eqb raw word :
  correctFor raw word →
  String.eqb (Js.toLowerCase (Js.trim raw)) (Js.toLowerCase word) = true.
Proof. unfold correctFor. intros ->. apply String.eqb_refl. Qed.

Lemma submitRepeat_visible patternsData raw s challenge currentWord :
  currentChallenge patternsData s = Some challenge →
  DrillablePattern.words challenge !! currentWordIndex s = Some currentWord →
  nonBlank raw → correctFor raw currentWord → hideWord s = false →
  ∃ s', submitRepeat patternsData raw s = Returns s'
    ∧ currentChallenge patternsData s' = Some challenge
    ∧ currentWordIndex s' = currentWordIndex s
    ∧ correctAnswers s' = correctAnswers s
    ∧ totalAttempts s' = totalAttempts s + 1
    ∧ hideWord s' = bool_decide (3 ≤ repeatCount s + 1)
    ∧ repeatCount s' = (if bool_decide (3 ≤ repeatCount s + 1)
                        then 0 else repeatCount s + 1).
Proof.
  intros Hchallenge Hword Hraw Hcorrect Hvisible.
  rewrite (submitRepeat_unfold _ _ _ _ _ Hchallenge Hword Hraw).
  rewrite (correctFor_eqb _ _ Hcorrect), Hvisible.
  eexists. split; [reflexivity |].
  destruct (3 <=? repeatCount s + 1) eqn:Hthree.
  - apply Nat.leb_le in Hthree. rewrite (bool_decide_eq_true_2 _ Hthree).
    repeat split; solve [reflexivity | exact Hchallenge].
  - apply Nat.leb_gt in Hthree.
    rewrite bool_decide_eq_false_2 by lia.
    repeat split; solve [reflexivity | exact Hchallenge | exact Hvisible].
Qed.

(** C2. In the repeat-after-me protocol, on a word of the challenge and a
    non-blank typed value: every submission adds one to [totalAttempts];
    an incorrect one changes nothing else; a correct one while the word
    is hidden moves to the next word, resets [repeatCount] and [hideWord]
    and adds one to [correctAnswers]; a correct one while the word is
    visible counts, and the third one hides the word and resets the
    count, so that from a fresh word the word is hidden after exactly
    three correct submissions in a row. *)
Theorem checkRepeatWord_protocol
    (patternsData : list PatternRecord.t) (s : AppState)
    (challenge : DrillablePattern.t) (currentWord raw : string) :
  currentChallenge patternsData s = Some challenge →
  DrillablePattern.words challenge !! currentWordIndex s = Some currentWord →
  nonBlank raw →
  (∃ s', submitRepeat patternsData raw s = Returns s'
         ∧ totalAttempts s' = totalAttempts s + 1)
  ∧ (¬ correctFor raw currentWord →
     submitRepeat patternsData raw s
     = Returns (setUserAnswer "" (setTotalAttempts (totalAttempts s + 1) s)))
  ∧ (correctFor raw currentWord → hideWord s = true →
     submitRepeat patternsData raw s
     = Returns
         (setUserAnswer ""
            (setTotalAttempts (totalAttempts s + 1)
               (setCorrectAnswers (correctAnswers s + 1)
                  (setHideWord false
                     (setRepeatCount 0
                        (setCurrentWordIndex (currentWordIndex s + 1) s)))))))
  ∧ (correctFor raw currentWord → hideWord s = false →
     submitRepeat patternsData raw s
     = Returns
         (if bool_decide (3 ≤ repeatCount s + 1)
          then setUserAnswer ""
                 (setTotalAttempts (totalAttempts s + 1)
                    (setRepeatCount 0 (setHideWord true s)))
          else setUserAnswer ""
                 (setTotalAttempts (totalAttempts s + 1)
                    (setRepeatCount (repeatCount s + 1) s))))
  ∧ (hideWord s = false → repeatCount s = 0 →
     ∀ raws : list string,
       Forall (λ r, nonBlank r ∧ correctFor r currentWord) raws →
       length raws ≤ 3 →
       ∃ s', submitRepeatAll patternsData raws s = Returns s'
         ∧ hideWord s' = bool_decide (length raws = 3)
         ∧ repeatCount s' = length raws `mod` 3
         ∧ currentWordIndex s' = currentWordIndex s
         ∧ correctAnswers s' = correctAnswers s
         ∧ totalAttempts s' = totalAttempts s + length raws).
Proof.
  intros Hchallenge Hword Hraw.
  pose proof (submitRepeat_unfold _ _ _ _ _ Hchallenge Hword Hraw) as Hstep.
  split; [| split; [| split; [| split]]].
  - eexists. split; [exact Hstep |].
    repeat case_match; reflexivity.
  - intros Hwrong. rewrite Hstep.
    destruct (String.eqb_spec (Js.toLowerCase (Js.trim raw))
                (Js.toLowerCase currentWord)) as [Heq | _]; [| reflexivity].
    by destruct Hwrong.
  - intros Hcorrect Hhidden.
    by rewrite Hstep, (correctFor_eqb _ _ Hcorrect), Hhidden.
  - intros Hcorrect Hvisible.
    rewrite Hstep, (correctFor_eqb _ _ Hcorrect), Hvisible.
    destruct (3 <=? repeatCount s + 1) eqn:Hthree.
    + apply Nat.leb_le in Hthree. by rewrite (bool_decide_eq_true_2 _ Hthree).
    + apply Nat.leb_gt in Hthree. by rewrite bool_decide_eq_false_2 by lia.
  - intros Hvisible Hfresh raws Hraws Hlen.
    destruct raws as [| r1 raws]; simpl.
    { eexists. split; [reflexivity |].
      repeat split; first [exact Hvisible | exact Hfresh | lia]. }
    apply Forall_cons in Hraws as [[Hr1 Hc1] Hraws].
    destruct (submitRepeat_visible _ _ _ _ _ Hchallenge Hword Hr1 Hc1 Hvisible)
      as (s1 & -> & Hch1 & Hi1 & Hca1 & Hta1 & Hh1 & Hrc1).
    rewrite Hfresh in Hh1, Hrc1. simpl in Hh1, Hrc1.
    rewrite <- Hi1 in Hword.
    destruct raws as [| r2 raws]; simpl.
    { eexists. split; [reflexivity |].
      repeat split; first [exact Hh1 | exact Hrc1 | lia]. }
    apply Forall_cons in Hraws as [[Hr2 Hc2] Hraws].
    destruct (submitRepeat_visible _ _ _ _ _ Hch1 Hword Hr2 Hc2 Hh1)
      as (s2 & -> & Hch2 & Hi2 & Hca2 & Hta2 & Hh2 & Hrc2).
    rewrite Hrc1 in Hh2, Hrc2. simpl in Hh2, Hrc2.
    rewrite <- Hi2 in Hword.
    destruct raws as [| r3 raws]; simpl.
    { eexists. split; [reflexivity |].
      repeat split; first [exact Hh2 | exact Hrc2 | lia]. }
    apply Forall_cons in Hraws as [[Hr3 Hc3] Hraws].
    destruct (submitRepeat_visible _ _ _ _ _ Hch2 Hword Hr3 Hc3 Hh2)
      as (s3 & -> & Hch3 & Hi3 & Hca3 & Hta3 & Hh3 & Hrc3).
    rewrite Hrc2 in Hh3, Hrc3. simpl in Hh3, Hrc3.
    destruct raws as [| r4 raws]; simpl in *; [| lia].
    eexists. split; [reflexivity |].
    repeat split; first [exact Hh3 | exact Hrc3 | lia].
Qed.

Lemma checkRepeatWord_protocol_witness :
  currentChallenge samplePatterns (sampleSession Repeat) = Some sampleChallenge
  ∧ DrillablePattern.words sampleChallenge
      !! currentWordIndex (sampleSession Repeat) = Some "running"
  ∧ nonBlank " Running "
  ∧ (∃ s', submitRepeat samplePatterns " Running " (sampleSession Repeat)
           = Returns s'
           ∧ totalAttempts s' = totalAttempts (sampleSession Repeat) + 1).
Proof.
  assert (Hchallenge :
    currentChallenge samplePatterns (sampleSession Repeat) = Some sampleChallenge)
    by (vm_compute; reflexivity).
  assert (Hword : DrillablePattern.words sampleChallenge
                    !! currentWordIndex (sampleSession Repeat) = Some "running")
    by reflexivity.
  assert (Hraw : nonBlank " Running ") by reflexivity.
  split; [exact Hchallenge |].
  split; [exact Hword |].
  split; [exact Hraw |].
  exact (proj1 (checkRepeatWord_protocol samplePatterns (sampleSession Repeat)
                  sampleChallenge "running" " Running " Hchallenge Hword Hraw)).
Defined.

(** ** Find words *)

Lemma isWhiteSpace_lowerChar c : Js.isWhiteSpace (Js.lowerChar c) = Js.isWhiteSpace c.
Proof. by destruct c as [[] [] [] [] [] [] [] []]. Qed.

Lemma trimStart_toLowerCase s :
  Js.trimStart (Js.toLowerCase s) = Js.toLowerCase (Js.trimStart s).
Proof.
  induction s as [| c r IH]; [reflexivity |].
  simpl. rewrite isWhiteSpace_lowerChar.
  by destruct (Js.isWhiteSpace c).
Qed.

Lemma trimEnd_toLowerCase s :
  Js.trimEnd (Js.toLowerCase s) = Js.toLowerCase (Js.trimEnd s).
Proof.
  induction s as [| c r IH]; [reflexivity |].
  simpl. rewrite IH, isWhiteSpace_lowerChar.
  destruct (Js.trimEnd r); simpl; [| reflexivity].
  by destruct (Js.isWhiteSpace c).
Qed.

Lemma trim_toLowerCase s : Js.trim (Js.toLowerCase s) = Js.toLowerCase (Js.trim s).
Proof. unfold Js.trim. by rewrite trimStart_toLowerCase, trimEnd_toLowerCase. Qed.

Lemma truthy_toLowerCase s : Js.truthy (Js.toLowerCase s) = Js.truthy s.
Proof. by destruct s. Qed.

Lemma truthy_app_l a b : Js.truthy a = true → Js.truthy (a +:+ b) = true.
Proof. by destruct a. Qed.

Lemma truthy_app_r a b : Js.truthy b = true → Js.truthy (a +:+ b) = true.
Proof. destruct a; [done |]. by intros _. Qed.

Lemma fullWordOf_truthy challenge raw :
  nonBlank raw → Js.truthy (fullWordOf challenge raw) = true.
Proof.
  unfold nonBlank, fullWordOf. intros Hraw.
  assert (Js.truthy (Js.trim (Js.toLowerCase raw)) = true) as Hinput
    by (by rewrite trim_toLowerCase, truthy_toLowerCase).
  destruct (DrillablePattern.type challenge);
    [by apply truthy_app_l | by apply truthy_app_r].
Qed.

Lemma find_matched (words : list string) fullWord :
  Js.truthy fullWord = true →
  (∃ w, w ∈ words ∧ Js.toLowerCase w = fullWord) →
  from_option Js.truthy false
    (List.find (λ dictWord, String.eqb (Js.toLowerCase dictWord) fullWord) words)
  = true.
Proof.
  intros Htruthy (w & Hin & Hw).
  destruct (List.find _ words) as [w' |] eqn:Hfind; simpl.
  - apply find_some in Hfind as [_ Hw'].
    apply String.eqb_eq in Hw'.
    by rewrite <- truthy_toLowerCase, Hw'.
  - apply list_elem_of_In in Hin.
    pose proof (find_none _ _ Hfind _ Hin) as Hno. simpl in Hno.
    rewrite Hw, String.eqb_refl in Hno. discriminate.
Qed.

(** What one guess does, by cases on the sets. *)
Lemma submitGuess_unfold patternsData raw s challenge :
  currentChallenge patternsData s = Some challenge →
  nonBlank raw →
  submitGuess patternsData raw s
  = let fullWord := fullWordOf challenge raw in
    if bool_decide (fullWord ∈ attemptedWords s) then setUserAnswer "" s
    else
      let attempted :=
        setTotalAttempts (totalAttempts s + 1)
          (setAttemptedWords (attemptedWords s ∪ {[fullWord]}) s) in
      if from_option Js.truthy false
           (List.find (λ dictWord, String.eqb (Js.toLowerCase dictWord) fullWord)
              (DrillablePattern.words challenge))
         && negb (bool_decide (fullWord ∈ foundWords s))
      then setUserAnswer ""
             (setCorrectAnswers (correctAnswers s + 1)
                (setFoundWords (foundWords s ∪ {[fullWord]}) attempted))
      else setUserAnswer "" attempted.
Proof.
  intros Hchallenge Hraw.
  unfold submitGuess, checkAnswer.
  rewrite currentChallenge_setUserAnswer, Hchallenge. simpl.
  unfold nonBlank in Hraw. rewrite Hraw. simpl.
  repeat case_match; reflexivity.
Qed.

Lemma currentChallenge_submitGuess patternsData raw s :
  currentChallenge patternsData (submitGuess patternsData raw s)
  = currentChallenge patternsData s.
Proof.
  unfold submitGuess, checkAnswer.
  rewrite currentChallenge_setUserAnswer.
  destruct (currentChallenge patternsData s) as [challenge |] eqn:Hchallenge;
    [| by rewrite currentChallenge_setUserAnswer].
  simpl.
  repeat case_match; try reflexivity;
    solve [exact Hchallenge | by rewrite currentChallenge_setUserAnswer].
Qed.

Lemma submitGuess_found patternsData raw s challenge :
  currentChallenge patternsData s = Some challenge →
  nonBlank raw →
  fullWordOf challenge raw ∉ attemptedWords s →
  fullWordOf challenge raw ∉ foundWords s →
  (∃ w, w ∈ DrillablePattern.words challenge
        ∧ Js.toLowerCase w = fullWordOf challenge raw) →
  correctAnswers (submitGuess patternsData raw s) = correctAnswers s + 1
  ∧ totalAttempts (submitGuess patternsData raw s) = totalAttempts s + 1
  ∧ attemptedWords (submitGuess patternsData raw s)
    = attemptedWords s ∪ {[fullWordOf challenge raw]}
  ∧ foundWords (submitGuess patternsData raw s)
    = foundWords s ∪ {[fullWordOf challenge raw]}.
Proof.
  intros Hchallenge Hraw Hattempted Hfound Hmatch.
  rewrite (submitGuess_unfold _ _ _ _ Hchallenge Hraw). cbv zeta.
  rewrite (bool_decide_eq_false_2 _ Hattempted).
  rewrite (bool_decide_eq_false_2 _ Hfound).
  rewrite find_matched by eauto using fullWordOf_truthy.
  done.
Qed.

Lemma submitGuessAll_found patternsData challenge raws :
  ∀ s,
    currentChallenge patternsData s = Some challenge →
    Forall nonBlank raws →
    NoDup (fullWordOf challenge <$> raws) →
    (∀ raw, raw ∈ raws →
       (fullWordOf challenge raw ∉ attemptedWords s)
       ∧ (fullWordOf challenge raw ∉ foundWords s)
       ∧ (∃ w, w ∈ DrillablePattern.words challenge
               ∧ Js.toLowerCase w = fullWordOf challenge raw)) →
    correctAnswers (submitGuessAll patternsData raws s)
    = correctAnswers s + length raws
    ∧ totalAttempts (submitGuessAll patternsData raws s)
      = totalAttempts s + length raws.
Proof.
  induction raws as [| raw rest IH]; intros s Hchallenge Hraws Hdistinct Hfresh.
  { simpl. lia. }
  apply Forall_cons in Hraws as [Hraw Hrest].
  rewrite fmap_cons in Hdistinct. apply NoDup_cons in Hdistinct as [Hnew Hdistinct].
  destruct (Hfresh raw) as (Hattempted & Hfound & Hmatch); [left |].
  destruct (submitGuess_found _ _ _ _ Hchallenge Hraw Hattempted Hfound Hmatch)
    as (Hcorrect & Htotal & Hattempted' & Hfound').
  unfold submitGuessAll in *. simpl.
  destruct (IH (submitGuess patternsData raw s)) as [IHcorrect IHtotal];
    [by rewrite currentChallenge_submitGuess | done | done | |].
  - intros raw' Hin.
    destruct (Hfresh raw') as (Ha & Hf & Hm); [by right |].
    assert (fullWordOf challenge raw' ≠ fullWordOf challenge raw) as Hne.
    { intros Heq. apply Hnew. rewrite <- Heq. by apply list_elem_of_fmap_2. }
    rewrite Hattempted', Hfound', !elem_of_union, !elem_of_singleton.
    split; [| split]; [by intros [? | ?] | by intros [? | ?] | done].
  - rewrite IHcorrect, IHtotal, Hcorrect, Htotal. simpl. lia.
Qed.

(** C3. In the find-words protocol a guess whose constructed word is
    already in [attemptedWords] only clears the answer field: no counter
    and no set changes; so the same constructed word submitted twice
    counts one attempt; and guesses whose constructed words are distinct,
    new, and match words of the challenge raise [correctAnswers] by their
    number, in whatever order they are submitted. *)
Theorem checkAnswer_resubmission
    (patternsData : list PatternRecord.t) (s : AppState)
    (challenge : DrillablePattern.t) :
  currentChallenge patternsData s = Some challenge →
  (∀ raw, nonBlank raw →
     fullWordOf challenge raw ∈ attemptedWords s →
     submitGuess patternsData raw s = setUserAnswer "" s)
  ∧ (∀ raw1 raw2, nonBlank raw1 → nonBlank raw2 →
       fullWordOf challenge raw2 = fullWordOf challenge raw1 →
       fullWordOf challenge raw1 ∉ attemptedWords s →
       totalAttempts (submitGuess patternsData raw1 s) = totalAttempts s + 1
       ∧ submitGuess patternsData raw2 (submitGuess patternsData raw1 s)
         = setUserAnswer "" (submitGuess patternsData raw1 s)
       ∧ totalAttempts
           (submitGuess patternsData raw2 (submitGuess patternsData raw1 s))
         = totalAttempts s + 1)
  ∧ (∀ raws, Forall nonBlank raws →
       NoDup (fullWordOf challenge <$> raws) →
       (∀ raw, raw ∈ raws →
          (fullWordOf challenge raw ∉ attemptedWords s)
          ∧ (fullWordOf challenge raw ∉ foundWords s)
          ∧ (∃ w, w ∈ DrillablePattern.words challenge
                  ∧ Js.toLowerCase w = fullWordOf challenge raw)) →
       ∀ attempts, attempts ≡ₚ raws →
         correctAnswers (submitGuessAll patternsData attempts s)
         = correctAnswers s + length raws).
Proof.
  intros Hchallenge.
  assert (Hagain : ∀ s0 raw, currentChallenge patternsData s0 = Some challenge →
            nonBlank raw → fullWordOf challenge raw ∈ attemptedWords s0 →
            submitGuess patternsData raw s0 = setUserAnswer "" s0).
  { intros s0 raw Hch Hraw Hin.
    rewrite (submitGuess_unfold _ _ _ _ Hch Hraw). cbv zeta.
    by rewrite (bool_decide_eq_true_2 _ Hin). }
  split; [intros raw; by apply Hagain |].
  split.
  - intros raw1 raw2 Hraw1 Hraw2 Hsame Hnew.
    assert (totalAttempts (submitGuess patternsData raw1 s) = totalAttempts s + 1
            ∧ fullWordOf challenge raw1
              ∈ attemptedWords (submitGuess patternsData raw1 s)) as [Hone Hin].
    { rewrite (submitGuess_unfold _ _ _ _ Hchallenge Hraw1). cbv zeta.
      rewrite (bool_decide_eq_false_2 _ Hnew).
      case_match; simpl;
        (split; [done | apply elem_of_union_r; by apply elem_of_singleton]). }
    assert (submitGuess patternsData raw2 (submitGuess patternsData raw1 s)
            = setUserAnswer "" (submitGuess patternsData raw1 s)) as Htwo.
    { apply Hagain; [by rewrite currentChallenge_submitGuess | done |].
      by rewrite Hsame. }
    split; [done |]. split; [done |]. by rewrite Htwo.
  - intros raws Hraws Hdistinct Hfresh attempts Hperm.
    rewrite <- (Permutation_length Hperm).
    apply (submitGuessAll_found patternsData challenge);
      [done | by rewrite Hperm | by rewrite Hperm |].
    intros raw Hin. apply Hfresh. by rewrite <- Hperm.
Qed.

Lemma sampleSession_challenge mode :
  currentChallenge samplePatterns (sampleSession mode) = Some sampleChallenge.
Proof. destruct mode; vm_compute; reflexivity. Qed.

Lemma sample_guesses_fresh raw :
  raw ∈ ["runn"; " JUMP "; "walk"] →
  (fullWordOf sampleChallenge raw ∉ attemptedWords (sampleSession Find))
  ∧ (fullWordOf sampleChallenge raw ∉ foundWords (sampleSession Find))
  ∧ (∃ w, w ∈ DrillablePattern.words sampleChallenge
          ∧ Js.toLowerCase w = fullWordOf sampleChallenge raw).
Proof.
  intros Hin.
  split; [apply not_elem_of_empty |].
  split; [apply not_elem_of_empty |].
  apply elem_of_cons in Hin as [-> | Hin];
    [exists "running"; split; [| reflexivity]; apply (bool_decide_unpack _);
     vm_compute; exact I |].
  apply elem_of_cons in Hin as [-> | Hin];
    [exists "Jumping"; split; [| reflexivity]; apply (bool_decide_unpack _);
     vm_compute; exact I |].
  apply elem_of_cons in Hin as [-> | Hin];
    [exists "walking"; split; [| reflexivity]; apply (bool_decide_unpack _);
     vm_compute; exact I |].
  by apply elem_of_nil in Hin.
Qed.

Lemma checkAnswer_resubmission_witness :
  currentChallenge samplePatterns (sampleSession Find) = Some sampleChallenge
  ∧ correctAnswers
      (submitGuessAll samplePatterns ["walk"; "runn"; " JUMP "] (sampleSession Find))
    = correctAnswers (sampleSession Find) + length ["runn"; " JUMP "; "walk"].
Proof.
  split; [exact (sampleSession_challenge Find) |].
  destruct (checkAnswer_resubmission samplePatterns (sampleSession Find)
              sampleChallenge (sampleSession_challenge Find))
    as (_ & _ & Hdistinct).
  refine (Hdistinct ["runn"; " JUMP "; "walk"] _ _ sample_guesses_fresh _ _).
  - repeat constructor.
  - apply (bool_decide_unpack _). vm_compute. exact I.
  - exact (Permutation_cons_append ["runn"; " JUMP "] "walk").
Defined.

(** ** The Numbers of the score line *)

Example scorePercent_23_of_40 :
  scorePercent (setTotalAttempts 40 (setCorrectAnswers 23 initialState)) = Some 57%Z.
Proof. vm_compute. reflexivity. Qed.

Example scorePercent_29_of_200 :
  scorePercent (setTotalAttempts 200 (setCorrectAnswers 29 initialState)) = Some 14%Z.
Proof. vm_compute. reflexivity. Qed.

Example scorePercent_1_of_8 :
  scorePercent (setTotalAttempts 8 (setCorrectAnswers 1 initialState)) = Some 13%Z.
Proof. vm_compute. reflexivity. Qed.

Example scorePercent_2_of_3 :
  scorePercent (setTotalAttempts 3 (setCorrectAnswers 2 initialState)) = Some 67%Z.
Proof. vm_compute. reflexivity. Qed.

Section Binary64.
Local Open Scope Z_scope.

Lemma fexp_eq x : fexp 53 1024 x = Z.max (x - 53) (-1074).
Proof. reflexivity. Qed.

Lemma digits2_pos_bounds p :
  2 ^ (Zpos (digits2_pos p) - 1) ≤ Zpos p < 2 ^ Zpos (digits2_pos p).
Proof.
  induction p as [p IH | p IH |]; simpl digits2_pos;
    rewrite ?Pos2Z.inj_succ.
  - rewrite (Pos2Z.inj_xI p). replace (Z.succ (Zpos (digits2_pos p)) - 1)
      with (Z.succ (Zpos (digits2_pos p) - 1)) by lia.
    rewrite !Z.pow_succ_r by lia. lia.
  - rewrite (Pos2Z.inj_xO p). replace (Z.succ (Zpos (digits2_pos p)) - 1)
      with (Z.succ (Zpos (digits2_pos p) - 1)) by lia.
    rewrite !Z.pow_succ_r by lia. lia.
  - simpl. lia.
Qed.

Lemma Zdigits2_bounds m :
  0 < m → 0 < Zdigits2 m ∧ 2 ^ (Zdigits2 m - 1) ≤ m < 2 ^ Zdigits2 m.
Proof.
  destruct m as [| p | p]; try lia. intros _. simpl.
  split; [lia | apply digits2_pos_bounds].
Qed.

Lemma Zdigits2_nonneg m : 0 ≤ m → 0 ≤ Zdigits2 m.
Proof. destruct m; simpl; lia. Qed.

(** A bound on a number bounds its number of digits. *)
Lemma Zdigits2_le m K j :
  0 ≤ m → 0 < K → 0 ≤ j → m ≤ K * 2 ^ j → Zdigits2 m ≤ Zdigits2 K + j.
Proof.
  intros Hm HK Hj Hle.
  destruct (Z.eq_dec m 0) as [-> | Hpos].
  { pose proof (Zdigits2_nonneg K). simpl. lia. }
  destruct (Zdigits2_bounds m) as (Hd & Hlow & _); [lia |].
  destruct (Zdigits2_bounds K) as (HdK & _ & Hhigh); [lia |].
  destruct (Z.le_gt_cases (Zdigits2 m) (Zdigits2 K + j)) as [| Hgt]; [done |].
  exfalso.
  assert (2 ^ (Zdigits2 K + j) ≤ 2 ^ (Zdigits2 m - 1))
    by (apply Z.pow_le_mono_r; lia).
  rewrite Z.pow_add_r in * by lia.
  assert (0 < 2 ^ j) by (apply Z.pow_pos_nonneg; lia).
  nia.
Qed.

Lemma iter_pos_ind {A} (P : Z → A → Prop) (f : A → A) :
  (∀ k x, 0 ≤ k → P k x → P (k + 1) (f x)) →
  ∀ p k x, 0 ≤ k → P k x → P (k + Zpos p) (SpecFloat.iter_pos f p x).
Proof.
  intros Hstep. induction p as [p IH | p IH |]; intros k x Hk Hx; simpl.
  - replace (k + Zpos p~1) with (k + 1 + Zpos p + Zpos p) by lia.
    apply IH; [lia |]. apply IH; [lia |]. by apply Hstep.
  - replace (k + Zpos p~0) with (k + Zpos p + Zpos p) by lia.
    apply IH; [lia |]. by apply IH.
  - by apply Hstep.
Qed.

Lemma located_shr_1 mrs N D :
  0 < D → located mrs N D → located (shr_1 mrs) N (2 * D).
Proof.
  intros HD (Hm & Hrange & Hsticky).
  destruct mrs as [m r s]. unfold located in *. simpl in Hm, Hrange, Hsticky.
  assert (∃ m' (b : bool),
            m = 2 * m' + (if b then 1 else 0) ∧ 0 ≤ m'
            ∧ shr_1 {| shr_m := m; shr_r := r; shr_s := s |}
              = {| shr_m := m'; shr_r := b; shr_s := r || s |})
    as (m' & b & -> & Hm' & ->).
  { destruct m as [| [p | p |] | p]; try lia.
    - by exists 0, false.
    - exists (Zpos p), true. by rewrite (Pos2Z.inj_xI p).
    - exists (Zpos p), false. rewrite (Pos2Z.inj_xO p). split; [lia | done].
    - by exists 0, true. }
  simpl. split; [done |].
  split; [destruct r, b; lia |].
  destruct r, s, b; simpl; split; intros Heq; try done; try lia;
    try (assert (false = false) as Hnone by done; apply Hsticky in Hnone; lia);
    try (exfalso; assert (true = false) as Hbad by (apply Hsticky; lia); done).
Qed.

Lemma located_shr mrs e n N D :
  0 < D → located mrs N D →
  (shr mrs e n).2 = Z.max e (e + n)
  ∧ located (shr mrs e n).1 N (D * 2 ^ ((shr mrs e n).2 - e)).
Proof.
  intros HD Hloc. destruct n as [| p | p]; simpl.
  - rewrite Z.add_0_r, Z.max_id, Z.sub_diag, Z.mul_1_r. done.
  - split; [lia |].
    replace (e + Zpos p - e) with (0 + Zpos p) by lia.
    apply (iter_pos_ind (λ k mrs', 0 < D * 2 ^ k ∧ located mrs' N (D * 2 ^ k)));
      [| lia |].
    + intros k x Hk [Hpos Hx]. rewrite Z.pow_add_r, Z.pow_1_r by lia.
      replace (D * (2 ^ k * 2)) with (2 * (D * 2 ^ k)) by lia.
      split; [lia |]. by apply located_shr_1.
    + rewrite Z.mul_1_r. done.
  - rewrite Z.sub_diag, Z.mul_1_r. split; [lia | done].
Qed.

Lemma shr_m_of_loc m l : shr_m (shr_record_of_loc m l) = m.
Proof. by destruct l as [| []]. Qed.

Lemma shr_record_of_loc_of_shr_record mrs :
  shr_record_of_loc (shr_m mrs) (loc_of_shr_record mrs) = mrs.
Proof. by destruct mrs as [m [] []]. Qed.

Lemma located_exact m : 0 ≤ m → located (shr_record_of_loc m loc_Exact) m 1.
Proof. intros Hm. unfold located. simpl. split; [done |]. split; [lia |]. split; [lia | done]. Qed.

(** Rounding to nearest never passes a multiple of the unit. *)
Lemma round_nearest_even_bounds mrs N D :
  0 < D → located mrs N D →
  shr_m mrs ≤ round_nearest_even (shr_m mrs) (loc_of_shr_record mrs)
  ∧ (∀ K, N ≤ K * D →
       round_nearest_even (shr_m mrs) (loc_of_shr_record mrs) ≤ K)
  ∧ (∀ K, K * D ≤ N →
       K ≤ round_nearest_even (shr_m mrs) (loc_of_shr_record mrs)).
Proof.
  intros HD (Hm & Hrange & Hsticky).
  destruct mrs as [m r s]. cbn [shr_m shr_r shr_s] in *.
  assert (round_nearest_even m
            (loc_of_shr_record {| shr_m := m; shr_r := r; shr_s := s |}) = m
          ∨ r = true
            ∧ round_nearest_even m
                (loc_of_shr_record {| shr_m := m; shr_r := r; shr_s := s |})
              = m + 1) as [-> | [-> ->]].
  { destruct r, s; simpl; auto. destruct (Z.even m); auto. }
  - split; [lia |]. split; intros K HK; destruct r; nia.
  - split; [lia |]. split; intros K HK; nia.
Qed.

Lemma fexp_mono x y : x ≤ y → fexp 53 1024 x ≤ fexp 53 1024 y.
Proof. rewrite !fexp_eq. lia. Qed.

Lemma pow2_split a b : 0 ≤ a → 0 ≤ b → 2 ^ (a + b) = 2 ^ a * 2 ^ b.
Proof. intros. by apply Z.pow_add_r. Qed.

Lemma pow2_pos a : 0 ≤ a → 0 < 2 ^ a.
Proof. intros. by apply Z.pow_pos_nonneg. Qed.

(** The rounding step of every operation: a value [N / D * 2 ^ ex] that
    is at most [K * 2 ^ g], a number with a significand of 53 bits, is
    rounded to at most [K * 2 ^ g], and to [K * 2 ^ g] if it is equal. *)
Lemma binary_round_aux_bounds sx mx ex lx N D K g :
  0 < D → located (shr_record_of_loc mx lx) N D →
  0 < K → ex ≤ g → fexp 53 1024 (Zdigits2 K + g) ≤ g → g ≤ 971 →
  N ≤ K * 2 ^ (g - ex) * D →
  binary_round_aux 53 1024 sx mx ex lx = S754_zero sx
  ∧ N < K * 2 ^ (g - ex) * D
  ∨ ∃ m e,
      binary_round_aux 53 1024 sx mx ex lx = S754_finite sx m e
      ∧ e ≤ g ∧ Zpos m ≤ K * 2 ^ (g - e)
      ∧ (K * 2 ^ (g - ex) * D ≤ N → K * 2 ^ (g - e) ≤ Zpos m).
Proof.
  intros HD Hloc HK Hex Hfexp Hg HN.
  assert (-1074 ≤ g) as Hmin by (rewrite fexp_eq in Hfexp; lia).
  pose proof Hloc as (Hmx & Hrange & _). rewrite shr_m_of_loc in Hmx.
  assert (mx * D ≤ N) as Hfloor.
  { rewrite shr_m_of_loc in Hrange. destruct (shr_r _); lia. }
  pose proof (pow2_pos (g - ex) ltac:(lia)) as Hpow.
  assert (mx ≤ K * 2 ^ (g - ex)) as Hmxle by nia.
  assert (fexp 53 1024 (Zdigits2 mx + ex) ≤ g) as Hfexp1.
  { etrans; [| exact Hfexp]. apply fexp_mono.
    pose proof (Zdigits2_le mx K (g - ex) Hmx HK ltac:(lia) Hmxle). lia. }
  unfold binary_round_aux, shr_fexp.
  destruct (located_shr _ ex (fexp 53 1024 (Zdigits2 mx + ex) - ex) N D HD Hloc)
    as [He1 Hloc1].
  destruct (shr (shr_record_of_loc mx lx) ex _) as [mrs1 e1]. simpl in He1, Hloc1.
  assert (ex ≤ e1 ≤ g) as He1g by lia.
  pose proof (pow2_pos (e1 - ex) ltac:(lia)) as Hpow1.
  pose proof (pow2_pos (g - e1) ltac:(lia)) as Hpow1g.
  assert (2 ^ (g - ex) = 2 ^ (g - e1) * 2 ^ (e1 - ex)) as Hsplit1.
  { rewrite <- pow2_split by lia. f_equal. lia. }
  destruct (round_nearest_even_bounds mrs1 N (D * 2 ^ (e1 - ex)) ltac:(nia) Hloc1)
    as (Hm2low & Hm2up & Hm2down).
  pose proof Hloc1 as (Hm1 & _).
  set (m2 := round_nearest_even (shr_m mrs1) (loc_of_shr_record mrs1)) in *.
  assert (m2 ≤ K * 2 ^ (g - e1)) as Hm2le.
  { apply Hm2up. rewrite Hsplit1 in HN. nia. }
  assert (0 ≤ m2) as Hm2 by lia.
  assert (fexp 53 1024 (Zdigits2 m2 + e1) ≤ g) as Hfexp2.
  { etrans; [| exact Hfexp]. apply fexp_mono.
    pose proof (Zdigits2_le m2 K (g - e1) Hm2 HK ltac:(lia) Hm2le). lia. }
  destruct (located_shr _ e1 (fexp 53 1024 (Zdigits2 m2 + e1) - e1) m2 1
              ltac:(lia) (located_exact m2 Hm2)) as [He3 Hloc3].
  destruct (shr (shr_record_of_loc m2 loc_Exact) e1 _) as [mrs3 e3].
  simpl in He3, Hloc3. rewrite Z.mul_1_l in Hloc3.
  assert (e1 ≤ e3 ≤ g) as He3g by lia.
  pose proof (pow2_pos (e3 - e1) ltac:(lia)) as Hpow3.
  pose proof (pow2_pos (g - e3) ltac:(lia)) as Hpow3g.
  assert (2 ^ (g - e1) = 2 ^ (g - e3) * 2 ^ (e3 - e1)) as Hsplit3.
  { rewrite <- pow2_split by lia. f_equal. lia. }
  destruct Hloc3 as (Hm3 & Hrange3 & _).
  assert (shr_m mrs3 * 2 ^ (e3 - e1) ≤ m2
          ∧ m2 < (shr_m mrs3 + 1) * 2 ^ (e3 - e1)) as [Hm3low Hm3up]
    by (destruct (shr_r mrs3); lia).
  assert (shr_m mrs3 ≤ K * 2 ^ (g - e3)) as Hm3le by nia.
  assert (K * 2 ^ (g - ex) * D ≤ N → K * 2 ^ (g - e3) ≤ shr_m mrs3) as Hexact.
  { intros Hge.
    assert (K * 2 ^ (g - e1) ≤ m2) as Hm2ge.
    { apply Hm2down. rewrite Hsplit1 in Hge. nia. }
    nia. }
  destruct (shr_m mrs3) as [| m3 | m3] eqn:Hm3eq; [| | lia].
  - left. split; [done |].
    destruct (Z.lt_ge_cases N (K * 2 ^ (g - ex) * D)) as [| Hge]; [done |].
    apply Hexact in Hge. nia.
  - right. exists m3, e3.
    rewrite (proj2 (Z.leb_le e3 (1024 - 53))) by lia.
    repeat split; [lia | done | done].
Qed.

Lemma iter_xO mx d : Zpos (Pos.iter xO mx d) = Zpos mx * 2 ^ Zpos d.
Proof.
  induction d as [| d IH] using Pos.peano_ind.
  - simpl. lia.
  - rewrite Pos.iter_succ, Pos2Z.inj_succ, Z.pow_succ_r by lia.
    rewrite (Pos2Z.inj_xO (Pos.iter xO mx d)), IH. lia.
Qed.

Lemma shl_align_spec mx ex ex' :
  (shl_align mx ex ex').2 = Z.min ex ex'
  ∧ Zpos (shl_align mx ex ex').1 = Zpos mx * 2 ^ (ex - (shl_align mx ex ex').2).
Proof.
  unfold shl_align. destruct (ex' - ex) as [| d | d] eqn:Hd; simpl.
  - rewrite Z.sub_diag. lia.
  - rewrite Z.sub_diag. lia.
  - rewrite iter_xO. split; [lia |]. do 2 f_equal. lia.
Qed.

(** An integer below [2 ^ 53] is a Number. *)
Lemma ofZ_exact n :
  0 < n < 2 ^ 53 →
  ∃ m e, Number.ofZ n = S754_finite false m e ∧ e ≤ 0 ∧ Zpos m = n * 2 ^ (- e).
Proof.
  intros [Hpos Hlt]. destruct n as [| p | p]; try lia.
  unfold Number.ofZ, binary_normalize, binary_round.
  destruct (Zdigits2_bounds (Zpos p) Hpos) as (Hd & Hlow & _). simpl in Hd, Hlow.
  assert (Zpos (digits2_pos p) ≤ 53) as Hd53.
  { destruct (Z.le_gt_cases (Zpos (digits2_pos p)) 53) as [| Hgt]; [done |].
    assert (2 ^ 53 ≤ 2 ^ (Zpos (digits2_pos p) - 1))
      by (apply Z.pow_le_mono_r; lia).
    lia. }
  destruct (shl_align_spec p 0
              (fexp Number.prec Number.emax (Zpos (digits2_pos p) + 0)))
    as [Hez Hmz].
  destruct (shl_align p 0 _) as [mz ez]. simpl in Hez, Hmz.
  change (fexp Number.prec Number.emax) with (fexp 53 1024) in *.
  rewrite fexp_eq in Hez.
  assert (ez ≤ 0) as Hez0 by lia.
  destruct (binary_round_aux_bounds false (Zpos mz) ez loc_Exact (Zpos mz) 1
              (Zpos p) 0) as [[_ Hlt'] | (m & e & Hres & He & Hup & Hdown)];
    try lia.
  - by apply located_exact.
  - rewrite fexp_eq. cbn [Zdigits2]. lia.
  - exists m, e. split; [exact Hres |]. split; [done |].
    replace (- e) with (0 - e) by lia.
    assert (Zpos p * 2 ^ (0 - e) ≤ Zpos m); [| lia].
    apply Hdown. rewrite Hmz. lia.
Qed.

(** The location of a quotient with a remainder. *)
Lemma located_new_location q r N D :
  0 < D → 0 ≤ q → 0 ≤ r < D → N = D * q + r →
  located (shr_record_of_loc q (new_location D r)) N D.
Proof.
  intros HD Hq Hr ->. unfold new_location, new_location_even, new_location_odd.
  destruct (Z.even D) eqn:Heven.
  - destruct (Z.eqb_spec r 0) as [-> | Hne].
    + unfold located. simpl. split; [done |]. split; [lia |]. split; intros; try done; lia.
    + destruct (Z.compare_spec (2 * r) D) as [Heq | Hlt | Hgt];
        unfold located; simpl; (split; [done |]); (split; [lia |]);
        split; intros; try done; lia.
  - destruct (Z.eqb_spec r 0) as [-> | Hne].
    + unfold located. simpl. split; [done |]. split; [lia |]. split; intros; try done; lia.
    + assert (2 * r ≠ D).
      { intros <-. rewrite Z.even_mul in Heven. done. }
      destruct (Z.compare_spec (2 * r + 1) D) as [Heq | Hlt | Hgt];
        unfold located; simpl; (split; [done |]); (split; [lia |]);
        split; intros; try done; lia.
Qed.

Lemma SFdiv_bounds mc ec mt et K g a b :
  0 < K → fexp 53 1024 (Zdigits2 K + g) ≤ g → g ≤ 971 →
  0 ≤ a → 0 ≤ b → a - b = ec - et - g →
  Zpos mc * 2 ^ a ≤ K * Zpos mt * 2 ^ b →
  SFdiv 53 1024 (S754_finite false mc ec) (S754_finite false mt et)
  = S754_zero false
  ∨ ∃ m e,
      SFdiv 53 1024 (S754_finite false mc ec) (S754_finite false mt et)
      = S754_finite false m e
      ∧ e ≤ g ∧ Zpos m ≤ K * 2 ^ (g - e).
Proof.
  intros HK Hfexp Hg Ha Hb Hab Hle.
  unfold SFdiv, SFdiv_core_binary. cbn [Zdigits2 xorb].
  set (d1 := Zpos (digits2_pos mc)). set (d2 := Zpos (digits2_pos mt)).
  set (e' := Z.min (fexp 53 1024 (d1 + ec - (d2 + et))) (ec - et)).
  destruct (digits2_pos_bounds mc) as [Hmc _]. fold d1 in Hmc.
  destruct (digits2_pos_bounds mt) as [_ Hmt]. fold d2 in Hmt.
  destruct (Zdigits2_bounds K HK) as (HdK & _ & HKlt).
  pose proof (pow2_pos a Ha) as Hpa. pose proof (pow2_pos b Hb) as Hpb.
  assert (d1 + ec - (d2 + et) ≤ Zdigits2 K + g) as Hdigits.
  { destruct (Z.le_gt_cases (d1 + ec - (d2 + et)) (Zdigits2 K + g)) as [| Hgt];
      [done |]. exfalso.
    assert (2 ^ (Zdigits2 K + d2 + b) ≤ 2 ^ (d1 - 1 + a))
      by (apply Z.pow_le_mono_r; lia).
    rewrite !pow2_split in * by lia.
    pose proof (pow2_pos (Zdigits2 K) ltac:(lia)).
    pose proof (pow2_pos d2 ltac:(lia)).
    pose proof (pow2_pos (d1 - 1) ltac:(lia)).
    assert (2 ^ (d1 - 1) * 2 ^ a ≤ Zpos mc * 2 ^ a) by nia.
    assert (K * Zpos mt * 2 ^ b < 2 ^ Zdigits2 K * 2 ^ d2 * 2 ^ b).
    { apply Z.mul_lt_mono_pos_r; [done |]. nia. }
    lia. }
  assert (e' ≤ g) as He'g.
  { pose proof (fexp_mono _ _ Hdigits). lia. }
  assert (0 ≤ ec - et - e') as Hs by lia.
  assert (match ec - et - e' with
          | Zpos _ => Z.shiftl (Zpos mc) (ec - et - e')
          | 0 => Zpos mc
          | Zneg _ => 0
          end = Zpos mc * 2 ^ (ec - et - e')) as ->.
  { destruct (ec - et - e') as [| s | s] eqn:Hseq; [| | lia].
    - simpl. lia.
    - by rewrite Z.shiftl_mul_pow2 by lia. }
  pose proof (pow2_pos (ec - et - e') Hs) as Hps.
  pose proof (Z_div_mod (Zpos mc * 2 ^ (ec - et - e')) (Zpos mt) ltac:(lia))
    as Hdiv.
  destruct (Z.div_eucl (Zpos mc * 2 ^ (ec - et - e')) (Zpos mt)) as [q r].
  destruct Hdiv as [Hqr Hr].
  assert (0 ≤ q) as Hq by nia.
  destruct (binary_round_aux_bounds false q e' (new_location (Zpos mt) r)
              (Zpos mc * 2 ^ (ec - et - e')) (Zpos mt) K g)
    as [[Hres _] | (m & e & Hres & He & Hup & _)]; try done; try lia.
  - by apply located_new_location.
  - pose proof (pow2_pos (g - e') ltac:(lia)) as Hpg.
    assert (2 ^ (ec - et - e') * 2 ^ b = 2 ^ a * 2 ^ (g - e')) as Hexp.
    { rewrite <- !pow2_split by lia. f_equal. lia. }
    apply (Z.mul_le_mono_pos_r _ _ (2 ^ b)); [done |]. nia.
  - by left.
  - right. by exists m, e.
Qed.

Lemma SFmul_bounds m e M E K g :
  0 < K → fexp 53 1024 (Zdigits2 K + g) ≤ g → g ≤ 971 → e + E ≤ g →
  Zpos m * Zpos M ≤ K * 2 ^ (g - (e + E)) →
  SFmul 53 1024 (S754_finite false m e) (S754_finite false M E)
  = S754_zero false
  ∨ ∃ m' e',
      SFmul 53 1024 (S754_finite false m e) (S754_finite false M E)
      = S754_finite false m' e'
      ∧ e' ≤ g ∧ Zpos m' ≤ K * 2 ^ (g - e').
Proof.
  intros HK Hfexp Hg He Hle. unfold SFmul. cbn [xorb].
  destruct (binary_round_aux_bounds false (Zpos (m * M)) (e + E) loc_Exact
              (Zpos (m * M)) 1 K g)
    as [[Hres _] | (m' & e' & Hres & He' & Hup & _)]; try done; try lia.
  - by apply located_exact.
  - by left.
  - right. by exists m', e'.
Qed.

Lemma Qpower_2_quotient e g :
  e ≤ g → 0 ≤ g →
  (Qpower 2 e == inject_Z (2 ^ g) / inject_Z (2 ^ (g - e)))%Q.
Proof.
  intros He Hg.
  replace e with (g + - (g - e)) at 1 by lia.
  rewrite Qpower_plus by done.
  rewrite Qpower_opp.
  change 2%Q with (inject_Z 2).
  rewrite <- !Zpower_Qpower by lia. reflexivity.
Qed.

Lemma value_bounds m e K g :
  e ≤ g → 0 ≤ g → Zpos m ≤ K * 2 ^ (g - e) →
  (0 <= Number.value false m e <= inject_Z (K * 2 ^ g))%Q.
Proof.
  intros He Hg Hle. unfold Number.value. cbn [cond_Zopp].
  rewrite (Qpower_2_quotient e g He Hg).
  pose proof (pow2_pos g Hg) as HG.
  pose proof (pow2_pos (g - e) ltac:(lia)) as HJ.
  assert (0 < inject_Z (2 ^ (g - e)))%Q as HJq
    by (change 0%Q with (inject_Z 0); by rewrite <- Zlt_Qlt).
  assert (inject_Z (Zpos m) * (inject_Z (2 ^ g) / inject_Z (2 ^ (g - e)))
          == inject_Z (Zpos m * 2 ^ g) / inject_Z (2 ^ (g - e)))%Q as ->.
  { rewrite inject_Z_mult. field. intros Hzero. rewrite Hzero in HJq.
    by apply Qlt_irrefl in HJq. }
  split.
  - apply Qle_shift_div_l; [done |]. rewrite Qmult_0_l.
    change 0%Q with (inject_Z 0). rewrite <- Zle_Qle. nia.
  - apply Qle_shift_div_r; [done |].
    rewrite <- inject_Z_mult, <- Zle_Qle. nia.
Qed.

Lemma round_bounds m e K g :
  e ≤ g → 0 ≤ g → Zpos m ≤ K * 2 ^ (g - e) →
  ∃ p, Number.round (S754_finite false m e) = Some p ∧ 0 ≤ p ≤ K * 2 ^ g.
Proof.
  intros He Hg Hle.
  destruct (value_bounds m e K g He Hg Hle) as [Hlow Hup].
  eexists. split; [reflexivity |]. split.
  - change 0 with (Qfloor 0). apply Qfloor_resp_le.
    revert Hlow. generalize (Number.value false m e). intros v Hv. lra.
  - pose proof (Qfloor_le (Number.value false m e + (1 # 2))) as Hfloor.
    assert (inject_Z (Qfloor (Number.value false m e + (1 # 2)))
            < inject_Z (K * 2 ^ g + 1))%Q as Hlt.
    { rewrite inject_Z_plus. revert Hfloor Hup.
      generalize (inject_Z (Qfloor (Number.value false m e + (1 # 2)))).
      generalize (Number.value false m e). generalize (inject_Z (K * 2 ^ g)).
      intros B v p Hp Hv. change (inject_Z 1) with 1%Q. lra. }
    rewrite <- Zlt_Qlt in Hlt. lia.
Qed.

Lemma ofZ_100 : Number.ofZ 100 = S754_finite false 7036874417766400 (-46).
Proof. reflexivity. Qed.

(** The percentage of a ratio of at most [2 ^ g]. *)
Lemma percent_bounds (c t g : Z) :
  -2 ≤ g ≤ 0 → 0 ≤ c → 0 < t < 2 ^ 53 → c * 2 ^ (- g) ≤ t →
  ∃ p, Number.round
         (Number.mul (Number.div (Number.ofZ c) (Number.ofZ t)) (Number.ofZ 100))
       = Some p
       ∧ 0 ≤ p ≤ 25 * 2 ^ (g + 2).
Proof.
  intros Hg Hc Ht Hle.
  pose proof (pow2_pos (- g) ltac:(lia)) as Hpg.
  pose proof (pow2_pos (g + 2) ltac:(lia)) as Hpg2.
  destruct (ofZ_exact t Ht) as (mt & et & -> & Het & Hmt).
  rewrite ofZ_100. unfold Number.div, Number.mul, Number.prec, Number.emax.
  destruct (Z.eq_dec c 0) as [-> | Hcpos].
  { exists 0. split; [reflexivity | lia]. }
  destruct (ofZ_exact c ltac:(nia)) as (mc & ec & -> & Hec & Hmc).
  pose proof (pow2_pos (- ec) ltac:(lia)) as Hpec.
  pose proof (pow2_pos (- et) ltac:(lia)) as Hpet.
  destruct (SFdiv_bounds mc ec mt et 1 g (- et - g) (- ec))
    as [-> | (m & e & -> & He & Hm)]; try lia.
  - rewrite fexp_eq. simpl. lia.
  - rewrite Hmc, Hmt.
    replace (- et - g) with (- et + - g) by lia. rewrite pow2_split by lia. nia.
  - exists 0. split; [reflexivity | lia].
  - pose proof (pow2_pos (g - e) ltac:(lia)) as Hpge.
    destruct (SFmul_bounds m e 7036874417766400 (-46) 25 (g + 2))
      as [-> | (m' & e' & -> & He' & Hm')]; try lia.
    + rewrite fexp_eq. simpl. lia.
    + replace (g + 2 - (e + -46)) with (48 + (g - e)) by lia.
      rewrite pow2_split by lia.
      change (Zpos 7036874417766400) with (25 * 2 ^ 48). nia.
    + exists 0. split; [reflexivity | lia].
    + apply round_bounds; lia.
Qed.
End Binary64.

Lemma scorePercent_le_100 s :
  correctAnswers s ≤ totalAttempts s →
  (Z.of_nat (totalAttempts s) < 2 ^ 53)%Z →
  ∃ p, scorePercent s = Some p ∧ (0 ≤ p ≤ 100)%Z.
Proof.
  intros Hle Hexact. unfold scorePercent.
  destruct (0 <? totalAttempts s) eqn:Hpos; [| exists 0%Z; split; [done | lia]].
  apply Nat.ltb_lt in Hpos.
  apply (percent_bounds _ _ 0%Z); simpl; lia.
Qed.

(** ** The scoring invariant *)

Lemma scoringInvariant_checkAnswer patternsData s :
  scoringInvariant s → scoringInvariant (checkAnswer patternsData s).
Proof.
  intros [Hcount Hsets]. unfold checkAnswer.
  destruct (currentChallenge patternsData s) as [challenge |]; [| done].
  destruct (negb _); [done |].
  destruct (bool_decide _); [done |].
  destruct (_ && _); split; simpl; try lia.
  - by apply union_mono_r.
  - by apply union_subseteq_l'.
Qed.

Lemma scoringInvariant_checkRepeatWord patternsData s s' :
  scoringInvariant s → checkRepeatWord patternsData s = Returns s' →
  scoringInvariant s'.
Proof.
  intros [Hcount Hsets]. unfold checkRepeatWord.
  destruct (currentChallenge patternsData s) as [challenge |];
    [| by intros [= <-]].
  destruct (negb _); [by intros [= <-] |].
  destruct (_ !! _) as [currentWord |]; [| done].
  intros [= <-].
  repeat case_match; split; simpl; solve [lia | done].
Qed.

(** C10. Every session operation keeps [correctAnswers] at most
    [totalAttempts] and [foundWords] inside [attemptedWords]; the two hold
    initially; hence the percentage shown in the score line, computed on
    binary64 Numbers as the code does, is a whole number from 0 to 100
    after every operation (the counters being below [2 ^ 53], where a
    Number holds them). *)
Theorem scoringInvariant_preserved
    (patternsData : list PatternRecord.t) (op : Operation) (s : AppState) :
  scoringInvariant initialState
  ∧ (scoringInvariant s →
     scoringInvariant (perform patternsData op s)
     ∧ ((Z.of_nat (totalAttempts (perform patternsData op s)) < 2 ^ 53)%Z →
        ∃ p, scorePercent (perform patternsData op s) = Some p
             ∧ (0 ≤ p ≤ 100)%Z)).
Proof.
  split; [by split |].
  intros Hinv.
  assert (scoringInvariant (perform patternsData op s)) as Hinv'.
  { destruct op; simpl.
    - unfold startStudy. by destruct (_ =? _).
    - exact Hinv.
    - by apply scoringInvariant_checkAnswer.
    - destruct Hinv as [Hcount Hsets]. unfold showAllWords.
      destruct (_ =? _); split; simpl; solve [lia | done].
    - destruct (checkRepeatWord patternsData s) as [s' |] eqn:Hstep; [| done].
      by apply (scoringInvariant_checkRepeatWord patternsData s).
    - exact Hinv.
    - destruct Hinv as [Hcount Hsets]. by split.
    - by split. }
  split; [exact Hinv' |].
  apply scorePercent_le_100, Hinv'.
Qed.

Lemma sample_guess_counted :
  scoringInvariant (setUserAnswer "runn" (sampleSession Find))
  ∧ (Z.of_nat
       (totalAttempts
          (perform samplePatterns OpSubmitGuess
             (setUserAnswer "runn" (sampleSession Find)))) < 2 ^ 53)%Z.
Proof.
  split; [split; [apply Nat.le_refl | apply empty_subseteq] |].
  vm_compute. reflexivity.
Qed.

Lemma scoringInvariant_preserved_witness :
  scoringInvariant
    (perform samplePatterns OpSubmitGuess
       (setUserAnswer "runn" (sampleSession Find)))
  ∧ ∃ p, scorePercent
           (perform samplePatterns OpSubmitGuess
              (setUserAnswer "runn" (sampleSession Find))) = Some p
         ∧ (0 ≤ p ≤ 100)%Z.
Proof.
  split.
  - exact (proj1 (proj2 (scoringInvariant_preserved samplePatterns OpSubmitGuess
                           (setUserAnswer "runn" (sampleSession Find)))
                    (proj1 sample_guess_counted))).
  - exact (proj2 (proj2 (scoringInvariant_preserved samplePatterns OpSubmitGuess
                           (setUserAnswer "runn" (sampleSession Find)))
                    (proj1 sample_guess_counted))
             (proj2 sample_guess_counted)).
Defined.

(** ** The drill set *)

Lemma splitPattern_app patterns p :
  splitPattern patterns p = patterns ++ drillEntries AllTypes None p.
Proof.
  unfold splitPattern, drillEntries, withinDrillBounds, sideAllowed,
    from_option, endsEntry, startsEntry.
  rewrite !andb_true_r.
  destruct ((2 <=? PatternRecord.endsCount p) && _ && _),
    ((2 <=? PatternRecord.startsCount p) && _ && _);
    by rewrite <- ?app_assoc, ?app_nil_r.
Qed.

Lemma foldl_splitPattern records :
  ∀ patterns,
    foldl splitPattern patterns records
    = patterns ++ flat_map (drillEntries AllTypes None) records.
Proof.
  induction records as [| p records IH]; intros patterns.
  { by rewrite app_nil_r. }
  change (foldl splitPattern (splitPattern patterns p) records
          = patterns
            ++ drillEntries AllTypes None p
            ++ flat_map (drillEntries AllTypes None) records).
  by rewrite IH, splitPattern_app, <- app_assoc.
Qed.

Lemma filter_flat_map {A B} (P : B → Prop) `{!∀ x, Decision (P x)}
    (f : A → list B) (l : list A) :
  filter P (flat_map f l) = flat_map (λ x, filter P (f x)) l.
Proof.
  induction l as [| x l IH]; [reflexivity |].
  simpl. by rewrite filter_app, IH.
Qed.

Lemma filter_drillEntries_side t query p :
  filter (λ d, DrillablePattern.type d = t) (drillEntries AllTypes query p)
  = drillEntries (OnlyType t) query p.
Proof.
  unfold drillEntries. simpl. rewrite !andb_true_r, filter_app.
  destruct t, (withinDrillBounds (PatternRecord.endsCount p) _),
    (withinDrillBounds (PatternRecord.startsCount p) _),
    (from_option (Js.endsWith _) true query),
    (from_option (Js.startsWith _) true query); reflexivity.
Qed.

Lemma filter_drillEntries_query sideFilter query p :
  filter (λ d, matchesQuery query d = true) (drillEntries sideFilter None p)
  = drillEntries sideFilter (Some query) p.
Proof.
  unfold drillEntries. simpl. rewrite !andb_true_r, filter_app.
  destruct (withinDrillBounds (PatternRecord.endsCount p) _),
    (withinDrillBounds (PatternRecord.startsCount p) _),
    (sideAllowed sideFilter Ends), (sideAllowed sideFilter Starts); simpl;
    rewrite ?filter_nil, ?filter_cons; unfold matchesQuery; simpl;
    repeat case_decide; repeat case_match; first [reflexivity | congruence].
Qed.

(** C6. The drill set is built record by record, in the order of the
    records: an ENDS entry if and only if [endsCount] is in 2..15 and
    [length] is at least 3, then a STARTS entry under the same bounds on
    [startsCount]; under a non-blank query an ENDS entry is kept only if
    the pattern ends with the trimmed lower-case query and a STARTS entry
    only if the pattern starts with it. *)
Theorem rarePatterns_buildDrillSet
    (records : list PatternRecord.t) (customPatternInput : string)
    (patternTypeFilter : TypeFilter) :
  rarePatterns records customPatternInput patternTypeFilter
  = buildDrillSet records patternTypeFilter (affixQuery customPatternInput).
Proof.
  unfold rarePatterns, buildDrillSet, affixQuery.
  rewrite foldl_splitPattern. simpl.
  assert (match patternTypeFilter with
          | AllTypes => flat_map (drillEntries AllTypes None) records
          | OnlyType t =>
              filter (λ d, DrillablePattern.type d = t)
                (flat_map (drillEntries AllTypes None) records)
          end
          = flat_map (drillEntries patternTypeFilter None) records) as ->.
  { destruct patternTypeFilter as [| t]; [reflexivity |].
    rewrite filter_flat_map. apply flat_map_ext. intros p.
    apply filter_drillEntries_side. }
  destruct (Js.truthy (Js.trim customPatternInput)); [| reflexivity].
  rewrite filter_flat_map. apply flat_map_ext. intros p.
  apply filter_drillEntries_query.
Qed.

(** ** The affix index *)

Lemma length_toLowerCase s : String.length (Js.toLowerCase s) = String.length s.
Proof. induction s as [| c r IH]; simpl; congruence. Qed.

Lemma length_drop n : ∀ s, String.length (Js.drop n s) = String.length s - n.
Proof.
  induction n as [| n IH]; intros [| c r]; simpl; try reflexivity.
  apply IH.
Qed.

Lemma length_take n : ∀ s, String.length (Js.take n s) = Nat.min n (String.length s).
Proof.
  induction n as [| n IH]; intros [| c r]; simpl; try reflexivity.
  by rewrite IH.
Qed.

Lemma length_ending lowerWord len :
  2 ≤ len ≤ String.length lowerWord → String.length (ending lowerWord len) = len.
Proof.
  intros Hlen. unfold ending, Js.sliceFrom, Js.clampIndex.
  rewrite length_drop.
  destruct (- Z.of_nat len <? 0)%Z eqn:Hneg; [lia |].
  apply Z.ltb_ge in Hneg. lia.
Qed.

Lemma length_start lowerWord len :
  2 ≤ len ≤ String.length lowerWord → String.length (start lowerWord len) = len.
Proof.
  intros Hlen. unfold start, Js.slice, Js.clampIndex.
  rewrite length_take, length_drop.
  destruct (Z.of_nat len <? 0)%Z eqn:Hneg; [lia |].
  simpl. lia.
Qed.

Lemma elem_of_affixLengths len n :
  len ∈ affixLengths n ↔ 2 ≤ len ≤ Nat.min 8 n.
Proof. unfold affixLengths. rewrite elem_of_seq. lia. Qed.

(** One push appends the word to the bucket of its key and to no other. *)
Lemma getOrEmpty_pushWord k w m k' :
  getOrEmpty (pushWord k w m) k'
  = getOrEmpty m k' ++ (if decide (k = k') then [w] else []).
Proof.
  unfold getOrEmpty, pushWord, ensureBucket.
  destruct (decide (k = k')) as [<- | Hne].
  - rewrite lookup_alter_eq.
    destruct (m !! k) as [bucket |] eqn:Hbucket.
    + rewrite bool_decide_eq_true_2 by eauto. by rewrite Hbucket.
    + rewrite bool_decide_eq_false_2 by (by intros [? ?]).
      by rewrite lookup_insert_eq.
  - rewrite lookup_alter_ne by done.
    case_bool_decide; [| rewrite lookup_insert_ne by done];
      by rewrite app_nil_r.
Qed.

Section Buckets.

(** The two loops of [indexWord] differ in the key only. *)
Variable keyOf : string → nat → string.

Lemma getOrEmpty_foldl_pushWord lowerWord word lens k :
  ∀ m,
    getOrEmpty (foldl (λ m len, pushWord (keyOf lowerWord len) word m) m lens) k
    = getOrEmpty m k
      ++ flat_map (λ len, if decide (keyOf lowerWord len = k) then [word] else [])
           lens.
Proof.
  induction lens as [| len lens IH]; intros m; simpl.
  { by rewrite app_nil_r. }
  by rewrite IH, getOrEmpty_pushWord, <- app_assoc.
Qed.

Hypothesis length_keyOf :
  ∀ lowerWord len,
    2 ≤ len ≤ String.length lowerWord →
    String.length (keyOf lowerWord len) = len.

Lemma NoDup_keysOf word : NoDup (keysOf keyOf word).
Proof.
  unfold keysOf.
  apply (NoDup_fmap_1 String.length).
  rewrite <- list_fmap_compose.
  rewrite (list_fmap_ext _ id (affixLengths (String.length (Js.toLowerCase word)))).
  - rewrite list_fmap_id. apply NoDup_seq.
  - intros i len Hlen. simpl. apply length_keyOf.
    apply list_elem_of_lookup_2, elem_of_affixLengths in Hlen. lia.
Qed.

Lemma flat_map_single_key (key : nat → string) (word : string)
    (lens : list nat) k :
  NoDup (key <$> lens) →
  flat_map (λ len, if decide (key len = k) then [word] else []) lens
  = if decide (k ∈ key <$> lens) then [word] else [].
Proof.
  induction lens as [| len lens IH]; intros Hdistinct; [reflexivity |].
  rewrite fmap_cons in Hdistinct. apply NoDup_cons in Hdistinct as [Hnew Hdistinct].
  simpl. rewrite IH by done.
  destruct (decide (key len = k)) as [<- | Hne].
  - rewrite (decide_False (P := key len ∈ key <$> lens)) by done.
    rewrite decide_True; [done |]. apply elem_of_cons. by left.
  - destruct (decide (k ∈ key <$> lens)) as [Hin | Hout].
    + rewrite decide_True; [done |]. apply elem_of_cons. by right.
    + rewrite decide_False; [done |].
      rewrite elem_of_cons. by intros [-> | ?].
Qed.

(** A bucket after indexing lists, in the order of the word list, the
    words that have the key of the bucket. *)
Lemma getOrEmpty_foldl_words
    (project : WordIndices → gmap string (list string)) (words : list string) k :
  (∀ idx word,
     project (indexWord idx word)
     = foldl (λ m len, pushWord (keyOf (Js.toLowerCase word) len) word m)
         (project idx)
         (affixLengths (String.length (Js.toLowerCase word)))) →
  ∀ idx,
    getOrEmpty (project (foldl indexWord idx words)) k
    = getOrEmpty (project idx) k ++ filter (λ w, k ∈ keysOf keyOf w) words.
Proof.
  intros Hproject.
  induction words as [| word words IH]; intros idx; simpl.
  { by rewrite app_nil_r. }
  rewrite IH, Hproject, getOrEmpty_foldl_pushWord, <- app_assoc.
  f_equal. rewrite filter_cons.
  rewrite flat_map_single_key by apply NoDup_keysOf.
  fold (keysOf keyOf word). by destruct (decide (k ∈ keysOf keyOf word)).
Qed.

End Buckets.

Lemma endsMap_buckets words k :
  getOrEmpty (endsMap (wordIndices (Some words))) k
  = filter (λ w, k ∈ keysOf ending w) words.
Proof.
  unfold wordIndices.
  by rewrite (getOrEmpty_foldl_words ending length_ending endsMap).
Qed.

Lemma startsMap_buckets words k :
  getOrEmpty (startsMap (wordIndices (Some words))) k
  = filter (λ w, k ∈ keysOf start w) words.
Proof.
  unfold wordIndices.
  by rewrite (getOrEmpty_foldl_words start length_start startsMap).
Qed.

Lemma elem_of_keysOf keyOf word len :
  2 ≤ len ≤ Nat.min 8 (String.length word) →
  keyOf (Js.toLowerCase word) len ∈ keysOf keyOf word.
Proof.
  intros Hlen. unfold keysOf. apply list_elem_of_fmap_2.
  apply elem_of_affixLengths. by rewrite length_toLowerCase.
Qed.

(** C4, as the code has it. After indexing, the bucket of a key lists, in
    the order of the word list, the words (as they are spelled in the
    list) whose lower-case form has that ending, respectively that start,
    of a length from 2 to min(8, length); so every word [W] of the list
    is in the buckets of the ending and of the start of [lower(W)] of each
    such length. *)
Theorem wordIndices_buckets (words : list string) :
  (∀ k, getOrEmpty (endsMap (wordIndices (Some words))) k
        = filter (λ w, k ∈ keysOf ending w) words)
  ∧ (∀ k, getOrEmpty (startsMap (wordIndices (Some words))) k
          = filter (λ w, k ∈ keysOf start w) words)
  ∧ (∀ W L, W ∈ words → 2 ≤ L ≤ Nat.min 8 (String.length W) →
       W ∈ getOrEmpty (endsMap (wordIndices (Some words)))
             (ending (Js.toLowerCase W) L)
       ∧ W ∈ getOrEmpty (startsMap (wordIndices (Some words)))
               (start (Js.toLowerCase W) L)).
Proof.
  split; [apply endsMap_buckets |].
  split; [apply startsMap_buckets |].
  intros W L Hin HL.
  rewrite endsMap_buckets, startsMap_buckets, !list_elem_of_filter.
  by repeat split; try apply elem_of_keysOf.
Qed.

Lemma wordIndices_buckets_witness :
  "Jumping" ∈ sampleDictionary
  ∧ 2 ≤ 3 ≤ Nat.min 8 (String.length "Jumping")
  ∧ "Jumping" ∈ getOrEmpty (endsMap (wordIndices (Some sampleDictionary))) "ing"
  ∧ "Jumping" ∈ getOrEmpty (startsMap (wordIndices (Some sampleDictionary))) "jum".
Proof.
  assert (Hin : "Jumping" ∈ sampleDictionary)
    by (apply (bool_decide_unpack _); vm_compute; exact I).
  assert (HL : 2 ≤ 3 ≤ Nat.min 8 (String.length "Jumping")) by (simpl; lia).
  split; [exact Hin |].
  split; [exact HL |].
  exact (proj2 (proj2 (wordIndices_buckets sampleDictionary)) "Jumping" 3 Hin HL).
Defined.

(** C4, the claim as stated fails: the bucket holds the word as it is
    spelled in the list, not its lower-case form. *)
Lemma lower_word_not_in_bucket :
  "Jumping" ∈ sampleDictionary
  ∧ 2 ≤ 3 ≤ Nat.min 8 (String.length "Jumping")
  ∧ Js.toLowerCase "Jumping"
    ∉ getOrEmpty (endsMap (wordIndices (Some sampleDictionary)))
        (ending (Js.toLowerCase "Jumping") 3).
Proof.
  split; [apply (bool_decide_unpack _); vm_compute; exact I |].
  split; [simpl; lia |].
  apply (bool_decide_unpack _). vm_compute. exact I.
Qed.

(** ** Sorting *)

Section Sort.

Context {A : Type} (key : A → nat).

Let byKey (a b : A) : Z := Z.of_nat (key a) - Z.of_nat (key b).

Lemma sortInsert_Permutation x l : sortInsert byKey x l ≡ₚ x :: l.
Proof.
  induction l as [| y l IH]; simpl; [done |].
  destruct (byKey x y <=? 0)%Z; [done |].
  by rewrite IH, Permutation_swap.
Qed.

Lemma sort_Permutation l : sort byKey l ≡ₚ l.
Proof.
  induction l as [| x l IH]; simpl; [done |].
  by rewrite sortInsert_Permutation, IH.
Qed.

Lemma sortInsert_sorted x l :
  StronglySorted (λ a b, key a ≤ key b) l →
  StronglySorted (λ a b, key a ≤ key b) (sortInsert byKey x l).
Proof.
  induction 1 as [| y l Hsorted IH Hle]; simpl.
  { repeat constructor. }
  destruct (byKey x y <=? 0)%Z eqn:Hcmp; unfold byKey in Hcmp.
  - apply Z.leb_le in Hcmp.
    constructor; [by constructor |].
    constructor; [lia |].
    eapply Forall_impl; [exact Hle |]. simpl. intros; lia.
  - apply Z.leb_gt in Hcmp.
    constructor; [exact IH |].
    rewrite sortInsert_Permutation. constructor; [lia | done].
Qed.

Lemma sort_sorted l : StronglySorted (λ a b, key a ≤ key b) (sort byKey l).
Proof.
  induction l as [| x l IH]; simpl; [constructor |].
  by apply sortInsert_sorted.
Qed.

(** Stability: the elements of one key keep their order. *)
Lemma filter_sortInsert c x l :
  filter (λ a, key a = c) (sortInsert byKey x l)
  = filter (λ a, key a = c) (x :: l).
Proof.
  induction l as [| y l IH]; simpl; [done |].
  destruct (byKey x y <=? 0)%Z eqn:Hcmp; [done |].
  apply Z.leb_gt in Hcmp. unfold byKey in Hcmp.
  rewrite (filter_cons _ y), IH, !filter_cons.
  repeat case_decide; solve [done | lia].
Qed.

Lemma filter_sort c l :
  filter (λ a, key a = c) (sort byKey l) = filter (λ a, key a = c) l.
Proof.
  induction l as [| x l IH]; simpl; [done |].
  by rewrite filter_sortInsert, !filter_cons, IH.
Qed.

End Sort.

(** ** The pattern aggregation *)

Lemma elem_of_firstOccurrences x l : x ∈ firstOccurrences l ↔ x ∈ l.
Proof.
  induction l as [| y l IH]; simpl; [done |].
  rewrite !elem_of_cons, list_elem_of_filter, IH.
  destruct (decide (x = y)); tauto.
Qed.

Lemma firstOccurrences_snoc l x :
  firstOccurrences (l ++ [x])
  = if decide (x ∈ l) then firstOccurrences l else firstOccurrences l ++ [x].
Proof.
  induction l as [| y l IH]; simpl; [done |].
  rewrite IH.
  destruct (decide (x ∈ l)) as [Hin | Hout].
  - rewrite decide_True; [done | by right].
  - destruct (decide (x = y)) as [-> | Hne].
    + rewrite decide_True by left.
      rewrite filter_app, filter_cons, decide_False by (by intros ?).
      by rewrite filter_nil, app_nil_r.
    + rewrite decide_False by (rewrite elem_of_cons; by intros [? | ?]).
      rewrite filter_app, filter_cons, decide_True by done.
      by rewrite filter_nil.
Qed.

Lemma mapSet_keys {V} k (v : V) m :
  (mapSet k v m).*1 = if decide (k ∈ m.*1) then m.*1 else m.*1 ++ [k].
Proof.
  unfold mapSet. case_bool_decide as Hin.
  - rewrite decide_True by done.
    rewrite <- list_fmap_compose. apply list_fmap_ext.
    intros i [k' v'] _. simpl. by case_bool_decide.
  - rewrite decide_False by done. by rewrite fmap_app.
Qed.

Lemma mapSet_Forall {V} (Q : string * V → Prop) k v m :
  Q (k, v) → Forall Q m → Forall Q (mapSet k v m).
Proof.
  intros Hnew Hold. unfold mapSet. case_bool_decide.
  - apply Forall_fmap. eapply Forall_impl; [exact Hold |].
    intros kv Hkv. simpl. by case_bool_decide.
  - apply Forall_app. by repeat constructor.
Qed.

Lemma groupPattern_unfold idx groups entry :
  groupPattern idx groups entry
  = if decide (retained idx (Js.toLowerCase entry.1))
    then mapSet (Js.toLowerCase entry.1)
           (recordOf idx (Js.toLowerCase entry.1) entry.2) groups
    else groups.
Proof.
  unfold groupPattern, retained, endsCountOf, startsCountOf.
  destruct (Nat.leb_spec 2 (length (getOrEmpty (endsMap idx) (Js.toLowerCase entry.1))));
    destruct (Nat.leb_spec 2 (length (getOrEmpty (startsMap idx) (Js.toLowerCase entry.1))));
    simpl;
    destruct (decide _) as [Hkeep | Hdrop]; try reflexivity; exfalso; lia.
Qed.

Lemma patternGroups_snoc idx entries entry :
  patternGroups idx (entries ++ [entry])
  = groupPattern idx (patternGroups idx entries) entry.
Proof. unfold patternGroups. by rewrite foldl_app. Qed.

(** The keys of the groups: the retained lower-case patterns, each at its
    first place in the vocabulary. *)
Lemma patternGroups_keys idx entries :
  (patternGroups idx entries).*1
  = firstOccurrences (filter (retained idx) (lowerPatterns entries)).
Proof.
  induction entries as [| entry entries IH] using rev_ind; [reflexivity |].
  rewrite patternGroups_snoc, groupPattern_unfold.
  unfold lowerPatterns in *.
  rewrite !fmap_app, filter_app. simpl. rewrite filter_cons, filter_nil.
  destruct (decide (retained idx (Js.toLowerCase entry.1))) as [Hkeep | Hdrop].
  - rewrite mapSet_keys, firstOccurrences_snoc, IH.
    destruct (decide (_ ∈ firstOccurrences _)) as [Hin | Hout].
    + rewrite elem_of_firstOccurrences in Hin. by rewrite decide_True by done.
    + rewrite elem_of_firstOccurrences in Hout. by rewrite decide_False by done.
  - by rewrite app_nil_r.
Qed.

(** The values of the groups. *)
Lemma patternGroups_records idx entries :
  Forall (λ kr, retained idx kr.1
                ∧ ∃ entry, entry ∈ entries
                           ∧ Js.toLowerCase entry.1 = kr.1
                           ∧ kr.2 = recordOf idx kr.1 entry.2)
    (patternGroups idx entries).
Proof.
  induction entries as [| entry entries IH] using rev_ind; [constructor |].
  rewrite patternGroups_snoc, groupPattern_unfold.
  assert (Forall (λ kr, retained idx kr.1
                        ∧ ∃ entry0, entry0 ∈ entries ++ [entry]
                                    ∧ Js.toLowerCase entry0.1 = kr.1
                                    ∧ kr.2 = recordOf idx kr.1 entry0.2)
            (patternGroups idx entries)) as IH'.
  { eapply Forall_impl; [exact IH |].
    intros kr (Hkeep & entry0 & Hin & Hkey & Hrecord).
    split; [done |]. exists entry0. split; [| done].
    apply elem_of_app. by left. }
  destruct (decide (retained idx (Js.toLowerCase entry.1))) as [Hkeep | Hdrop];
    [| exact IH'].
  apply mapSet_Forall; [| exact IH'].
  split; [exact Hkeep |]. exists entry. split; [| done].
  apply elem_of_app. right. by left.
Qed.

(** ** Relative order in a list *)

Section Precedes.

Context {A : Type}.
Implicit Types (x y : A) (l : list A).

Lemma precedes_elem_of x y l : precedes x y l → x ∈ l ∧ y ∈ l.
Proof.
  induction l as [| z l IH]; simpl; [done |].
  intros [[-> Hy] | Hprec].
  - split; [by left | by right].
  - destruct (IH Hprec). split; by right.
Qed.

Lemma precedes_filter (P : A → Prop) `{!∀ x, Decision (P x)} x y l :
  P x → P y → precedes x y l → precedes x y (filter P l).
Proof.
  intros Hx Hy.
  induction l as [| z l IH]; simpl; [done |].
  rewrite filter_cons.
  intros [[-> Hin] | Hprec].
  - rewrite decide_True by done. left.
    split; [done |]. by apply list_elem_of_filter.
  - destruct (decide (P z)); [right |]; by apply IH.
Qed.

Lemma precedes_of_filter (P : A → Prop) `{!∀ x, Decision (P x)} x y l :
  precedes x y (filter P l) → precedes x y l.
Proof.
  induction l as [| z l IH]; simpl; [done |].
  rewrite filter_cons.
  destruct (decide (P z)); simpl; [| by right; apply IH].
  intros [[-> Hin] | Hprec].
  - left. split; [done |]. by apply list_elem_of_filter in Hin as [_ ?].
  - right. by apply IH.
Qed.

Lemma precedes_fmap {B} (f : A → B) x y l :
  precedes x y l → precedes (f x) (f y) (f <$> l).
Proof.
  induction l as [| z l IH]; simpl; [done |].
  intros [[-> Hin] | Hprec].
  - left. split; [done |]. by apply list_elem_of_fmap_2.
  - right. by apply IH.
Qed.

Lemma precedes_total x y l :
  x ∈ l → y ∈ l → x ≠ y → precedes x y l ∨ precedes y x l.
Proof.
  intros Hx Hy Hne.
  induction l as [| z l IH]; [by apply elem_of_nil in Hx |].
  apply elem_of_cons in Hx as [-> | Hx], Hy as [Hy | Hy]; simpl.
  - done.
  - left. by left.
  - subst z. right. by left.
  - destruct (IH Hx Hy); [left | right]; by right.
Qed.

Lemma precedes_NoDup_asym x y l :
  NoDup l → precedes x y l → precedes y x l → False.
Proof.
  induction 1 as [| z l Hnew Hdistinct IH]; simpl; [done |].
  intros [[-> Hy] | Hxy] [[Heq Hx] | Hyx].
  - by subst y.
  - by apply precedes_elem_of in Hyx as [_ ?].
  - subst z. by apply precedes_elem_of in Hxy as [_ ?].
  - by apply IH.
Qed.

End Precedes.

Lemma NoDup_firstOccurrences l : NoDup (firstOccurrences l).
Proof.
  induction l as [| x l IH]; simpl; constructor.
  - rewrite list_elem_of_filter. by intros [? _].
  - by apply NoDup_filter.
Qed.

Lemma firstOccurrences_filter (P : string → Prop) `{!∀ x, Decision (P x)} l :
  firstOccurrences (filter P l) = filter P (firstOccurrences l).
Proof.
  induction l as [| x l IH]; simpl; [done |].
  rewrite !filter_cons.
  destruct (decide (P x)) as [HP | HP]; simpl.
  - rewrite IH, !list_filter_filter. f_equal.
    apply list_filter_iff. intros y. tauto.
  - rewrite IH, list_filter_filter.
    apply list_filter_iff. intros y. split; [| tauto].
    intros Hy. split; [done |]. by intros ->.
Qed.

Lemma elem_of_patternsData words entries r :
  r ∈ patternsData (Some words) (Some entries)
  ↔ ∃ k, (k, r) ∈ patternGroups (wordIndices (Some words)) entries.
Proof.
  unfold patternsData, mapValues, byTotalCount.
  rewrite (sort_Permutation PatternRecord.totalCount), list_elem_of_fmap.
  split.
  - intros ([k r'] & -> & Hin). by exists k.
  - intros (k & Hin). by exists (k, r).
Qed.

Lemma patternGroups_lookup idx entries k r :
  (k, r) ∈ patternGroups idx entries →
  retained idx k
  ∧ ∃ entry, entry ∈ entries ∧ Js.toLowerCase entry.1 = k
             ∧ r = recordOf idx k entry.2.
Proof.
  intros Hin.
  pose proof (patternGroups_records idx entries) as Hall.
  rewrite Forall_forall in Hall. exact (Hall (k, r) Hin).
Qed.

(** C1, as the code has it. A vocabulary pattern gets a record if and
    only if its ends-side list or its starts-side list has at least two
    words; every record has [totalCount = endsCount + startsCount], the
    counts being the sizes of the two lists, and [totalCount] at least 2. *)
Theorem patternsData_retention (words : list string) (entries : list (string * Z)) :
  (∀ r, r ∈ patternsData (Some words) (Some entries) →
     PatternRecord.totalCount r
     = PatternRecord.endsCount r + PatternRecord.startsCount r
     ∧ 2 ≤ PatternRecord.totalCount r
     ∧ (2 ≤ PatternRecord.endsCount r ∨ 2 ≤ PatternRecord.startsCount r)
     ∧ PatternRecord.endsCount r
       = endsCountOf (wordIndices (Some words)) (PatternRecord.pattern r)
     ∧ PatternRecord.startsCount r
       = startsCountOf (wordIndices (Some words)) (PatternRecord.pattern r))
  ∧ (∀ entry, entry ∈ entries →
       (∃ r, r ∈ patternsData (Some words) (Some entries)
             ∧ PatternRecord.pattern r = Js.toLowerCase entry.1)
       ↔ (2 ≤ endsCountOf (wordIndices (Some words)) (Js.toLowerCase entry.1)
          ∨ 2 ≤ startsCountOf (wordIndices (Some words)) (Js.toLowerCase entry.1))).
Proof.
  split.
  - intros r Hr. apply elem_of_patternsData in Hr as (k & Hin).
    revert Hin. generalize (wordIndices (Some words)). intros idx Hin.
    apply patternGroups_lookup in Hin as (Hkeep & entry & _ & _ & ->).
    unfold retained in Hkeep. simpl.
    split; [done |]. split; [lia |]. by split.
  - intros entry Hentry. split.
    + intros (r & Hr & Hpattern).
      apply elem_of_patternsData in Hr as (k & Hin).
      apply patternGroups_lookup in Hin as (Hkeep & entry' & _ & _ & ->).
      change (k = Js.toLowerCase entry.1) in Hpattern.
      by rewrite <- Hpattern.
    + intros Hkeep.
      assert (Js.toLowerCase entry.1
              ∈ (patternGroups (wordIndices (Some words)) entries).*1) as Hkey.
      { rewrite patternGroups_keys, elem_of_firstOccurrences, list_elem_of_filter.
        split; [exact Hkeep |].
        unfold lowerPatterns. by do 2 apply list_elem_of_fmap_2. }
      apply list_elem_of_fmap in Hkey as ([k r] & Hk & Hin). simpl in Hk.
      exists r. split; [apply elem_of_patternsData; by exists k |].
      apply patternGroups_lookup in Hin as (_ & entry' & _ & _ & ->).
      by rewrite Hk.
Qed.

Lemma patternsData_retention_witness :
  ("ing", 3%Z) ∈ samplePrefixCounts
  ∧ ∃ r, r ∈ samplePatterns ∧ PatternRecord.pattern r = "ing".
Proof.
  assert (("ing", 3%Z) ∈ samplePrefixCounts) as Hentry by left.
  split; [exact Hentry |].
  apply (proj2 (patternsData_retention sampleDictionary samplePrefixCounts)
           ("ing", 3%Z) Hentry).
  left. vm_compute. lia.
Defined.

(** C1, the claim as stated fails: "bc" ends one word and starts one
    word, two in sum, and gets no record. *)
Lemma one_ends_one_starts_not_retained :
  ("bc", 2%Z) ∈ [("bc", 2%Z)]
  ∧ 2 ≤ endsCountOf (wordIndices (Some ["abc"; "bcd"])) (Js.toLowerCase "bc")
        + startsCountOf (wordIndices (Some ["abc"; "bcd"])) (Js.toLowerCase "bc")
  ∧ patternsData (Some ["abc"; "bcd"]) (Some [("bc", 2%Z)]) = [].
Proof.
  split; [by left |].
  split; [vm_compute; lia | vm_compute; reflexivity].
Qed.

Lemma fmap_filter_values {K V B} (f : V → B) (g : K → B)
    (P : V → Prop) `{!∀ v, Decision (P v)}
    (Q : K → Prop) `{!∀ k, Decision (Q k)} (m : list (K * V)) :
  Forall (λ kv, (P kv.2 ↔ Q kv.1) ∧ f kv.2 = g kv.1) m →
  f <$> filter P m.*2 = g <$> filter Q m.*1.
Proof.
  induction 1 as [| [k v] m [HPQ Hfg] _ IH]; [reflexivity |].
  rewrite !fmap_cons. cbn [fst snd] in *. rewrite !filter_cons.
  destruct (decide (P v)) as [HP | HP], (decide (Q k)) as [HQ | HQ];
    try tauto; by rewrite ?fmap_cons, ?Hfg, IH.
Qed.

(** C5. The records are in non-decreasing order of [totalCount], and
    records of equal [totalCount] are in the order in which their patterns
    first occur in the vocabulary: the patterns of the records of one
    count are the retained patterns of that count in vocabulary order, and
    of two such records one comes before the other exactly when its
    pattern does in the vocabulary. *)
Theorem patternsData_sorted_stable (words : list string) (entries : list (string * Z)) :
  StronglySorted
    (λ a b, PatternRecord.totalCount a ≤ PatternRecord.totalCount b)
    (patternsData (Some words) (Some entries))
  ∧ (∀ c,
       PatternRecord.pattern
         <$> filter (λ r, PatternRecord.totalCount r = c)
               (patternsData (Some words) (Some entries))
       = filter (λ k, endsCountOf (wordIndices (Some words)) k
                      + startsCountOf (wordIndices (Some words)) k = c)
           (firstOccurrences
              (filter (retained (wordIndices (Some words)))
                 (lowerPatterns entries))))
  ∧ (∀ r1 r2,
       r1 ∈ patternsData (Some words) (Some entries) →
       r2 ∈ patternsData (Some words) (Some entries) →
       PatternRecord.totalCount r1 = PatternRecord.totalCount r2 →
       precedes r1 r2 (patternsData (Some words) (Some entries))
       ↔ precedes (PatternRecord.pattern r1) (PatternRecord.pattern r2)
           (firstOccurrences (lowerPatterns entries))).
Proof.
  assert (Hstable : ∀ c,
    PatternRecord.pattern
      <$> filter (λ r, PatternRecord.totalCount r = c)
            (patternsData (Some words) (Some entries))
    = filter (λ k, endsCountOf (wordIndices (Some words)) k
                   + startsCountOf (wordIndices (Some words)) k = c)
        (firstOccurrences
           (filter (retained (wordIndices (Some words)))
              (lowerPatterns entries)))).
  { intros c. unfold patternsData, mapValues, byTotalCount.
    rewrite (filter_sort PatternRecord.totalCount).
    rewrite <- patternGroups_keys.
    rewrite <- (list_fmap_id (filter _ (patternGroups _ entries).*1)).
    apply fmap_filter_values.
    eapply Forall_impl; [apply patternGroups_records |].
    intros [k r] (_ & entry & _ & _ & Hr). simpl in *. by subst r. }
  assert (Hforward : ∀ r1 r2,
    PatternRecord.totalCount r1 = PatternRecord.totalCount r2 →
    precedes r1 r2 (patternsData (Some words) (Some entries)) →
    precedes (PatternRecord.pattern r1) (PatternRecord.pattern r2)
      (firstOccurrences (lowerPatterns entries))).
  { intros r1 r2 Hcount Hprec.
    apply (precedes_filter
             (λ r, PatternRecord.totalCount r = PatternRecord.totalCount r1))
      in Hprec; [| done | done].
    apply (precedes_fmap PatternRecord.pattern) in Hprec.
    rewrite Hstable in Hprec.
    apply precedes_of_filter in Hprec.
    rewrite firstOccurrences_filter in Hprec.
    by apply precedes_of_filter in Hprec. }
  split.
  { unfold patternsData, mapValues, byTotalCount.
    apply (sort_sorted PatternRecord.totalCount). }
  split; [exact Hstable |].
  intros r1 r2 Hr1 Hr2 Hcount. split; [by apply Hforward |].
  intros Hprec.
  pose proof (NoDup_firstOccurrences (lowerPatterns entries)) as Hdistinct.
  assert (r1 ≠ r2) as Hne.
  { intros ->. exact (precedes_NoDup_asym _ _ _ Hdistinct Hprec Hprec). }
  destruct (precedes_total r1 r2 _ Hr1 Hr2 Hne) as [Hdone | Hback]; [done |].
  apply Hforward in Hback; [| done].
  destruct (precedes_NoDup_asym _ _ _ Hdistinct Hprec Hback).
Qed.

Lemma tiesRecord_elem_of :
  tiesRecord "bc" 7 ∈ patternsData (Some tiesDictionary) (Some tiesPrefixCounts)
  ∧ tiesRecord "cd" 2 ∈ patternsData (Some tiesDictionary) (Some tiesPrefixCounts).
Proof.
  split; vm_compute; [left | right; left].
Qed.

Lemma patternsData_sorted_stable_witness :
  tiesRecord "bc" 7 ∈ patternsData (Some tiesDictionary) (Some tiesPrefixCounts)
  ∧ tiesRecord "cd" 2 ∈ patternsData (Some tiesDictionary) (Some tiesPrefixCounts)
  ∧ PatternRecord.totalCount (tiesRecord "bc" 7)
    = PatternRecord.totalCount (tiesRecord "cd" 2)
  ∧ (precedes (tiesRecord "bc" 7) (tiesRecord "cd" 2)
       (patternsData (Some tiesDictionary) (Some tiesPrefixCounts))
     ↔ precedes "bc" "cd" (firstOccurrences (lowerPatterns tiesPrefixCounts))).
Proof.
  assert (Hcount : PatternRecord.totalCount (tiesRecord "bc" 7)
                   = PatternRecord.totalCount (tiesRecord "cd" 2))
    by (vm_compute; reflexivity).
  split; [exact (proj1 tiesRecord_elem_of) |].
  split; [exact (proj2 tiesRecord_elem_of) |].
  split; [exact Hcount |].
  exact (proj2 (proj2 (patternsData_sorted_stable tiesDictionary tiesPrefixCounts))
           (tiesRecord "bc" 7) (tiesRecord "cd" 2)
           (proj1 tiesRecord_elem_of) (proj2 tiesRecord_elem_of) Hcount).
Defined.

(** Three patterns of equal count stay in vocabulary order; "BC" and "bc"
    share one record, at the place of the first and with the [length] of
    the last. *)
Example patternsData_ties :
  (λ r, (PatternRecord.pattern r, PatternRecord.length r,
         PatternRecord.totalCount r))
    <$> patternsData (Some tiesDictionary) (Some tiesPrefixCounts)
  = [("bc", 7%Z, 2); ("cd", 2%Z, 2); ("ef", 2%Z, 3)].
Proof. vm_compute. reflexivity. Qed.

(** The drill set of the sample: one ENDS entry of four words, of the
    rarest class. *)
Example sample_drill_set :
  rarePatterns samplePatterns "" AllTypes = [sampleChallenge]
  ∧ rarePatterns samplePatterns " NG " (OnlyType Ends) = [sampleChallenge]
  ∧ rarePatterns samplePatterns "in" AllTypes = []
  ∧ getRarityClass (Z.of_nat (DrillablePattern.count sampleChallenge)) = UltraRare.
Proof. repeat split; vm_compute; reflexivity. Qed.

(** * Further properties *)

(** ** The index against a scan of the word list *)

Lemma take_min n : ∀ s, Js.take (Nat.min n (String.length s)) s = Js.take n s.
Proof.
  induction n as [| n IH]; intros [| c r]; simpl; try reflexivity.
  by rewrite IH.
Qed.

Lemma ending_drop lowerWord len :
  1 ≤ len → ending lowerWord len = Js.drop (String.length lowerWord - len) lowerWord.
Proof.
  intros Hlen. unfold ending, Js.sliceFrom, Js.clampIndex.
  destruct (- Z.of_nat len <? 0)%Z eqn:Hneg; [| apply Z.ltb_ge in Hneg; lia].
  f_equal. lia.
Qed.

Lemma start_take lowerWord len : start lowerWord len = Js.take len lowerWord.
Proof.
  unfold start, Js.slice, Js.clampIndex.
  destruct (Z.of_nat len <? 0)%Z eqn:Hneg; [apply Z.ltb_lt in Hneg; lia |].
  simpl.
  replace (Z.to_nat (Z.min 0 (Z.of_nat (String.length lowerWord)))) with 0 by lia.
  replace (Z.to_nat (Z.min (Z.of_nat len) (Z.of_nat (String.length lowerWord))) - 0)
    with (Nat.min len (String.length lowerWord)) by lia.
  apply take_min.
Qed.

Lemma elem_of_keysOf_ending word k :
  k ∈ keysOf ending word
  ↔ 2 ≤ String.length k ≤ 8 ∧ Js.endsWith (Js.toLowerCase word) k = true.
Proof.
  unfold keysOf. rewrite list_elem_of_fmap. split.
  - intros (len & -> & Hlen). apply elem_of_affixLengths in Hlen.
    rewrite length_ending by lia. split; [lia |].
    unfold Js.endsWith. rewrite length_ending by lia.
    rewrite <- ending_drop by lia.
    apply andb_true_iff. split; [apply Nat.leb_le; lia | apply String.eqb_refl].
  - intros (Hk & Hends). unfold Js.endsWith in Hends.
    apply andb_true_iff in Hends as [Hle Hdrop].
    apply Nat.leb_le in Hle. apply String.eqb_eq in Hdrop.
    exists (String.length k). split.
    + rewrite ending_drop by lia. by symmetry.
    + apply elem_of_affixLengths. lia.
Qed.

Lemma elem_of_keysOf_start word k :
  k ∈ keysOf start word
  ↔ 2 ≤ String.length k ≤ 8 ∧ Js.startsWith (Js.toLowerCase word) k = true.
Proof.
  unfold keysOf. rewrite list_elem_of_fmap. split.
  - intros (len & -> & Hlen). apply elem_of_affixLengths in Hlen.
    rewrite length_start by lia. split; [lia |].
    unfold Js.startsWith. rewrite length_start by lia.
    rewrite <- start_take. apply String.eqb_refl.
  - intros (Hk & Hstarts). unfold Js.startsWith in Hstarts.
    apply String.eqb_eq in Hstarts.
    assert (String.length k ≤ String.length (Js.toLowerCase word)) as Hle.
    { rewrite <- Hstarts at 1. rewrite length_take. lia. }
    exists (String.length k). split.
    + rewrite start_take. by symmetry.
    + apply elem_of_affixLengths. lia.
Qed.

Lemma endsMap_scan words k :
  2 ≤ String.length k ≤ 8 →
  getOrEmpty (endsMap (wordIndices (Some words))) k
  = filter (λ w, Js.endsWith (Js.toLowerCase w) k = true) words.
Proof.
  intros Hk. rewrite endsMap_buckets. apply list_filter_iff.
  intros w. rewrite elem_of_keysOf_ending. tauto.
Qed.

Lemma startsMap_scan words k :
  2 ≤ String.length k ≤ 8 →
  getOrEmpty (startsMap (wordIndices (Some words))) k
  = filter (λ w, Js.startsWith (Js.toLowerCase w) k = true) words.
Proof.
  intros Hk. rewrite startsMap_buckets. apply list_filter_iff.
  intros w. rewrite elem_of_keysOf_start. tauto.
Qed.

(** X1. For a key of 2 to 8 letters the index answers as a scan of the
    word list would: the bucket of the key in [endsMap] is the list of the
    words whose lower-case form ends with the key, in the order of the
    word list, and the bucket in [startsMap] the list of those that start
    with it. *)
Theorem wordIndices_scan (words : list string) (k : string) :
  2 ≤ String.length k ≤ 8 →
  getOrEmpty (endsMap (wordIndices (Some words))) k
  = filter (λ w, Js.endsWith (Js.toLowerCase w) k = true) words
  ∧ getOrEmpty (startsMap (wordIndices (Some words))) k
    = filter (λ w, Js.startsWith (Js.toLowerCase w) k = true) words.
Proof.
  intros Hk. split; [by apply endsMap_scan | by apply startsMap_scan].
Qed.

Lemma wordIndices_scan_witness :
  2 ≤ String.length "ing" ≤ 8
  ∧ getOrEmpty (endsMap (wordIndices (Some sampleDictionary))) "ing"
    = filter (λ w, Js.endsWith (Js.toLowerCase w) "ing" = true) sampleDictionary.
Proof.
  assert (2 ≤ String.length "ing" ≤ 8) as Hk by (simpl; lia).
  split; [exact Hk |].
  exact (proj1 (wordIndices_scan sampleDictionary "ing" Hk)).
Defined.

Lemma pushWord_nonempty k w (m : gmap string (list string)) :
  map_Forall (λ _ bucket, bucket ≠ []) m →
  map_Forall (λ _ bucket, bucket ≠ []) (pushWord k w m).
Proof.
  intros Hm k' bucket. unfold pushWord, ensureBucket.
  rewrite lookup_alter. case_decide as Hk.
  - intros Hold. apply fmap_Some in Hold as (old & _ & ->). by destruct old.
  - case_bool_decide; [| rewrite lookup_insert_ne by done]; apply Hm.
Qed.

Lemma foldl_pushWord_nonempty (key : nat → string) w lens :
  ∀ m : gmap string (list string),
    map_Forall (λ _ bucket, bucket ≠ []) m →
    map_Forall (λ _ bucket, bucket ≠ [])
      (foldl (λ m len, pushWord (key len) w m) m lens).
Proof.
  induction lens as [| len lens IH]; intros m Hm; simpl; [done |].
  by apply IH, pushWord_nonempty.
Qed.

(** No bucket of the index is empty. *)
Lemma wordIndices_nonempty words :
  map_Forall (λ _ bucket, bucket ≠ []) (endsMap (wordIndices (Some words)))
  ∧ map_Forall (λ _ bucket, bucket ≠ []) (startsMap (wordIndices (Some words))).
Proof.
  unfold wordIndices.
  assert (∀ idx,
    map_Forall (λ _ bucket, bucket ≠ []) (endsMap idx)
    ∧ map_Forall (λ _ bucket, bucket ≠ []) (startsMap idx) →
    map_Forall (λ _ bucket, bucket ≠ []) (endsMap (foldl indexWord idx words))
    ∧ map_Forall (λ _ bucket, bucket ≠ []) (startsMap (foldl indexWord idx words)))
    as Hall.
  { induction words as [| word words IH]; intros idx [Hends Hstarts]; simpl;
      [done |].
    apply IH. split; simpl; by apply foldl_pushWord_nonempty. }
  apply Hall. split; apply map_Forall_empty.
Qed.

Lemma is_Some_getOrEmpty (m : gmap string (list string)) k :
  map_Forall (λ _ bucket, bucket ≠ []) m →
  is_Some (m !! k) ↔ getOrEmpty m k ≠ [].
Proof.
  intros Hm. unfold getOrEmpty.
  destruct (m !! k) as [bucket |] eqn:Hbucket; simpl.
  - split; [intros _; by apply (Hm k) | by eauto].
  - split; [by intros [? ?] | done].
Qed.

Lemma filter_nonempty {A} (P : A → Prop) `{!∀ x, Decision (P x)} (l : list A) :
  filter P l ≠ [] ↔ ∃ x, x ∈ l ∧ P x.
Proof.
  split.
  - destruct (filter P l) as [| x rest] eqn:Hfilter; [done |]. intros _.
    assert (x ∈ filter P l) as Hx by (rewrite Hfilter; left).
    apply list_elem_of_filter in Hx as [HP Hin]. by exists x.
  - intros (x & Hin & HP) Hempty.
    assert (x ∈ filter P l) as Hx by (by apply list_elem_of_filter).
    rewrite Hempty in Hx. by apply elem_of_nil in Hx.
Qed.

(** X2. [endsMap.has(k)] holds exactly when the key has 2 to 8 letters and
    the lower-case form of some word of the list ends with it, and
    likewise [startsMap.has(k)] with "starts with": a shorter or longer
    key, or one that no word has, is missing. *)
Theorem wordIndices_has (words : list string) (k : string) :
  (is_Some (endsMap (wordIndices (Some words)) !! k)
   ↔ 2 ≤ String.length k ≤ 8
     ∧ ∃ w, w ∈ words ∧ Js.endsWith (Js.toLowerCase w) k = true)
  ∧ (is_Some (startsMap (wordIndices (Some words)) !! k)
     ↔ 2 ≤ String.length k ≤ 8
       ∧ ∃ w, w ∈ words ∧ Js.startsWith (Js.toLowerCase w) k = true).
Proof.
  destruct (wordIndices_nonempty words) as [Hends Hstarts].
  split.
  - rewrite (is_Some_getOrEmpty _ _ Hends), endsMap_buckets, filter_nonempty.
    setoid_rewrite elem_of_keysOf_ending.
    split; [intros (w & ? & ? & ?) | intros (? & w & ? & ?)]; eauto.
  - rewrite (is_Some_getOrEmpty _ _ Hstarts), startsMap_buckets, filter_nonempty.
    setoid_rewrite elem_of_keysOf_start.
    split; [intros (w & ? & ? & ?) | intros (? & w & ? & ?)]; eauto.
Qed.

Lemma lowerChar_idemp c : Js.lowerChar (Js.lowerChar c) = Js.lowerChar c.
Proof. by destruct c as [[] [] [] [] [] [] [] []]. Qed.

Lemma toLowerCase_idemp s : Js.toLowerCase (Js.toLowerCase s) = Js.toLowerCase s.
Proof.
  induction s as [| c r IH]; simpl; [done |].
  by rewrite lowerChar_idemp, IH.
Qed.

Lemma retained_length idx_words k :
  retained (wordIndices (Some idx_words)) k → 2 ≤ String.length k ≤ 8.
Proof.
  unfold retained, endsCountOf, startsCountOf.
  rewrite endsMap_buckets, startsMap_buckets.
  intros [Hends | Hstarts].
  - destruct (filter _ idx_words) as [| w rest] eqn:Hfilter; [simpl in *; lia |].
    assert (w ∈ filter (λ w, k ∈ keysOf ending w) idx_words) as Hw
      by (rewrite Hfilter; left).
    apply list_elem_of_filter in Hw as [Hw _].
    by apply elem_of_keysOf_ending in Hw as [? _].
  - destruct (filter _ idx_words) as [| w rest] eqn:Hfilter; [simpl in *; lia |].
    assert (w ∈ filter (λ w, k ∈ keysOf start w) idx_words) as Hw
      by (rewrite Hfilter; left).
    apply list_elem_of_filter in Hw as [Hw _].
    by apply elem_of_keysOf_start in Hw as [? _].
Qed.

Lemma patternGroups_patterns idx entries :
  PatternRecord.pattern <$> (patternGroups idx entries).*2
  = (patternGroups idx entries).*1.
Proof.
  pose proof (patternGroups_records idx entries) as Hall.
  induction Hall as [| [k r] groups (_ & entry & _ & _ & Hr) _ IH];
    [reflexivity |].
  rewrite !fmap_cons, IH. simpl in *. by subst r.
Qed.

Lemma length_firstOccurrences l : length (firstOccurrences l) ≤ length l.
Proof.
  induction l as [| x l IH]; simpl; [done |].
  pose proof (length_filter (λ y, y ≠ x) (firstOccurrences l)). lia.
Qed.

Lemma patternsData_patterns_NoDup words entries :
  NoDup (PatternRecord.pattern <$> patternsData (Some words) (Some entries)).
Proof.
  unfold patternsData, mapValues, byTotalCount.
  rewrite (sort_Permutation PatternRecord.totalCount).
  rewrite patternGroups_patterns, patternGroups_keys.
  apply NoDup_firstOccurrences.
Qed.

(** X3. The records of [patternsData] have pairwise different patterns;
    there are at most as many records as vocabulary entries; and the
    pattern of a record is in lower case and has 2 to 8 letters, so a
    vocabulary pattern of one letter or of more than 8 never gets a
    record. *)
Theorem patternsData_patterns (words : list string) (entries : list (string * Z)) :
  NoDup (PatternRecord.pattern <$> patternsData (Some words) (Some entries))
  ∧ length (patternsData (Some words) (Some entries)) ≤ length entries
  ∧ (∀ r, r ∈ patternsData (Some words) (Some entries) →
       Js.toLowerCase (PatternRecord.pattern r) = PatternRecord.pattern r
       ∧ 2 ≤ String.length (PatternRecord.pattern r) ≤ 8).
Proof.
  split; [apply patternsData_patterns_NoDup | split].
  - unfold patternsData, mapValues, byTotalCount.
    rewrite (sort_Permutation PatternRecord.totalCount).
    rewrite length_fmap, <- (length_fmap fst), patternGroups_keys.
    etrans; [apply length_firstOccurrences |].
    etrans; [apply length_filter |].
    unfold lowerPatterns. by rewrite !length_fmap.
  - intros r Hr. apply elem_of_patternsData in Hr as (k & Hin).
    apply patternGroups_lookup in Hin as (Hkeep & entry & _ & <- & ->).
    simpl. split; [apply toLowerCase_idemp | by apply retained_length in Hkeep].
Qed.

Lemma patternsData_patterns_witness :
  tiesRecord "bc" 7 ∈ patternsData (Some tiesDictionary) (Some tiesPrefixCounts)
  ∧ 2 ≤ String.length (PatternRecord.pattern (tiesRecord "bc" 7)) ≤ 8.
Proof.
  split; [exact (proj1 tiesRecord_elem_of) |].
  exact (proj2 (proj2 (proj2 (patternsData_patterns tiesDictionary tiesPrefixCounts))
                  (tiesRecord "bc" 7) (proj1 tiesRecord_elem_of))).
Defined.

Lemma patternsData_words_of words entries r :
  r ∈ patternsData (Some words) (Some entries) →
  PatternRecord.endsWords r
  = filter (λ w, Js.endsWith (Js.toLowerCase w) (PatternRecord.pattern r) = true)
      words
  ∧ PatternRecord.startsWords r
    = filter (λ w, Js.startsWith (Js.toLowerCase w) (PatternRecord.pattern r) = true)
        words
  ∧ PatternRecord.endsCount r = length (PatternRecord.endsWords r)
  ∧ PatternRecord.startsCount r = length (PatternRecord.startsWords r).
Proof.
  intros Hr. apply elem_of_patternsData in Hr as (k & Hin).
  apply patternGroups_lookup in Hin as (Hkeep & entry & _ & _ & ->).
  apply retained_length in Hkeep.
  unfold recordOf, endsCountOf, startsCountOf.
  cbn [PatternRecord.endsWords PatternRecord.startsWords PatternRecord.pattern
       PatternRecord.endsCount PatternRecord.startsCount].
  split; [by apply endsMap_scan |].
  split; [by apply startsMap_scan | done].
Qed.

(** X4. What a record holds: [endsWords] is the list of the words of the
    dictionary whose lower-case form ends with the pattern, in dictionary
    order, [startsWords] the list of those that start with it, and the
    two counts are the lengths of the two lists. *)
Theorem patternsData_words (words : list string) (entries : list (string * Z))
    (r : PatternRecord.t) :
  r ∈ patternsData (Some words) (Some entries) →
  PatternRecord.endsWords r
  = filter (λ w, Js.endsWith (Js.toLowerCase w) (PatternRecord.pattern r) = true)
      words
  ∧ PatternRecord.startsWords r
    = filter (λ w, Js.startsWith (Js.toLowerCase w) (PatternRecord.pattern r) = true)
        words
  ∧ PatternRecord.endsCount r = length (PatternRecord.endsWords r)
  ∧ PatternRecord.startsCount r = length (PatternRecord.startsWords r).
Proof. apply patternsData_words_of. Qed.

Lemma patternsData_words_witness :
  tiesRecord "bc" 7 ∈ patternsData (Some tiesDictionary) (Some tiesPrefixCounts)
  ∧ PatternRecord.endsWords (tiesRecord "bc" 7)
    = filter (λ w, Js.endsWith (Js.toLowerCase w) "bc" = true) tiesDictionary.
Proof.
  split; [exact (proj1 tiesRecord_elem_of) |].
  exact (proj1 (patternsData_words tiesDictionary tiesPrefixCounts
                  (tiesRecord "bc" 7) (proj1 tiesRecord_elem_of))).
Defined.

(** ** The drill set of the aggregated records *)

Lemma elem_of_flat_map {A B} (f : A → list B) (l : list A) (y : B) :
  y ∈ flat_map f l ↔ ∃ x, x ∈ l ∧ y ∈ f x.
Proof.
  rewrite list_elem_of_In, in_flat_map.
  split; intros (x & Hx & Hy); exists x.
  - by rewrite !list_elem_of_In.
  - by rewrite <- !list_elem_of_In.
Qed.

Lemma elem_of_drillEntries d p :
  d ∈ drillEntries AllTypes None p →
  (d = endsEntry p
   ∧ withinDrillBounds (PatternRecord.endsCount p) (PatternRecord.length p) = true)
  ∨ (d = startsEntry p
     ∧ withinDrillBounds (PatternRecord.startsCount p) (PatternRecord.length p) = true).
Proof.
  unfold drillEntries. simpl. rewrite !andb_true_r, elem_of_app.
  intros [Hd | Hd]; [left | right];
    destruct (withinDrillBounds _ _); try (by apply elem_of_nil in Hd);
    by apply list_elem_of_singleton in Hd.
Qed.

Lemma rarePatterns_sublist records customPatternInput patternTypeFilter :
  rarePatterns records customPatternInput patternTypeFilter
  `sublist_of` flat_map (drillEntries AllTypes None) records.
Proof.
  unfold rarePatterns. rewrite foldl_splitPattern. simpl.
  destruct (Js.truthy _); [etrans; [apply sublist_filter |] |];
    destruct patternTypeFilter; try done; apply sublist_filter.
Qed.

Lemma elem_of_rarePatterns d records customPatternInput patternTypeFilter :
  d ∈ rarePatterns records customPatternInput patternTypeFilter →
  ∃ p, p ∈ records
       ∧ ((d = endsEntry p
           ∧ withinDrillBounds (PatternRecord.endsCount p) (PatternRecord.length p)
             = true)
          ∨ (d = startsEntry p
             ∧ withinDrillBounds (PatternRecord.startsCount p) (PatternRecord.length p)
               = true)).
Proof.
  intros Hd.
  eapply elem_of_sublist in Hd; [| apply rarePatterns_sublist].
  apply elem_of_flat_map in Hd as (p & Hp & Hd).
  exists p. split; [done |]. by apply elem_of_drillEntries.
Qed.

Lemma withinDrillBounds_true count len :
  withinDrillBounds count len = true → 2 ≤ count ≤ 15 ∧ (3 ≤ len)%Z.
Proof.
  unfold withinDrillBounds. rewrite !andb_true_iff.
  intros [[H2 H15] H3].
  apply Nat.leb_le in H2, H15. apply Z.leb_le in H3. lia.
Qed.

(** X5. Every entry of the drill set built from [patternsData] has 2 to
    15 words, as many as its [count] says, and a [length] of at least 3;
    its words are the words of the dictionary whose lower-case form ends
    with the pattern (ENDS entry), respectively starts with it (STARTS
    entry), in dictionary order. *)
Theorem rarePatterns_entries (words : list string) (entries : list (string * Z))
    (customPatternInput : string) (patternTypeFilter : TypeFilter)
    (d : DrillablePattern.t) :
  d ∈ rarePatterns (patternsData (Some words) (Some entries))
        customPatternInput patternTypeFilter →
  DrillablePattern.count d = length (DrillablePattern.words d)
  ∧ 2 ≤ DrillablePattern.count d ≤ 15
  ∧ (3 ≤ DrillablePattern.length d)%Z
  ∧ DrillablePattern.words d
    = filter (λ w, match DrillablePattern.type d with
                   | Ends => Js.endsWith (Js.toLowerCase w) (DrillablePattern.pattern d)
                   | Starts => Js.startsWith (Js.toLowerCase w) (DrillablePattern.pattern d)
                   end = true)
        words.
Proof.
  intros Hd. apply elem_of_rarePatterns in Hd as (p & Hp & Hd).
  destruct (patternsData_words_of words entries p Hp)
    as (Hends & Hstarts & HendsCount & HstartsCount).
  destruct Hd as [[-> Hbounds] | [-> Hbounds]];
    apply withinDrillBounds_true in Hbounds; simpl; by repeat split; try lia.
Qed.

Lemma sampleChallenge_elem_of :
  sampleChallenge
  ∈ rarePatterns (patternsData (Some sampleDictionary) (Some samplePrefixCounts))
      "" AllTypes.
Proof. vm_compute. left. Qed.

Lemma rarePatterns_entries_witness :
  sampleChallenge
  ∈ rarePatterns (patternsData (Some sampleDictionary) (Some samplePrefixCounts))
      "" AllTypes
  ∧ DrillablePattern.count sampleChallenge
    = length (DrillablePattern.words sampleChallenge).
Proof.
  split; [exact sampleChallenge_elem_of |].
  exact (proj1 (rarePatterns_entries sampleDictionary samplePrefixCounts ""
                  AllTypes sampleChallenge sampleChallenge_elem_of)).
Defined.

(** ** Pattern keys *)

Lemma app_String c a b : String c a +:+ b = String c (a +:+ b).
Proof. reflexivity. Qed.

Lemma list_ascii_of_string_app a b :
  String.list_ascii_of_string (a +:+ b)
  = String.list_ascii_of_string a ++ String.list_ascii_of_string b.
Proof.
  induction a as [| c a IH]; [reflexivity |].
  rewrite app_String. simpl. by rewrite IH.
Qed.

Lemma list_ascii_of_string_inj a b :
  String.list_ascii_of_string a = String.list_ascii_of_string b → a = b.
Proof.
  intros Heq.
  rewrite <- (String.string_of_list_ascii_of_string a), Heq.
  apply String.string_of_list_ascii_of_string.
Qed.

(** The key of an entry determines its pattern and its type. *)
Lemma patternKey_inj d1 d2 :
  patternKey d1 = patternKey d2 →
  DrillablePattern.pattern d1 = DrillablePattern.pattern d2
  ∧ DrillablePattern.type d1 = DrillablePattern.type d2.
Proof.
  unfold patternKey. intros Hkey.
  apply (f_equal String.list_ascii_of_string) in Hkey.
  rewrite !list_ascii_of_string_app in Hkey.
  destruct (DrillablePattern.type d1), (DrillablePattern.type d2);
    cbn [typeName] in Hkey.
  - rewrite !app_assoc in Hkey.
    apply app_inj_2 in Hkey as [Hp _]; [| reflexivity].
    apply app_inj_2 in Hp as [Hp _]; [| reflexivity].
    by apply list_ascii_of_string_inj in Hp.
  - change (String.list_ascii_of_string "starts")
      with (String.list_ascii_of_string "st" ++ String.list_ascii_of_string "arts")
      in Hkey.
    rewrite !app_assoc in Hkey.
    apply app_inj_2 in Hkey as [_ Hsuffix]; [| reflexivity].
    vm_compute in Hsuffix. discriminate.
  - change (String.list_ascii_of_string "starts")
      with (String.list_ascii_of_string "st" ++ String.list_ascii_of_string "arts")
      in Hkey.
    rewrite !app_assoc in Hkey.
    apply app_inj_2 in Hkey as [_ Hsuffix]; [| reflexivity].
    vm_compute in Hsuffix. discriminate.
  - rewrite !app_assoc in Hkey.
    apply app_inj_2 in Hkey as [Hp _]; [| reflexivity].
    apply app_inj_2 in Hp as [Hp _]; [| reflexivity].
    by apply list_ascii_of_string_inj in Hp.
Qed.

Lemma NoDup_patternKey_drillEntries records :
  NoDup (PatternRecord.pattern <$> records) →
  NoDup (patternKey <$> flat_map (drillEntries AllTypes None) records).
Proof.
  induction records as [| p records IH]; [constructor |].
  rewrite fmap_cons. intros [Hnew Hdistinct]%NoDup_cons.
  simpl. rewrite fmap_app. apply NoDup_app. split; [| split].
  - unfold drillEntries. simpl. rewrite !andb_true_r.
    destruct (withinDrillBounds (PatternRecord.endsCount p) _),
      (withinDrillBounds (PatternRecord.startsCount p) _); simpl;
      repeat constructor; try (by intros ?%elem_of_nil).
    intros Hsame%list_elem_of_singleton.
    by apply patternKey_inj in Hsame as [_ ?].
  - intros key (d & -> & Hd)%list_elem_of_fmap (d' & Hkey & Hd')%list_elem_of_fmap.
    apply elem_of_flat_map in Hd' as (p' & Hp' & Hd').
    apply patternKey_inj in Hkey as [Hpattern _].
    apply Hnew. apply list_elem_of_fmap. exists p'. split; [| done].
    apply elem_of_drillEntries in Hd as [[-> _] | [-> _]];
      apply elem_of_drillEntries in Hd' as [[-> _] | [-> _]]; exact Hpattern.
  - by apply IH.
Qed.

Lemma sublist_fmap_NoDup {A B} (f : A → B) (l1 l2 : list A) :
  l1 `sublist_of` l2 → NoDup (f <$> l2) → NoDup (f <$> l1).
Proof.
  intros Hsub Hdistinct. eapply sublist_NoDup; [exact Hdistinct |].
  clear Hdistinct.
  induction Hsub as [| x l1 l2 Hsub IH | x l1 l2 Hsub IH];
    [apply sublist_nil | rewrite !fmap_cons; by apply sublist_skip
    | rewrite fmap_cons; by apply sublist_cons].
Qed.

Lemma NoDup_patternKey_rarePatterns words entries customPatternInput patternTypeFilter :
  NoDup (patternKey
           <$> rarePatterns (patternsData (Some words) (Some entries))
                 customPatternInput patternTypeFilter).
Proof.
  eapply sublist_fmap_NoDup; [apply rarePatterns_sublist |].
  apply NoDup_patternKey_drillEntries.
  apply (patternsData_patterns_NoDup words entries).
Qed.

Lemma NoDup_fmap_elem_inj {A B} (f : A → B) (l : list A) x y :
  NoDup (f <$> l) → x ∈ l → y ∈ l → f x = f y → x = y.
Proof.
  induction l as [| z l IH]; [by intros _ ?%elem_of_nil |].
  rewrite fmap_cons. intros [Hnew Hdistinct]%NoDup_cons.
  intros [-> | Hx]%elem_of_cons [-> | Hy]%elem_of_cons Hsame; [done | | |].
  - destruct Hnew. rewrite Hsame. by apply list_elem_of_fmap_2.
  - destruct Hnew. rewrite <- Hsame. by apply list_elem_of_fmap_2.
  - by apply IH.
Qed.

(** X6. On the drill set built from [patternsData] a key names one entry:
    two entries with the same key are the same entry, and "Select All
    Visible" leaves a selection without repetitions. *)
Theorem selectAllRare_keys (words : list string) (entries : list (string * Z))
    (s : AppState) :
  NoDup (selectedPatterns
           (selectAllRare (patternsData (Some words) (Some entries)) s))
  ∧ (∀ d1 d2,
       d1 ∈ rarePatterns (patternsData (Some words) (Some entries))
              (customPatternInput s) (patternTypeFilter s) →
       d2 ∈ rarePatterns (patternsData (Some words) (Some entries))
              (customPatternInput s) (patternTypeFilter s) →
       patternKey d1 = patternKey d2 → d1 = d2).
Proof.
  split; [apply NoDup_patternKey_rarePatterns |].
  intros d1 d2. apply NoDup_fmap_elem_inj, NoDup_patternKey_rarePatterns.
Qed.

Lemma selectAllRare_keys_witness :
  sampleChallenge
  ∈ rarePatterns (patternsData (Some sampleDictionary) (Some samplePrefixCounts))
      (customPatternInput initialState) (patternTypeFilter initialState)
  ∧ patternKey sampleChallenge = patternKey sampleChallenge
  ∧ sampleChallenge = sampleChallenge.
Proof.
  split; [exact sampleChallenge_elem_of |].
  split; [reflexivity |].
  exact (proj2 (selectAllRare_keys sampleDictionary samplePrefixCounts initialState)
           sampleChallenge sampleChallenge
           sampleChallenge_elem_of sampleChallenge_elem_of eq_refl).
Defined.

(** ** The selection *)

Lemma filter_ne_snoc (key : string) (l : list string) :
  key ∉ l → filter (λ p, p ≠ key) (l ++ [key]) = l.
Proof.
  intros Hout. rewrite filter_app, filter_cons, decide_False by (by intros ?).
  rewrite filter_nil, app_nil_r.
  induction l as [| x l IH]; [done |].
  apply not_elem_of_cons in Hout as [Hne Hout].
  rewrite filter_cons, decide_True by done. by rewrite IH.
Qed.

(** X7. Ticking a pattern adds its key at the end of the selection if it
    is not selected and removes it if it is; the other keys stay; a
    selection without repetitions stays so; ticking twice a key that was
    not selected restores the state, and ticking twice a selected key
    moves it to the end. *)
Theorem togglePatternSelection_selection (key : string) (s : AppState) :
  (∀ k, k ∈ selectedPatterns (togglePatternSelection key s)
        ↔ (k = key ∧ key ∉ selectedPatterns s)
          ∨ (k ≠ key ∧ k ∈ selectedPatterns s))
  ∧ (NoDup (selectedPatterns s) →
     NoDup (selectedPatterns (togglePatternSelection key s)))
  ∧ (key ∉ selectedPatterns s →
     togglePatternSelection key (togglePatternSelection key s) = s)
  ∧ (key ∈ selectedPatterns s →
     selectedPatterns (togglePatternSelection key (togglePatternSelection key s))
     = filter (λ p, p ≠ key) (selectedPatterns s) ++ [key]).
Proof.
  unfold togglePatternSelection, functional. simpl.
  split; [| split; [| split]].
  - intros k. case_bool_decide as Hin.
    + rewrite list_elem_of_filter. split; [intros [? ?]; by right |].
      intros [[_ ?] | [? ?]]; done.
    + rewrite elem_of_app, list_elem_of_singleton.
      destruct (decide (k = key)) as [-> | Hne].
      * split; [intros _; by left | intros _; by right].
      * split; [intros [? | ?]; [by right | done] |].
        intros [[? _] | [_ ?]]; [done | by left].
  - intros Hdistinct. case_bool_decide as Hin; [by apply NoDup_filter |].
    apply NoDup_app. split; [done |]. split; [| apply NoDup_singleton].
    intros k Hk ->%list_elem_of_singleton. done.
  - intros Hout. rewrite (bool_decide_eq_false_2 _ Hout).
    rewrite bool_decide_eq_true_2 by (apply elem_of_app; right; left).
    rewrite filter_ne_snoc by done. by destruct s.
  - intros Hin. rewrite (bool_decide_eq_true_2 _ Hin).
    rewrite bool_decide_eq_false_2; [done |].
    rewrite list_elem_of_filter. by intros [? _].
Qed.

Lemma togglePatternSelection_selection_witness :
  NoDup (selectedPatterns initialState)
  ∧ ("ing_ends" ∉ selectedPatterns initialState)
  ∧ NoDup (selectedPatterns (togglePatternSelection "ing_ends" initialState))
  ∧ togglePatternSelection "ing_ends"
      (togglePatternSelection "ing_ends" initialState)
    = initialState.
Proof.
  assert (NoDup (selectedPatterns initialState)) as Hdistinct by constructor.
  assert ("ing_ends" ∉ selectedPatterns initialState) as Hout
    by apply not_elem_of_nil.
  destruct (togglePatternSelection_selection "ing_ends" initialState)
    as (_ & Hkeep & Hback & _).
  split; [exact Hdistinct |].
  split; [exact Hout |].
  split; [exact (Hkeep Hdistinct) | exact (Hback Hout)].
Defined.

(** ** Resolving the challenge *)

Lemma iter_nextChallenge n s :
  isStudying (Nat.iter n nextChallenge s) = isStudying s
  ∧ selectedPatterns (Nat.iter n nextChallenge s) = selectedPatterns s
  ∧ customPatternInput (Nat.iter n nextChallenge s) = customPatternInput s
  ∧ patternTypeFilter (Nat.iter n nextChallenge s) = patternTypeFilter s
  ∧ currentChallengeIndex (Nat.iter n nextChallenge s) = currentChallengeIndex s + n
  ∧ correctAnswers (Nat.iter n nextChallenge s) = correctAnswers s
  ∧ totalAttempts (Nat.iter n nextChallenge s) = totalAttempts s
  ∧ learnMode (Nat.iter n nextChallenge s) = learnMode s.
Proof.
  induction n as [| n (H1 & H2 & H3 & H4 & H5 & H6 & H7 & H8)]; simpl.
  { repeat split; lia. }
  repeat split; try done. lia.
Qed.

Lemma currentChallenge_ext patternsData s1 s2 :
  isStudying s1 = isStudying s2 →
  selectedPatterns s1 = selectedPatterns s2 →
  customPatternInput s1 = customPatternInput s2 →
  patternTypeFilter s1 = patternTypeFilter s2 →
  currentChallengeIndex s1 `mod` length (selectedPatterns s1)
  = currentChallengeIndex s2 `mod` length (selectedPatterns s2) →
  currentChallenge patternsData s1 = currentChallenge patternsData s2.
Proof.
  unfold currentChallenge. by intros -> -> -> -> ->.
Qed.

Lemma find_patternKey (l : list DrillablePattern.t) d :
  d ∈ l →
  ∃ d', List.find (λ p, bool_decide (patternKey p = patternKey d)) l = Some d'
        ∧ d' ∈ l ∧ patternKey d' = patternKey d.
Proof.
  intros Hd.
  destruct (List.find _ l) as [d' |] eqn:Hfind.
  - apply find_some in Hfind as [Hin Hkey].
    exists d'. split; [done |]. split; [by apply list_elem_of_In |].
    by apply bool_decide_eq_true in Hkey.
  - apply list_elem_of_In in Hd.
    pose proof (find_none _ _ Hfind _ Hd) as Hno. simpl in Hno.
    by rewrite bool_decide_eq_true_2 in Hno.
Qed.

(** X8. After "Select All Visible" on a drill set that is not empty the
    session starts without alert, and the challenge resolves at every
    challenge index: after any number of "Next" it is an entry of the
    drill set, with the key of the entry whose position is the index
    modulo the size of the drill set. *)
Theorem selectAllRare_startStudy
    (patternsData : list PatternRecord.t) (mode : LearnMode) (s : AppState) :
  rarePatterns patternsData (customPatternInput s) (patternTypeFilter s) ≠ [] →
  (startStudy mode (selectAllRare patternsData s)).2 = None
  ∧ ∀ n, ∃ d,
      currentChallenge patternsData
        (Nat.iter n nextChallenge (startStudy mode (selectAllRare patternsData s)).1)
      = Some d
      ∧ d ∈ rarePatterns patternsData (customPatternInput s) (patternTypeFilter s)
      ∧ (patternKey
           <$> rarePatterns patternsData (customPatternInput s) (patternTypeFilter s))
          !! (n `mod` length
                (rarePatterns patternsData (customPatternInput s) (patternTypeFilter s)))
         = Some (patternKey d).
Proof.
  intros Hdrill.
  set (drill := rarePatterns patternsData (customPatternInput s) (patternTypeFilter s))
    in *.
  assert (length drill ≠ 0) as Hlen by (by destruct drill).
  unfold startStudy, selectAllRare. simpl. fold drill.
  rewrite length_fmap. destruct (length drill =? 0) eqn:Hzero;
    [by apply Nat.eqb_eq in Hzero |].
  split; [done |]. intros n.
  match goal with |- context [Nat.iter n nextChallenge ?st] => set (s1 := st) end.
  destruct (iter_nextChallenge n s1) as (H1 & H2 & H3 & H4 & H5 & _).
  unfold currentChallenge. rewrite H1, H2, H3, H4, H5. simpl. fold drill.
  rewrite length_fmap, Hzero. simpl.
  destruct (lookup_lt_is_Some_2 drill (n `mod` length drill)) as [d Hd];
    [by apply Nat.mod_upper_bound |].
  rewrite list_lookup_fmap, Hd. simpl.
  destruct (find_patternKey drill d) as (d' & Hfind & Hin & Hkey);
    [by eapply list_elem_of_lookup_2 |].
  exists d'. rewrite Hfind, Hkey. done.
Qed.

Lemma selectAllRare_startStudy_witness :
  rarePatterns samplePatterns (customPatternInput initialState)
    (patternTypeFilter initialState) ≠ []
  ∧ (startStudy Find (selectAllRare samplePatterns initialState)).2 = None.
Proof.
  assert (rarePatterns samplePatterns (customPatternInput initialState)
            (patternTypeFilter initialState) ≠ []) as Hdrill
    by (vm_compute; discriminate).
  split; [exact Hdrill |].
  exact (proj1 (selectAllRare_startStudy samplePatterns Find initialState Hdrill)).
Defined.

(** X9. The challenges come round: after as many "Next" as there are
    selected patterns the challenge is the one before, and the two
    counters are as they were. *)
Theorem nextChallenge_wraps (patternsData : list PatternRecord.t) (s : AppState) :
  currentChallenge patternsData
    (Nat.iter (length (selectedPatterns s)) nextChallenge s)
  = currentChallenge patternsData s
  ∧ correctAnswers (Nat.iter (length (selectedPatterns s)) nextChallenge s)
    = correctAnswers s
  ∧ totalAttempts (Nat.iter (length (selectedPatterns s)) nextChallenge s)
    = totalAttempts s.
Proof.
  destruct (iter_nextChallenge (length (selectedPatterns s)) s)
    as (H1 & H2 & H3 & H4 & H5 & H6 & H7 & _).
  split; [| done].
  apply currentChallenge_ext; try done.
  rewrite H2, H5.
  rewrite <- (Nat.mul_1_l (length (selectedPatterns s))) at 1.
  apply Nat.Div0.mod_add.
Qed.

(** ** Guesses that cannot succeed, and the guards of the submit handlers *)

Lemma length_app a b :
  String.length (a +:+ b) = String.length a + String.length b.
Proof.
  induction a as [| c a IH]; [reflexivity |].
  rewrite app_String. simpl. by rewrite IH.
Qed.

Lemma truthy_length s : Js.truthy s = true → 1 ≤ String.length s.
Proof. destruct s; [done | simpl; lia]. Qed.

Lemma fullWordOf_longer challenge raw :
  nonBlank raw →
  String.length (Js.toLowerCase (DrillablePattern.pattern challenge))
  < String.length (fullWordOf challenge raw).
Proof.
  unfold nonBlank, fullWordOf. intros Hraw.
  assert (1 ≤ String.length (Js.trim (Js.toLowerCase raw))) as Hinput.
  { apply truthy_length. by rewrite trim_toLowerCase, truthy_toLowerCase. }
  destruct (DrillablePattern.type challenge); rewrite length_app; lia.
Qed.

Lemma foundWords_submitGuess patternsData raw s challenge :
  currentChallenge patternsData s = Some challenge →
  foundWords (submitGuess patternsData raw s) = foundWords s
  ∨ (nonBlank raw
     ∧ foundWords (submitGuess patternsData raw s)
       = foundWords s ∪ {[fullWordOf challenge raw]}).
Proof.
  intros Hchallenge.
  destruct (Js.truthy (Js.trim raw)) eqn:Hraw.
  - rewrite (submitGuess_unfold _ _ _ _ Hchallenge Hraw). cbv zeta.
    repeat case_match; simpl; auto.
  - left. unfold submitGuess, checkAnswer.
    rewrite currentChallenge_setUserAnswer, Hchallenge. simpl.
    by rewrite Hraw.
Qed.

(** X10. A non-blank guess always builds a word longer than the pattern,
    so the pattern itself is never among the found words: a challenge
    word that is equal to the pattern cannot be found, whatever is
    typed. *)
Theorem checkAnswer_never_finds_pattern
    (patternsData : list PatternRecord.t) (challenge : DrillablePattern.t)
    (raws : list string) (s : AppState) :
  currentChallenge patternsData s = Some challenge →
  Js.toLowerCase (DrillablePattern.pattern challenge) ∉ foundWords s →
  Js.toLowerCase (DrillablePattern.pattern challenge)
  ∉ foundWords (submitGuessAll patternsData raws s).
Proof.
  revert s. induction raws as [| raw raws IH]; intros s Hchallenge Hout; [done |].
  unfold submitGuessAll in *. simpl. apply IH.
  - by rewrite currentChallenge_submitGuess.
  - destruct (foundWords_submitGuess patternsData raw s challenge Hchallenge)
      as [-> | [Hraw ->]]; [done |].
    rewrite elem_of_union, elem_of_singleton. intros [? | Hsame]; [done |].
    pose proof (fullWordOf_longer challenge raw Hraw) as Hlonger.
    rewrite <- Hsame in Hlonger. lia.
Qed.

Lemma checkAnswer_never_finds_pattern_witness :
  currentChallenge samplePatterns (sampleSession Find) = Some sampleChallenge
  ∧ (Js.toLowerCase (DrillablePattern.pattern sampleChallenge)
     ∉ foundWords (sampleSession Find))
  ∧ (Js.toLowerCase (DrillablePattern.pattern sampleChallenge)
     ∉ foundWords (submitGuessAll samplePatterns [" "; "runn"] (sampleSession Find))).
Proof.
  assert (Js.toLowerCase (DrillablePattern.pattern sampleChallenge)
          ∉ foundWords (sampleSession Find)) as Hout
    by apply not_elem_of_empty.
  split; [exact (sampleSession_challenge Find) |].
  split; [exact Hout |].
  exact (checkAnswer_never_finds_pattern samplePatterns sampleChallenge
           [" "; "runn"] (sampleSession Find) (sampleSession_challenge Find) Hout).
Defined.

(** X11. Past the last word [checkRepeatWord] fails: with a resolved
    challenge, a non-blank answer and [currentWordIndex] at or beyond the
    length of the word list, it throws before any setter is called.  The
    screen shows no answer field in that state, and a submit there does
    nothing. *)
Theorem checkRepeatWord_past_end
    (patternsData : list PatternRecord.t) (s : AppState)
    (challenge : DrillablePattern.t) :
  currentChallenge patternsData s = Some challenge →
  nonBlank (userAnswer s) →
  length (DrillablePattern.words challenge) ≤ currentWordIndex s →
  checkRepeatWord patternsData s = Throws
  ∧ (learnMode s = Repeat → learnStep patternsData PressSubmit s = s).
Proof.
  intros Hchallenge Hraw Hend. split.
  - unfold checkRepeatWord. rewrite Hchallenge.
    unfold nonBlank in Hraw. rewrite Hraw. cbn [negb].
    rewrite lookup_ge_None_2; done.
  - intros Hmode. unfold learnStep.
    destruct (isStudying s); [| done].
    unfold answering. rewrite Hmode. unfold wordPending. rewrite Hchallenge.
    cbn [from_option]. rewrite (proj2 (Nat.ltb_ge _ _) Hend). done.
Qed.

Lemma sampleSessionAtEnd_challenge :
  currentChallenge samplePatterns (setUserAnswer "again" sampleSessionAtEnd)
  = Some sampleChallenge.
Proof. vm_compute. reflexivity. Qed.

Lemma checkRepeatWord_past_end_witness :
  currentChallenge samplePatterns (setUserAnswer "again" sampleSessionAtEnd)
  = Some sampleChallenge
  ∧ nonBlank (userAnswer (setUserAnswer "again" sampleSessionAtEnd))
  ∧ length (DrillablePattern.words sampleChallenge)
    ≤ currentWordIndex (setUserAnswer "again" sampleSessionAtEnd)
  ∧ checkRepeatWord samplePatterns (setUserAnswer "again" sampleSessionAtEnd)
    = Throws.
Proof.
  assert (nonBlank (userAnswer (setUserAnswer "again" sampleSessionAtEnd))) as Hraw
    by reflexivity.
  assert (length (DrillablePattern.words sampleChallenge)
          ≤ currentWordIndex (setUserAnswer "again" sampleSessionAtEnd)) as Hend
    by (simpl; lia).
  split; [exact sampleSessionAtEnd_challenge |].
  split; [exact Hraw |].
  split; [exact Hend |].
  exact (proj1 (checkRepeatWord_past_end samplePatterns
                  (setUserAnswer "again" sampleSessionAtEnd) sampleChallenge
                  sampleSessionAtEnd_challenge Hraw Hend)).
Defined.

(** X12. A blank answer (empty, or white space only) or an unresolved
    challenge makes both submit handlers return at once: the state is
    left as it is, the answer field is not cleared and no attempt is
    counted. *)
Theorem submit_guards (patternsData : list PatternRecord.t) (s : AppState) :
  Js.trim (userAnswer s) = "" ∨ currentChallenge patternsData s = None →
  checkAnswer patternsData s = s
  ∧ checkRepeatWord patternsData s = Returns s.
Proof.
  unfold checkAnswer, checkRepeatWord.
  intros [Hblank | Hunresolved].
  - rewrite Hblank. simpl. by destruct (currentChallenge patternsData s).
  - by rewrite Hunresolved.
Qed.

Lemma submit_guards_witness :
  (Js.trim (userAnswer (setUserAnswer "   " (sampleSession Find))) = ""
   ∨ currentChallenge samplePatterns (setUserAnswer "   " (sampleSession Find))
     = None)
  ∧ checkAnswer samplePatterns (setUserAnswer "   " (sampleSession Find))
    = setUserAnswer "   " (sampleSession Find).
Proof.
  assert (Js.trim (userAnswer (setUserAnswer "   " (sampleSession Find))) = ""
          ∨ currentChallenge samplePatterns
              (setUserAnswer "   " (sampleSession Find)) = None) as Hguard
    by (left; reflexivity).
  split; [exact Hguard |].
  exact (proj1 (submit_guards samplePatterns
                  (setUserAnswer "   " (sampleSession Find)) Hguard)).
Defined.

(** ** The states the learn screen can reach *)

(** The outcomes of [checkRepeatWord]. *)
Lemma checkRepeatWord_cases patternsData s s' :
  checkRepeatWord patternsData s = Returns s' →
  s' = s
  ∨ s' = setUserAnswer "" (setTotalAttempts (totalAttempts s + 1) s)
  ∨ (hideWord s = true
     ∧ currentWordIndex s < challengeSize patternsData s
     ∧ s' = setUserAnswer ""
              (setTotalAttempts (totalAttempts s + 1)
                 (setCorrectAnswers (correctAnswers s + 1)
                    (setHideWord false
                       (setRepeatCount 0
                          (setCurrentWordIndex (currentWordIndex s + 1) s))))))
  ∨ (hideWord s = false ∧ 3 ≤ repeatCount s + 1
     ∧ s' = setUserAnswer ""
              (setTotalAttempts (totalAttempts s + 1)
                 (setRepeatCount 0 (setHideWord true s))))
  ∨ (hideWord s = false ∧ repeatCount s + 1 < 3
     ∧ s' = setUserAnswer ""
              (setTotalAttempts (totalAttempts s + 1)
                 (setRepeatCount (repeatCount s + 1) s))).
Proof.
  unfold checkRepeatWord, challengeSize.
  destruct (currentChallenge patternsData s) as [challenge |];
    [| intros [= <-]; by left].
  destruct (negb _); [intros [= <-]; by left |].
  destruct (_ !! _) as [currentWord |] eqn:Hword; [| done].
  apply lookup_lt_Some in Hword. cbv zeta.
  destruct (String.eqb _ _), (hideWord s) eqn:Hhide,
    (3 <=? repeatCount s + 1) eqn:Hthree;
    rewrite ?Nat.leb_le, ?Nat.leb_gt in Hthree; intros [= <-].
  - right. right. left. split; [done |]. split; [exact Hword | reflexivity].
  - right. right. left. split; [done |]. split; [exact Hword | reflexivity].
  - right. right. right. left. split; [done |]. split; [done | reflexivity].
  - right. right. right. right. split; [done |]. split; [done | reflexivity].
  - right. by left.
  - right. by left.
  - right. by left.
  - right. by left.
Qed.

(** The outcomes of [checkAnswer]. *)
Lemma checkAnswer_cases patternsData s :
  checkAnswer patternsData s = s
  ∨ checkAnswer patternsData s = setUserAnswer "" s
  ∨ ∃ challenge fullWord,
      currentChallenge patternsData s = Some challenge
      ∧ (fullWord ∉ attemptedWords s)
      ∧ (checkAnswer patternsData s
         = setUserAnswer ""
             (setTotalAttempts (totalAttempts s + 1)
                (setAttemptedWords (attemptedWords s ∪ {[fullWord]}) s))
         ∨ ((fullWord ∉ foundWords s)
            ∧ (∃ w, w ∈ DrillablePattern.words challenge
                    ∧ Js.toLowerCase w = fullWord)
            ∧ checkAnswer patternsData s
              = setUserAnswer ""
                  (setCorrectAnswers (correctAnswers s + 1)
                     (setFoundWords (foundWords s ∪ {[fullWord]})
                        (setTotalAttempts (totalAttempts s + 1)
                           (setAttemptedWords (attemptedWords s ∪ {[fullWord]})
                              s)))))).
Proof.
  unfold checkAnswer.
  destruct (currentChallenge patternsData s) as [challenge |]; [| by left].
  destruct (negb _); [by left |].
  cbv zeta. case_bool_decide as Hattempted; [right; by left |].
  right. right. exists challenge, (fullWordOf challenge (userAnswer s)).
  split; [done |]. split; [done |].
  destruct (List.find _ _) as [w |] eqn:Hfind; simpl; [| by left].
  destruct (Js.truthy w); simpl; [| by left].
  case_bool_decide as Hfound; simpl; [by left |].
  right. split; [done |]. split; [| done].
  apply find_some in Hfind as [Hin Hw].
  exists w. split; [by apply list_elem_of_In | by apply String.eqb_eq].
Qed.

Ltac modes_solve :=
  unfold modesConsistent in *; simpl in *;
  repeat match goal with
         | H : hideWord ?s = _, H' : context [if hideWord ?s then _ else _] |- _ =>
             rewrite H in H'
         | H : hideWord ?s = _ |- context [if hideWord ?s then _ else _] =>
             rewrite H
         | |- context [if hideWord ?s then _ else _] =>
             destruct (hideWord s) eqn:?
         | H' : context [if hideWord ?s then _ else _] |- _ =>
             destruct (hideWord s) eqn:?
         end;
  intuition (try congruence; try lia).

Lemma learnStep_modesConsistent patternsData ev s :
  modesConsistent s → modesConsistent (learnStep patternsData ev s).
Proof.
  intros Hs. unfold learnStep.
  destruct (isStudying s) eqn:Hstudy.
  - destruct ev as [f | m | v | key | | | v | | | | |]; try exact Hs.
    + destruct (answering patternsData s); [| exact Hs]. modes_solve.
    + destruct (answering patternsData s); [| exact Hs].
      destruct (learnMode s) eqn:Hmode.
      * destruct (checkAnswer_cases patternsData s)
          as [-> | [-> | (ch & fw & _ & _ & [-> | (_ & _ & ->)])]];
          modes_solve.
      * simpl.
        destruct (checkRepeatWord patternsData s) as [s' |] eqn:Hret;
          [| exact Hs].
        apply checkRepeatWord_cases in Hret
          as [-> | [-> | [(Hh & _ & ->) | [(Hh & H3 & ->) | (Hh & H3 & ->)]]]];
          modes_solve.
    + destruct (learnMode s) eqn:Hmode; [exact Hs |].
      destruct (wordPending patternsData s); [| exact Hs]. modes_solve.
    + destruct (learnMode s) eqn:Hmode; [| exact Hs].
      destruct (showAnswer s) eqn:Hshown; [exact Hs |].
      unfold showAllWords. destruct (size (foundWords s) =? 0); modes_solve.
    + destruct (answering patternsData s); [exact Hs |]. modes_solve.
    + modes_solve.
  - destruct ev as [f | m | v | key | | | v | | | | |]; try exact Hs.
    + destruct m; modes_solve.
    + destruct (length (selectedPatterns s) =? 0) eqn:Hempty; [exact Hs |].
      unfold startStudy. rewrite Hempty.
      destruct (learnMode s) eqn:Hmode; modes_solve.
Qed.

Lemma size_add_new (X : gset string) x : x ∉ X → size (X ∪ {[x]}) = size X + 1.
Proof.
  intros Hnew. rewrite size_union by (by apply disjoint_singleton_r).
  by rewrite size_singleton.
Qed.

(** A state whose session fields are the initial ones keeps the books. *)
Lemma foundWordsKept_fresh patternsData s :
  foundWords s = ∅ → attemptedWords s = ∅ → currentWordIndex s = 0 →
  foundWordsKept patternsData s.
Proof.
  intros Hfound Hattempted Hindex. unfold foundWordsKept.
  rewrite Hfound, Hattempted, Hindex, size_empty.
  split; [lia |]. split; [lia |]. split; [done |].
  split; [by intros f ?%not_elem_of_empty | lia].
Qed.

Lemma learnStep_foundWordsKept patternsData ev s :
  modesConsistent s → foundWordsKept patternsData s →
  foundWordsKept patternsData (learnStep patternsData ev s).
Proof.
  intros (Hrc & Hhide & Hidle & Hfind & Hrepeat) Hk.
  pose proof Hk as (Hfound & Hattempted & Hsub & Hmatch & Hindex).
  unfold learnStep.
  destruct (isStudying s) eqn:Hstudy.
  - destruct ev as [f | m | v | key | | | v | | | | |]; try exact Hk.
    + destruct (answering patternsData s); exact Hk.
    + destruct (answering patternsData s) eqn:Hanswering; [| exact Hk].
      destruct (learnMode s) eqn:Hmode.
      * destruct (Hfind eq_refl) as (Hzero & _ & _).
        destruct (checkAnswer_cases patternsData s)
          as [-> | [-> | (ch & fw & Hch & Hnew & [-> | (Hnotfound & Hw & ->)])]];
          [exact Hk | exact Hk | |].
        -- split; [exact Hfound |].
           split; [simpl; rewrite size_add_new by done; lia |].
           split; [simpl; by apply union_subseteq_l' |].
           split; [exact Hmatch | exact Hindex].
        -- split; [simpl; rewrite size_add_new by done; lia |].
           split; [simpl; rewrite size_add_new by done; lia |].
           split; [simpl; by apply union_mono_r |].
           split; [| exact Hindex].
           intros f0 [Hold | ->%elem_of_singleton]%elem_of_union;
             [by apply Hmatch |].
           destruct Hw as (w & Hin & Hlower). by exists ch, w.
      * destruct (Hrepeat eq_refl) as (Hnone & Hnoatt & _ & _).
        simpl.
        destruct (checkRepeatWord patternsData s) as [s' |] eqn:Hret;
          [| exact Hk].
        apply checkRepeatWord_cases in Hret
          as [-> | [-> | [(_ & Hpending & ->) | [(_ & _ & ->) | (_ & _ & ->)]]]];
          try exact Hk.
        -- split; [exact Hfound |]. split; [simpl; lia |].
           split; [exact Hsub |]. split; [exact Hmatch | exact Hindex].
        -- split; [simpl; lia |]. split; [simpl; lia |].
           split; [exact Hsub |]. split; [exact Hmatch |].
           change (currentWordIndex s + 1 ≤ challengeSize patternsData s). lia.
        -- split; [exact Hfound |]. split; [simpl; lia |].
           split; [exact Hsub |]. split; [exact Hmatch | exact Hindex].
        -- split; [exact Hfound |]. split; [simpl; lia |].
           split; [exact Hsub |]. split; [exact Hmatch | exact Hindex].
    + destruct (learnMode s) eqn:Hmode; [exact Hk |].
      destruct (wordPending patternsData s) eqn:Hpending; [| exact Hk].
      apply Nat.ltb_lt in Hpending.
      split; [exact Hfound |]. split; [exact Hattempted |].
      split; [exact Hsub |]. split; [exact Hmatch |].
      change (currentWordIndex s + 1 ≤ challengeSize patternsData s).
      unfold challengeSize. lia.
    + destruct (learnMode s) eqn:Hmode; [| exact Hk].
      destruct (showAnswer s); [exact Hk |].
      unfold showAllWords. destruct (size (foundWords s) =? 0); [| exact Hk].
      split; [exact Hfound |]. split; [simpl; lia |].
      split; [exact Hsub |]. split; [exact Hmatch | exact Hindex].
    + destruct (answering patternsData s); [exact Hk |].
      by apply foundWordsKept_fresh.
    + by apply foundWordsKept_fresh.
  - destruct (Hidle eq_refl) as (_ & _ & Hnone & Hnoatt & Hzero & _).
    assert (∀ s', foundWords s' = foundWords s →
                  attemptedWords s' = attemptedWords s →
                  currentWordIndex s' = currentWordIndex s →
                  foundWordsKept patternsData s') as Hsame.
    { intros s' H1 H2 H3. apply foundWordsKept_fresh; congruence. }
    destruct ev as [f | m | v | key | | | v | | | | |]; try exact Hk;
      try (by apply Hsame).
    destruct (length (selectedPatterns s) =? 0) eqn:Hempty; [exact Hk |].
    unfold startStudy. rewrite Hempty. by apply foundWordsKept_fresh.
Qed.

Lemma learnRun_snoc patternsData events ev :
  learnRun patternsData (events ++ [ev])
  = learnStep patternsData ev (learnRun patternsData events).
Proof. unfold learnRun. by rewrite foldl_app. Qed.

Lemma learnRun_invariants patternsData events :
  modesConsistent (learnRun patternsData events)
  ∧ foundWordsKept patternsData (learnRun patternsData events).
Proof.
  induction events as [| ev events [IHmodes IHkept]] using rev_ind.
  - split; [| by apply foundWordsKept_fresh].
    unfold modesConsistent, learnRun. simpl. repeat split; try done; lia.
  - rewrite learnRun_snoc. split.
    + by apply learnStep_modesConsistent.
    + by apply learnStep_foundWordsKept.
Qed.

(** X13. In every state that the learn screen can reach the fields of the
    two protocols do not mix: [repeatCount] is at most 2 and is 0 while
    the word is hidden; in find mode [currentWordIndex], [repeatCount] and
    [hideWord] are at their initial values; in repeat mode the found and
    attempted sets are empty and the words are not shown; outside a
    session all counters are 0; and [currentWordIndex] never passes the
    number of words of the challenge. *)
Theorem learnRun_modesConsistent
    (patternsData : list PatternRecord.t) (events : list LearnEvent) :
  modesConsistent (learnRun patternsData events)
  ∧ currentWordIndex (learnRun patternsData events)
    ≤ challengeSize patternsData (learnRun patternsData events).
Proof.
  destruct (learnRun_invariants patternsData events) as [Hmodes Hkept].
  split; [exact Hmodes | apply Hkept].
Qed.

Lemma scorePercent_le_25 s :
  4 * correctAnswers s ≤ totalAttempts s →
  (Z.of_nat (totalAttempts s) < 2 ^ 53)%Z →
  ∃ p, scorePercent s = Some p ∧ (0 ≤ p ≤ 25)%Z.
Proof.
  intros Hle Hexact. unfold scorePercent.
  destruct (0 <? totalAttempts s) eqn:Hpos; [| exists 0%Z; split; [done | lia]].
  apply Nat.ltb_lt in Hpos.
  apply (percent_bounds _ _ (-2)%Z); simpl; lia.
Qed.

(** X14. In repeat mode at most one submission in four scores: in every
    reachable state of a repeat-after-me session [totalAttempts] is at
    least four times [correctAnswers], so the percentage of the score
    line, computed on binary64 Numbers as the code does, is a whole number
    of at most 25 (the counters being below [2 ^ 53]). *)
Theorem repeat_score_bound
    (patternsData : list PatternRecord.t) (events : list LearnEvent) :
  learnMode (learnRun patternsData events) = Repeat →
  4 * correctAnswers (learnRun patternsData events)
  ≤ totalAttempts (learnRun patternsData events)
  ∧ ((Z.of_nat (totalAttempts (learnRun patternsData events)) < 2 ^ 53)%Z →
     ∃ p, scorePercent (learnRun patternsData events) = Some p
          ∧ (0 ≤ p ≤ 25)%Z).
Proof.
  intros Hmode.
  destruct (learnRun_invariants patternsData events)
    as [(_ & _ & _ & _ & Hrepeat) _].
  destruct (Hrepeat Hmode) as (_ & _ & _ & Hscore).
  assert (4 * correctAnswers (learnRun patternsData events)
          ≤ totalAttempts (learnRun patternsData events)) as Hbound
    by (destruct (hideWord _); lia).
  split; [exact Hbound | by apply scorePercent_le_25].
Qed.

Lemma size_list_to_set_le (l : list string) :
  size (list_to_set l : gset string) ≤ length l.
Proof.
  induction l as [| x l IH]; [rewrite list_to_set_nil, size_empty; done |].
  rewrite list_to_set_cons, length_cons, size_union_alt, size_singleton.
  pose proof (subseteq_size (list_to_set l ∖ {[x]}) (list_to_set l : gset string))
    as Hle.
  assert (list_to_set l ∖ {[x]} ⊆ (list_to_set l : gset string)) as Hsub
    by apply subseteq_difference_l, reflexivity.
  specialize (Hle Hsub). lia.
Qed.

(** X15. The books of the find protocol: in every reachable state the
    found words are lower-case forms of words of the current challenge,
    so there are never more found words than the challenge has words;
    every found word has scored, and every attempted word was counted. *)
Theorem learnRun_foundWords
    (patternsData : list PatternRecord.t) (events : list LearnEvent)
    (challenge : DrillablePattern.t) :
  currentChallenge patternsData (learnRun patternsData events) = Some challenge →
  size (foundWords (learnRun patternsData events))
  ≤ length (DrillablePattern.words challenge)
  ∧ (∀ f, f ∈ foundWords (learnRun patternsData events) →
       ∃ w, w ∈ DrillablePattern.words challenge ∧ Js.toLowerCase w = f)
  ∧ size (foundWords (learnRun patternsData events))
    ≤ correctAnswers (learnRun patternsData events)
  ∧ size (attemptedWords (learnRun patternsData events))
    ≤ totalAttempts (learnRun patternsData events).
Proof.
  intros Hchallenge.
  destruct (learnRun_invariants patternsData events)
    as [_ (Hfound & Hattempted & _ & Hmatch & _)].
  assert (∀ f, f ∈ foundWords (learnRun patternsData events) →
            ∃ w, w ∈ DrillablePattern.words challenge ∧ Js.toLowerCase w = f)
    as Hwords.
  { intros f Hf. destruct (Hmatch f Hf) as (ch & w & Hch & Hw & Hlower).
    rewrite Hchallenge in Hch. injection Hch as <-. by exists w. }
  split; [| done].
  etrans; [| etrans; [apply (size_list_to_set_le
                              (Js.toLowerCase <$> DrillablePattern.words challenge)) |]];
    [| by rewrite length_fmap].
  apply subseteq_size. intros f Hf.
  apply elem_of_list_to_set, list_elem_of_fmap.
  destruct (Hwords f Hf) as (w & Hw & <-). by exists w.
Qed.

Lemma sampleRepeatRun_state :
  learnMode (learnRun samplePatterns sampleRepeatRun) = Repeat
  ∧ correctAnswers (learnRun samplePatterns sampleRepeatRun) = 1
  ∧ totalAttempts (learnRun samplePatterns sampleRepeatRun) = 4
  ∧ currentWordIndex (learnRun samplePatterns sampleRepeatRun) = 1
  ∧ (Z.of_nat (totalAttempts (learnRun samplePatterns sampleRepeatRun)) < 2 ^ 53)%Z.
Proof. vm_compute. done. Qed.

Example sampleRepeatRun_percent :
  scorePercent (learnRun samplePatterns sampleRepeatRun) = Some 25%Z.
Proof. vm_compute. reflexivity. Qed.

Lemma sampleFindRun_challenge :
  currentChallenge samplePatterns (learnRun samplePatterns sampleFindRun)
  = Some sampleChallenge.
Proof. vm_compute. reflexivity. Qed.

Lemma sampleFindRun_state :
  correctAnswers (learnRun samplePatterns sampleFindRun) = 1
  ∧ totalAttempts (learnRun samplePatterns sampleFindRun) = 2.
Proof. vm_compute. done. Qed.

Lemma repeat_score_bound_witness :
  4 * correctAnswers (learnRun samplePatterns sampleRepeatRun)
  ≤ totalAttempts (learnRun samplePatterns sampleRepeatRun)
  ∧ ∃ p, scorePercent (learnRun samplePatterns sampleRepeatRun) = Some p
         ∧ (0 ≤ p ≤ 25)%Z.
Proof.
  split.
  - exact (proj1 (repeat_score_bound samplePatterns sampleRepeatRun
                    (proj1 sampleRepeatRun_state))).
  - exact (proj2 (repeat_score_bound samplePatterns sampleRepeatRun
                    (proj1 sampleRepeatRun_state))
             (proj2 (proj2 (proj2 (proj2 sampleRepeatRun_state))))).
Defined.

Lemma learnRun_foundWords_witness :
  size (foundWords (learnRun samplePatterns sampleFindRun))
  ≤ length (DrillablePattern.words sampleChallenge)
  ∧ (∀ f, f ∈ foundWords (learnRun samplePatterns sampleFindRun) →
       ∃ w, w ∈ DrillablePattern.words sampleChallenge ∧ Js.toLowerCase w = f)
  ∧ size (foundWords (learnRun samplePatterns sampleFindRun))
    ≤ correctAnswers (learnRun samplePatterns sampleFindRun)
  ∧ size (attemptedWords (learnRun samplePatterns sampleFindRun))
    ≤ totalAttempts (learnRun samplePatterns sampleFindRun).
Proof.
  exact (learnRun_foundWords samplePatterns sampleFindRun sampleChallenge
           sampleFindRun_challenge).
Defined.

(** ** Sessions *)

(** While a session runs, nothing but "End Practice" ends it, and nothing
    touches the selection and its two filters. *)
Lemma learnStep_studying patternsData ev s :
  isStudying s = true → ev ≠ ClickEnd →
  isStudying (learnStep patternsData ev s) = true
  ∧ selectedPatterns (learnStep patternsData ev s) = selectedPatterns s
  ∧ customPatternInput (learnStep patternsData ev s) = customPatternInput s
  ∧ patternTypeFilter (learnStep patternsData ev s) = patternTypeFilter s.
Proof.
  intros Hstudy Hev. unfold learnStep. rewrite Hstudy.
  destruct ev as [f | m | v | key | | | v | | | | |]; try done.
  - by destruct (answering patternsData s).
  - destruct (answering patternsData s); [| done].
    destruct (learnMode s).
    + destruct (checkAnswer_cases patternsData s)
        as [-> | [-> | (ch & fw & _ & _ & [-> | (_ & _ & ->)])]]; done.
    + simpl.
      destruct (checkRepeatWord patternsData s) as [s' |] eqn:Hret; [| done].
      apply checkRepeatWord_cases in Hret
        as [-> | [-> | [(_ & _ & ->) | [(_ & _ & ->) | (_ & _ & ->)]]]]; done.
  - destruct (learnMode s); [done |].
    by destruct (wordPending patternsData s).
  - destruct (learnMode s); [| done].
    destruct (showAnswer s); [done |].
    unfold showAllWords. by destruct (size (foundWords s) =? 0).
  - by destruct (answering patternsData s).
Qed.

Lemma session_frame patternsData session : ∀ s,
  isStudying s = true → ClickEnd ∉ session →
  isStudying (foldl (λ s ev, learnStep patternsData ev s) s session) = true
  ∧ customPatternInput (foldl (λ s ev, learnStep patternsData ev s) s session)
    = customPatternInput s
  ∧ patternTypeFilter (foldl (λ s ev, learnStep patternsData ev s) s session)
    = patternTypeFilter s.
Proof.
  induction session as [| ev session IH]; intros s Hstudy Hsession; [done |].
  apply not_elem_of_cons in Hsession as [Hev Hsession].
  destruct (learnStep_studying patternsData ev s Hstudy)
    as (Hstudy' & _ & Hinput & Hfilter); [done |].
  simpl. destruct (IH _ Hstudy' Hsession) as (? & ? & ?).
  split; [done |]. split; congruence.
Qed.

Lemma learnStep_idle patternsData ev s :
  (isStudying s = false → userAnswer s = "" ∧ currentChallengeIndex s = 0) →
  isStudying (learnStep patternsData ev s) = false →
  userAnswer (learnStep patternsData ev s) = ""
  ∧ currentChallengeIndex (learnStep patternsData ev s) = 0.
Proof.
  intros Hclean. destruct (isStudying s) eqn:Hstudy.
  - destruct ev as [f | m | v | key | | | v | | | | |];
      try (match goal with
           | |- context [learnStep _ ?e _] =>
               assert (e ≠ ClickEnd) as Hev by done;
               by destruct (learnStep_studying patternsData e s Hstudy Hev)
                    as [-> _]
           end).
    unfold learnStep. by rewrite Hstudy.
  - specialize (Hclean eq_refl). unfold learnStep. rewrite Hstudy.
    destruct ev as [f | m | v | key | | | v | | | | |]; try done.
    destruct (length (selectedPatterns s) =? 0) eqn:Hempty; [done |].
    unfold startStudy. rewrite Hempty. done.
Qed.

Lemma learnRun_idle patternsData events :
  isStudying (learnRun patternsData events) = false →
  userAnswer (learnRun patternsData events) = ""
  ∧ currentChallengeIndex (learnRun patternsData events) = 0.
Proof.
  induction events as [| ev events IH] using rev_ind; [done |].
  rewrite learnRun_snoc. by apply learnStep_idle.
Qed.

(** X16. A session leaves no trace but an empty selection: from a
    selection screen with patterns selected, a start, any session that
    is not ended in between, and "End Practice" lead back to the
    selection screen as it was, except that no pattern is selected any
    more and the learn mode is find; the two filters of the selection
    are as before, and the button to start is disabled again. *)
Theorem session_round_trip
    (patternsData : list PatternRecord.t) (events session : list LearnEvent) :
  isStudying (learnRun patternsData events) = false →
  selectedPatterns (learnRun patternsData events) ≠ [] →
  ClickEnd ∉ session →
  learnRun patternsData (events ++ ClickStart :: session ++ [ClickEnd])
  = setSelectedPatterns [] (setLearnMode Find (learnRun patternsData events))
  ∧ learnRun patternsData
      (events ++ ClickStart :: session ++ [ClickEnd; ClickStart])
    = learnRun patternsData (events ++ ClickStart :: session ++ [ClickEnd]).
Proof.
  intros Hidle Hselected Hsession.
  destruct (learnRun_invariants patternsData events)
    as [(_ & _ & Hfresh & _) _].
  destruct (Hfresh Hidle)
    as (Hcorrect & Htotal & Hfound & Hattempted & Hindex & Hcount & Hhide & Hshow).
  destruct (learnRun_idle patternsData events Hidle) as [Hanswer Hchallenge].
  assert (learnRun patternsData (events ++ ClickStart :: session ++ [ClickEnd])
          = setSelectedPatterns []
              (setLearnMode Find (learnRun patternsData events))) as Hend.
  { unfold learnRun in *. rewrite foldl_app. simpl. rewrite foldl_app. simpl.
    set (s := foldl (λ s ev, learnStep patternsData ev s) initialState events) in *.
    assert (learnStep patternsData ClickStart s = (startStudy (learnMode s) s).1)
      as Hstart.
    { unfold learnStep. rewrite Hidle.
      destruct (selectedPatterns s); [done | done]. }
    assert (isStudying (learnStep patternsData ClickStart s) = true
            ∧ customPatternInput (learnStep patternsData ClickStart s)
              = customPatternInput s
            ∧ patternTypeFilter (learnStep patternsData ClickStart s)
              = patternTypeFilter s) as (Hstudy & Hinput & Hfilter).
    { rewrite Hstart. unfold startStudy.
      destruct (selectedPatterns s); [done | done]. }
    destruct (session_frame patternsData session _ Hstudy Hsession)
      as (Hstudy' & Hinput' & Hfilter').
    unfold learnStep at 1. rewrite Hstudy'.
    unfold resetStudy, batch, setSelectedPatterns, setLearnMode. simpl.
    rewrite Hinput', Hfilter', Hinput, Hfilter.
    destruct s. simpl in *. by subst. }
  split; [exact Hend |].
  replace (events ++ ClickStart :: session ++ [ClickEnd; ClickStart])
    with ((events ++ ClickStart :: session ++ [ClickEnd]) ++ [ClickStart])
    by (rewrite <- !app_assoc; simpl; by rewrite <- app_assoc).
  rewrite learnRun_snoc, Hend. unfold learnStep. simpl. by rewrite Hidle.
Qed.

Lemma sampleSessionEvents_open :
  isStudying (learnRun samplePatterns [TickPattern "ing_ends"]) = false
  ∧ selectedPatterns (learnRun samplePatterns [TickPattern "ing_ends"]) ≠ []
  ∧ ClickEnd ∉ sampleSessionEvents.
Proof.
  split; [reflexivity |]. split; [discriminate |].
  unfold sampleSessionEvents. rewrite !not_elem_of_cons.
  repeat split; try discriminate. apply not_elem_of_nil.
Qed.

Lemma session_round_trip_witness :
  learnRun samplePatterns
    ([TickPattern "ing_ends"] ++ ClickStart :: sampleSessionEvents ++ [ClickEnd])
  = setSelectedPatterns []
      (setLearnMode Find (learnRun samplePatterns [TickPattern "ing_ends"]))
  ∧ learnRun samplePatterns
      ([TickPattern "ing_ends"]
       ++ ClickStart :: sampleSessionEvents ++ [ClickEnd; ClickStart])
    = learnRun samplePatterns
        ([TickPattern "ing_ends"]
         ++ ClickStart :: sampleSessionEvents ++ [ClickEnd]).
Proof.
  exact (session_round_trip samplePatterns [TickPattern "ing_ends"]
           sampleSessionEvents
           (proj1 sampleSessionEvents_open)
           (proj1 (proj2 sampleSessionEvents_open))
           (proj2 (proj2 sampleSessionEvents_open))).
Defined.

(** ** The explore mode *)

Lemma filteredPatterns_sublist patternsData query len rarity :
  filteredPatterns patternsData query len rarity `sublist_of` patternsData.
Proof.
  unfold filteredPatterns.
  destruct (Js.truthy (Js.trim query)), len, rarity;
    repeat (etrans; [apply sublist_filter |]); done.
Qed.

Lemma elem_of_filteredPatterns patternsData query len rarity r :
  r ∈ filteredPatterns patternsData query len rarity
  ↔ r ∈ patternsData
    ∧ (nonBlank query →
       Js.endsWith (PatternRecord.pattern r) (Js.toLowerCase query) = true
       ∨ Js.startsWith (PatternRecord.pattern r) (Js.toLowerCase query) = true)
    ∧ (∀ n, len = Letters n → PatternRecord.length r = n)
    ∧ (∀ class, rarity = Some class →
         getRarityClass (Z.of_nat (PatternRecord.totalCount r)) = class).
Proof.
  unfold filteredPatterns, nonBlank.
  destruct (Js.truthy (Js.trim query)), len as [| n], rarity as [class |];
    rewrite ?list_elem_of_filter, ?orb_true_iff; split.
  all: try (intros (? & ? & ? & ?)); try (intros (? & ? & ?));
    try (intros (? & ?)); try intros ?.
  all: repeat split; try done; try (intros ? [= <-]; done);
    try (intros ? [= <-]); try (intros _); eauto.
Qed.

(** X17. The list of the explore mode holds, in the order of
    [patternsData], exactly the records that pass the three filters: a
    non-blank search keeps the patterns that end or start with the
    lower-case query, a length filter compares the [length] value of the
    record, a rarity filter the class of its total count. *)
Theorem filteredPatterns_selects
    (patternsData : list PatternRecord.t) (query : string) (len : LengthFilter)
    (rarity : option RarityClass) :
  filteredPatterns patternsData query len rarity `sublist_of` patternsData
  ∧ ∀ r,
      r ∈ filteredPatterns patternsData query len rarity
      ↔ r ∈ patternsData
        ∧ (nonBlank query →
           Js.endsWith (PatternRecord.pattern r) (Js.toLowerCase query) = true
           ∨ Js.startsWith (PatternRecord.pattern r) (Js.toLowerCase query) = true)
        ∧ (∀ n, len = Letters n → PatternRecord.length r = n)
        ∧ (∀ class, rarity = Some class →
             getRarityClass (Z.of_nat (PatternRecord.totalCount r)) = class).
Proof.
  split; [apply filteredPatterns_sublist |].
  intros r. apply elem_of_filteredPatterns.
Qed.

Lemma sublist_StronglySorted {A} (R : relation A) (l1 l2 : list A) :
  l1 `sublist_of` l2 → StronglySorted R l2 → StronglySorted R l1.
Proof.
  induction 1 as [| x l1 l2 Hsub IH | x l1 l2 Hsub IH]; intros Hsorted.
  - constructor.
  - apply StronglySorted_inv in Hsorted as [Hrest Hfirst].
    constructor; [by apply IH |].
    rewrite Forall_forall in *. intros y Hy. apply Hfirst.
    by eapply sublist_subseteq.
  - apply StronglySorted_inv in Hsorted as [Hrest _]. by apply IH.
Qed.

(** X18. Whatever the filters, the explore mode lists the records in
    ascending order of their total count, and no pattern twice, so the
    rows have distinct React keys. *)
Theorem filteredPatterns_sorted
    (words : list string) (entries : list (string * Z)) (query : string)
    (len : LengthFilter) (rarity : option RarityClass) :
  StronglySorted
    (λ a b, PatternRecord.totalCount a ≤ PatternRecord.totalCount b)
    (filteredPatterns (patternsData (Some words) (Some entries)) query len rarity)
  ∧ NoDup (PatternRecord.pattern
             <$> filteredPatterns (patternsData (Some words) (Some entries))
                   query len rarity).
Proof.
  split.
  - eapply sublist_StronglySorted; [apply filteredPatterns_sublist |].
    unfold patternsData, byTotalCount.
    apply (sort_sorted PatternRecord.totalCount).
  - eapply sublist_fmap_NoDup; [apply filteredPatterns_sublist |].
    apply patternsData_patterns_NoDup.
Qed.

Lemma patternsData_pattern_length words entries r :
  r ∈ patternsData (Some words) (Some entries) →
  2 ≤ String.length (PatternRecord.pattern r) ≤ 8.
Proof.
  intros Hr. apply elem_of_patternsData in Hr as (k & Hin).
  apply patternGroups_lookup in Hin as (Hkeep & entry & _ & <- & ->).
  simpl. by apply retained_length in Hkeep.
Qed.

Lemma startsWith_length s q :
  Js.startsWith s q = true → String.length q ≤ String.length s.
Proof.
  unfold Js.startsWith. intros Heq%String.eqb_eq.
  rewrite <- Heq at 1. rewrite length_take. lia.
Qed.

Lemma endsWith_length s q :
  Js.endsWith s q = true → String.length q ≤ String.length s.
Proof.
  unfold Js.endsWith. intros [Hle _]%andb_true_iff. by apply Nat.leb_le.
Qed.

Lemma hasWhiteSpace_toLowerCase s : hasWhiteSpace (Js.toLowerCase s) = hasWhiteSpace s.
Proof.
  induction s as [| c r IH]; simpl; [done |].
  by rewrite isWhiteSpace_lowerChar, IH.
Qed.

Lemma hasWhiteSpace_take n : ∀ s,
  hasWhiteSpace (Js.take n s) = true → hasWhiteSpace s = true.
Proof.
  induction n as [| n IH]; intros [| c r]; simpl; try done.
  rewrite !orb_true_iff. intros [? | ?]; [by left | right; by apply IH].
Qed.

Lemma hasWhiteSpace_drop n : ∀ s,
  hasWhiteSpace (Js.drop n s) = true → hasWhiteSpace s = true.
Proof.
  induction n as [| n IH]; intros [| c r]; simpl; try done.
  rewrite orb_true_iff. intros ?. right. by apply IH.
Qed.

Lemma hasWhiteSpace_startsWith s q :
  Js.startsWith s q = true → hasWhiteSpace q = true → hasWhiteSpace s = true.
Proof.
  unfold Js.startsWith. intros Heq%String.eqb_eq Hq. rewrite <- Heq in Hq.
  by eapply hasWhiteSpace_take.
Qed.

Lemma hasWhiteSpace_endsWith s q :
  Js.endsWith s q = true → hasWhiteSpace q = true → hasWhiteSpace s = true.
Proof.
  unfold Js.endsWith. intros [_ Heq%String.eqb_eq]%andb_true_iff Hq.
  rewrite <- Heq in Hq. by eapply hasWhiteSpace_drop.
Qed.

Lemma trimEnd_plain s : hasWhiteSpace s = false → Js.trimEnd s = s.
Proof.
  induction s as [| c r IH]; simpl; [done |].
  intros [Hc Hr]%orb_false_iff. rewrite (IH Hr).
  destruct r; [by rewrite Hc | done].
Qed.

Lemma trim_plain s : hasWhiteSpace s = false → Js.trim s = s.
Proof.
  intros Hplain. unfold Js.trim.
  assert (Js.trimStart s = s) as ->; [| by apply trimEnd_plain].
  destruct s as [| c r]; simpl in *; [done |].
  apply orb_false_iff in Hplain as [-> _]. done.
Qed.

Lemma retained_word words k :
  retained (wordIndices (Some words)) k →
  ∃ w, w ∈ words
       ∧ (Js.endsWith (Js.toLowerCase w) k = true
          ∨ Js.startsWith (Js.toLowerCase w) k = true).
Proof.
  unfold retained, endsCountOf, startsCountOf.
  rewrite endsMap_buckets, startsMap_buckets.
  intros [Hends | Hstarts].
  - destruct (filter _ words) as [| w rest] eqn:Hfilter; [simpl in *; lia |].
    assert (w ∈ filter (λ w, k ∈ keysOf ending w) words) as Hw
      by (rewrite Hfilter; left).
    apply list_elem_of_filter in Hw as [Hkey Hw].
    apply elem_of_keysOf_ending in Hkey as [_ Hkey]. eauto.
  - destruct (filter _ words) as [| w rest] eqn:Hfilter; [simpl in *; lia |].
    assert (w ∈ filter (λ w, k ∈ keysOf start w) words) as Hw
      by (rewrite Hfilter; left).
    apply list_elem_of_filter in Hw as [Hkey Hw].
    apply elem_of_keysOf_start in Hkey as [_ Hkey]. eauto.
Qed.

Lemma patternsData_pattern_plain words entries r :
  Forall (λ w, hasWhiteSpace w = false) words →
  r ∈ patternsData (Some words) (Some entries) →
  hasWhiteSpace (PatternRecord.pattern r) = false.
Proof.
  intros Hplain Hr. apply elem_of_patternsData in Hr as (k & Hin).
  apply patternGroups_lookup in Hin as (Hkeep & entry & _ & <- & ->).
  simpl. apply retained_word in Hkeep as (w & Hw & Haffix).
  rewrite Forall_forall in Hplain. specialize (Hplain w Hw).
  apply not_true_is_false. intros Hspace.
  assert (hasWhiteSpace (Js.toLowerCase w) = true) as Hlower.
  { destruct Haffix as [Hends | Hstarts].
    - by eapply hasWhiteSpace_endsWith.
    - by eapply hasWhiteSpace_startsWith. }
  rewrite hasWhiteSpace_toLowerCase in Hlower. congruence.
Qed.

(** X19. The search of the explore mode ignores case but does not trim:
    a query and its lower-case form give the same list; a non-blank
    query longer than eight code units matches no pattern of the
    aggregation; and when no word of the dictionary holds white space, a
    non-blank query with white space at either end matches none either. *)
Theorem filteredPatterns_query
    (words : list string) (entries : list (string * Z)) (query : string)
    (len : LengthFilter) (rarity : option RarityClass) :
  filteredPatterns (patternsData (Some words) (Some entries))
    (Js.toLowerCase query) len rarity
  = filteredPatterns (patternsData (Some words) (Some entries)) query len rarity
  ∧ (nonBlank query → 8 < String.length query →
     filteredPatterns (patternsData (Some words) (Some entries)) query len rarity
     = [])
  ∧ (nonBlank query → Js.trim query ≠ query →
     Forall (λ w, hasWhiteSpace w = false) words →
     filteredPatterns (patternsData (Some words) (Some entries)) query len rarity
     = []).
Proof.
  split; [| split].
  - unfold filteredPatterns.
    by rewrite trim_toLowerCase, truthy_toLowerCase, toLowerCase_idemp.
  - intros Hquery Hlong. apply elem_of_nil_inv. intros r Hr.
    apply elem_of_filteredPatterns in Hr as (Hr & Hmatch & _).
    apply patternsData_pattern_length in Hr.
    destruct (Hmatch Hquery) as [Hends%endsWith_length | Hstarts%startsWith_length];
      rewrite length_toLowerCase in *; lia.
  - intros Hquery Hspaces Hplain. apply elem_of_nil_inv. intros r Hr.
    apply elem_of_filteredPatterns in Hr as (Hr & Hmatch & _).
    apply (patternsData_pattern_plain _ _ _ Hplain) in Hr.
    assert (hasWhiteSpace query = true) as Hspace.
    { apply not_false_is_true. intros Hnone. by apply trim_plain in Hnone. }
    rewrite <- hasWhiteSpace_toLowerCase in Hspace.
    destruct (Hmatch Hquery) as [Hends | Hstarts].
    + pose proof (hasWhiteSpace_endsWith _ _ Hends Hspace). congruence.
    + pose proof (hasWhiteSpace_startsWith _ _ Hstarts Hspace). congruence.
Qed.

Lemma sample_query_untrimmed :
  nonBlank "ing " ∧ Js.trim "ing " ≠ "ing "
  ∧ Forall (λ w, hasWhiteSpace w = false) sampleDictionary
  ∧ filteredPatterns samplePatterns "ing" AllLengths None ≠ [].
Proof.
  split; [reflexivity |]. split; [discriminate |].
  split; [by repeat constructor |].
  vm_compute. discriminate.
Qed.

Lemma filteredPatterns_query_witness :
  filteredPatterns (patternsData (Some sampleDictionary) (Some samplePrefixCounts))
    "ing " AllLengths None
  = [].
Proof.
  exact (proj2 (proj2 (filteredPatterns_query sampleDictionary samplePrefixCounts
                         "ing " AllLengths None))
           (proj1 sample_query_untrimmed)
           (proj1 (proj2 sample_query_untrimmed))
           (proj1 (proj2 (proj2 sample_query_untrimmed)))).
Defined.

(** ** Pages *)

Lemma totalPages_div l : totalPages l = ((Z.of_nat (length l) + 99) / 100)%Z.
Proof.
  unfold totalPages, itemsPerPage, Qceiling.
  rewrite (Qfloor_comp _ (inject_Z (- Z.of_nat (length l)) / inject_Z 100)%Q).
  - rewrite <- Zdiv_Qdiv. Z.div_mod_to_equations. lia.
  - rewrite inject_Z_opp. field.
Qed.

Lemma paginatedPatterns_page l page :
  (1 ≤ page)%Z →
  paginatedPatterns l page = take 100 (drop (100 * Z.to_nat (page - 1)) l).
Proof.
  intros Hpage. unfold paginatedPatterns, arraySlice, itemsPerPage, Js.clampIndex.
  rewrite (proj2 (Z.ltb_ge _ _)) by lia.
  rewrite (proj2 (Z.ltb_ge _ _)) by lia.
  destruct (decide (length l ≤ 100 * Z.to_nat (page - 1))) as [Hpast | Hin].
  - rewrite (drop_ge l (100 * _)) by lia.
    rewrite drop_ge by lia. by rewrite !take_nil.
  - replace (Z.to_nat (Z.min ((page - 1) * 100) (Z.of_nat (length l))))
      with (100 * Z.to_nat (page - 1)) by lia.
    destruct (decide (length l ≤ 100 * Z.to_nat (page - 1) + 100)) as [Hlast | Hfull].
    + rewrite !take_ge; [done | |]; rewrite list.length_drop; lia.
    + f_equal. lia.
Qed.

Lemma concat_pages {A} k : ∀ l : list A,
  length l ≤ 100 * k →
  concat ((λ i, take 100 (drop (100 * i) l)) <$> seq 0 k) = l.
Proof.
  induction k as [| k IH]; intros l Hlen.
  - destruct l; [done | simpl in Hlen; lia].
  - rewrite <- cons_seq, fmap_cons, concat_cons, <- fmap_S_seq, <- list_fmap_compose.
    rewrite (list_fmap_ext _ (λ i, take 100 (drop (100 * i) (drop 100 l)))).
    + rewrite IH by (rewrite list.length_drop; lia).
      rewrite Nat.mul_0_r, drop_0. apply take_drop.
    + intros _ i _. simpl. rewrite drop_drop. do 2 f_equal. lia.
Qed.

Lemma length_paginatedPatterns l page :
  (1 ≤ page)%Z →
  length (paginatedPatterns l page)
  = Nat.min 100 (length l - 100 * Z.to_nat (page - 1)).
Proof.
  intros Hpage. rewrite paginatedPatterns_page by done.
  by rewrite list.length_take, list.length_drop.
Qed.

(** X20. The pages partition the list: page [p] (from 1) holds the at
    most 100 items from position [100 (p - 1)]; [totalPages] is the
    number of items divided by 100 and rounded up; each of the pages 1 to
    [totalPages] holds at least one item, every later page and page 0
    none; and the pages 1 to [totalPages] in a row give the list back. *)
Theorem paginatedPatterns_pages (filtered : list PatternRecord.t) :
  totalPages filtered = ((Z.of_nat (length filtered) + 99) / 100)%Z
  ∧ (∀ page, (1 ≤ page)%Z →
       paginatedPatterns filtered page
       = take 100 (drop (100 * Z.to_nat (page - 1)) filtered))
  ∧ (∀ page, (1 ≤ page ≤ totalPages filtered)%Z →
       1 ≤ length (paginatedPatterns filtered page) ≤ 100)
  ∧ (∀ page, (totalPages filtered < page)%Z ∨ page = 0%Z →
       paginatedPatterns filtered page = [])
  ∧ concat ((λ i, paginatedPatterns filtered (Z.of_nat i + 1))
              <$> seq 0 (Z.to_nat (totalPages filtered)))
    = filtered.
Proof.
  pose proof (totalPages_div filtered) as Htotal.
  split; [exact Htotal |].
  split; [intros page; apply paginatedPatterns_page |].
  split; [| split].
  - intros page Hpage. rewrite length_paginatedPatterns by lia.
    revert Hpage. rewrite Htotal. intros Hpage.
    assert (100 * (page - 1) < Z.of_nat (length filtered))%Z
      by (Z.div_mod_to_equations; lia).
    lia.
  - intros page [Hpast | ->].
    + assert (0 ≤ totalPages filtered)%Z
        by (rewrite Htotal; Z.div_mod_to_equations; lia).
      apply nil_length_inv. rewrite length_paginatedPatterns by lia.
      revert Hpast. rewrite Htotal. intros Hpast.
      assert (Z.of_nat (length filtered) ≤ 100 * (page - 1))%Z
        by (Z.div_mod_to_equations; lia).
      lia.
    + unfold paginatedPatterns, arraySlice, itemsPerPage, Js.clampIndex. simpl.
      replace (Z.to_nat (Z.min ((0 - 1) * 100 + 100) (Z.of_nat (length filtered))))
        with 0 by lia.
      done.
  - rewrite (list_fmap_ext _ (λ i, take 100 (drop (100 * i) filtered))).
    + apply concat_pages. rewrite Htotal. Z.div_mod_to_equations. lia.
    + intros _ i _. simpl. rewrite paginatedPatterns_page by lia.
      do 3 f_equal. lia.
Qed.

Lemma showing_count l page :
  (1 ≤ page ≤ Z.max 1 (totalPages l))%Z →
  (showingLast l page - showingFirst page + 1)%Z
  = Z.of_nat (length (paginatedPatterns l page)).
Proof.
  intros Hpage. rewrite length_paginatedPatterns by lia.
  unfold showingLast, showingFirst, itemsPerPage.
  revert Hpage. rewrite totalPages_div. intros Hpage.
  assert (Z.of_nat (length l) = 0 ∧ page = 1
          ∨ 100 * (page - 1) < Z.of_nat (length l))%Z as [[Hnone ->] | Hin]
    by (Z.div_mod_to_equations; lia); lia.
Qed.

Lemma exploreStep_page patternsData ev s :
  (1 ≤ currentPage s
   ≤ Z.max 1 (totalPages (shownPatterns patternsData s)))%Z →
  (1 ≤ currentPage (exploreStep patternsData ev s)
   ≤ Z.max 1 (totalPages (shownPatterns patternsData (exploreStep patternsData ev s))))%Z.
Proof.
  intros Hpage.
  destruct ev as [v | f | r | pattern | |]; simpl; unfold changeFilters.
  - case_bool_decide; [done | simpl; lia].
  - case_bool_decide; [done | simpl; lia].
  - case_bool_decide; [done | simpl; lia].
  - exact Hpage.
  - destruct (_ && _) eqn:Hcond; [| done].
    apply andb_true_iff in Hcond as [Hmany%Z.ltb_lt Hfirst%negb_true_iff].
    apply Z.eqb_neq in Hfirst.
    unfold handlePageChange, shownPatterns in *. simpl. lia.
  - destruct (_ && _) eqn:Hcond; [| done].
    apply andb_true_iff in Hcond as [Hmany%Z.ltb_lt Hlast%negb_true_iff].
    apply Z.eqb_neq in Hlast.
    unfold handlePageChange, shownPatterns in *. simpl. lia.
Qed.

Lemma exploreRun_snoc patternsData events ev :
  exploreRun patternsData (events ++ [ev])
  = exploreStep patternsData ev (exploreRun patternsData events).
Proof. unfold exploreRun. by rewrite foldl_app. Qed.

Lemma exploreRun_page_in_range patternsData events :
  (1 ≤ currentPage (exploreRun patternsData events)
   ≤ Z.max 1 (totalPages
                (shownPatterns patternsData (exploreRun patternsData events))))%Z.
Proof.
  induction events as [| ev events IH] using rev_ind.
  - unfold exploreRun. simpl. lia.
  - rewrite exploreRun_snoc. by apply exploreStep_page.
Qed.

(** X21. The explore mode never leaves the pages: whatever is typed,
    picked and clicked, the current page is at least 1 and at most the
    number of pages (1 when the list is empty), so the page shows items
    whenever the filtered list has any, and the line "Showing a-b of n"
    counts exactly the items shown. *)
Theorem exploreRun_page
    (patternsData : list PatternRecord.t) (events : list ExploreEvent) :
  (1 ≤ currentPage (exploreRun patternsData events)
   ≤ Z.max 1 (totalPages
                (shownPatterns patternsData (exploreRun patternsData events))))%Z
  ∧ (shownPatterns patternsData (exploreRun patternsData events) ≠ [] →
     paginatedPatterns
       (shownPatterns patternsData (exploreRun patternsData events))
       (currentPage (exploreRun patternsData events)) ≠ [])
  ∧ (showingLast (shownPatterns patternsData (exploreRun patternsData events))
       (currentPage (exploreRun patternsData events))
     - showingFirst (currentPage (exploreRun patternsData events)) + 1)%Z
    = Z.of_nat
        (length
           (paginatedPatterns
              (shownPatterns patternsData (exploreRun patternsData events))
              (currentPage (exploreRun patternsData events)))).
Proof.
  pose proof (exploreRun_page_in_range patternsData events) as Hpage.
  split; [exact Hpage |].
  split; [| by apply showing_count].
  intros Hsome Hempty. apply (f_equal length) in Hempty.
  rewrite length_paginatedPatterns in Hempty by lia.
  revert Hpage. rewrite totalPages_div.
  destruct (shownPatterns patternsData (exploreRun patternsData events))
    as [| r rest] eqn:Hshown; [done |].
  simpl length in *. intros Hpage.
  assert (100 * (currentPage (exploreRun patternsData events) - 1)
          < Z.of_nat (S (length rest)))%Z
    by (Z.div_mod_to_equations; lia).
  lia.
Qed.

(** ** Missing data *)

Lemma patternsData_few_words words entries :
  length words < 2 → patternsData (Some words) (Some entries) = [].
Proof.
  intros Hfew. apply elem_of_nil_inv. intros r Hr.
  apply elem_of_patternsData in Hr as (k & Hin).
  apply patternGroups_lookup in Hin as (Hkeep & _).
  unfold retained, endsCountOf, startsCountOf in Hkeep.
  rewrite endsMap_buckets, startsMap_buckets in Hkeep.
  pose proof (length_filter (λ w, k ∈ keysOf ending w) words).
  pose proof (length_filter (λ w, k ∈ keysOf start w) words).
  lia.
Qed.

(** X22. Without data there is nothing to show and nothing to study:
    while the dictionary or the vocabulary is not loaded, and for a
    dictionary of fewer than two words, [patternsData] is empty, the
    explore mode has no page, the drill set is empty under every filter,
    and "Select All Visible" leaves the selection empty, so that the
    session cannot be started. *)
Theorem patternsData_no_data
    (currentDictionary : option (list string))
    (prefixCounts : option (list (string * Z))) :
  currentDictionary = None ∨ prefixCounts = None
  ∨ (∃ words, currentDictionary = Some words ∧ length words < 2) →
  patternsData currentDictionary prefixCounts = []
  ∧ (∀ query len rarity,
       totalPages
         (filteredPatterns (patternsData currentDictionary prefixCounts)
            query len rarity) = 0%Z)
  ∧ (∀ input filter,
       rarePatterns (patternsData currentDictionary prefixCounts) input filter
       = [])
  ∧ (∀ s, isStudying s = false →
       learnStep (patternsData currentDictionary prefixCounts) ClickStart
         (selectAllRare (patternsData currentDictionary prefixCounts) s)
       = setSelectedPatterns [] s).
Proof.
  intros Hdata.
  assert (patternsData currentDictionary prefixCounts = []) as ->.
  { destruct Hdata as [-> | [-> | (words & -> & Hfew)]].
    - done.
    - by destruct currentDictionary.
    - destruct prefixCounts as [entries |]; [| done].
      by apply patternsData_few_words. }
  split; [done |].
  assert (∀ input filter, rarePatterns [] input filter = []) as Hrare.
  { intros input filter. unfold rarePatterns. simpl.
    by destruct filter, (Js.truthy (Js.trim input)). }
  split; [| split; [exact Hrare |]].
  - intros query len rarity.
    assert (filteredPatterns [] query len rarity = []) as ->.
    { apply sublist_nil_r, filteredPatterns_sublist. }
    reflexivity.
  - intros s Hidle. unfold selectAllRare. rewrite Hrare.
    unfold learnStep. simpl. by rewrite Hidle.
Qed.

Lemma patternsData_no_data_witness :
  patternsData (Some ["running"]) (Some samplePrefixCounts) = [].
Proof.
  refine (proj1 (patternsData_no_data (Some ["running"]) (Some samplePrefixCounts) _)).
  right. right. exists ["running"]. split; [reflexivity | simpl; lia].
Defined.
